(** * CrazyJumpy: timing engine, ground spring field and monster director

    A shallow embedding of the simulation core of the game:
    - [SlimeHealthManager.onLanding] and its helpers,
    - [ChargingState] (update, tryLaunchActiveOrSettle, launchActiveControlled),
    - [MonsterManager.spawnApexMonsters] (band and count) and
      [MonsterManager.selectMonsterType],
    - [Ground.render] (the spring integration of the column offsets), with
      the energy of the spring field used to bound its decay.

    JavaScript numbers are modelled as real numbers: [+ - * /], comparisons,
    [Math.max], [Math.min], [Math.exp], [Math.sqrt], [Math.log2],
    [Math.log10], [Math.floor] and [Math.round] are the exact operations.
    Rounding error, NaN and the infinities are outside the model. *)

From Stdlib Require Import Reals Lra Lia ZArith List Bool.
Import ListNotations.
Open Scope R_scope.

(** ** JavaScript numeric helpers *)

Module JS.

Definition leb (a b : R) : bool := if Rle_dec a b then true else false.
Definition ltb (a b : R) : bool := if Rlt_dec a b then true else false.
Definition gtb (a b : R) : bool := ltb b a.
Definition geb (a b : R) : bool := leb b a.
Definition eqb (a b : R) : bool := if Req_dec_T a b then true else false.

(** [Phaser.Math.Clamp(value, min, max)] is [Math.max(min, Math.min(max, value))]. *)
Definition Clamp (value lo hi : R) : R := Rmax lo (Rmin hi value).

Definition log2 (x : R) : R := ln x / ln 2.
Definition log10 (x : R) : R := ln x / ln 10.

(** [Math.floor] and [Math.round] (halves go up), as integers. *)
Definition floor (x : R) : Z := Zfloor x.
Definition round (x : R) : Z := Zfloor (x + / 2).

(** [a ?? b] on an optional configuration entry. *)
Definition orDefault (o : option R) (d : R) : R :=
  match o with Some v => v | None => d end.

(** [a || b] on numbers: [b] when [a] is 0. *)
Definition orElse (a b : R) : R := if Req_dec_T a 0 then b else a.

End JS.

(** ** Ratings and player states *)

Inductive Rating := PERFECT | NORMAL | FAILED.
Inductive SlimeState := GROUNDED_IDLE | GROUND_CHARGING | AIRBORNE.

Definition Rating_eqb (a b : Rating) : bool :=
  match a, b with
  | PERFECT, PERFECT | NORMAL, NORMAL | FAILED, FAILED => true
  | _, _ => false
  end.

(** ** SlimeHealthManager *)

Module Health.

Record SlimeHealthManager := mkHealth {
  invincible : bool;
  currentHealth : R;
  maxHealth : R;
  isDead : bool;
  damageTextTimer : R;
  damageText : option Z;          (* the number last shown by showDamageText *)
  healthBarVisibleTimer : R;
  PIXELS_PER_METER : R
}.

Definition SAFE_ZONE_METERS : R := 100.
Definition INSTANT_DEATH_METERS : R := 1000.
Definition HEALTH_BAR_SHOW_DURATION : R := 3 / 2.

(** The manager as built by the constructor (100 HP, alive). *)
Definition initial (ppm : R) : SlimeHealthManager :=
  mkHealth false 100 100 false 0 None 0 ppm.

Definition die (hm : SlimeHealthManager) : SlimeHealthManager :=
  if invincible hm then hm
  else mkHealth (invincible hm) 0 (maxHealth hm) true
                (damageTextTimer hm) (damageText hm)
                (healthBarVisibleTimer hm) (PIXELS_PER_METER hm).

Definition calculateDamage (hm : SlimeHealthManager) (heightMeters : R) : R :=
  if JS.leb heightMeters SAFE_ZONE_METERS then 0
  else if JS.geb heightMeters INSTANT_DEATH_METERS then currentHealth hm
  else
    let normalizedHeight := heightMeters - SAFE_ZONE_METERS in
    let maxNormalizedHeight := INSTANT_DEATH_METERS - SAFE_ZONE_METERS in
    let rawDamage := 100 * (normalizedHeight / maxNormalizedHeight) in
    Rmin 100 (Rmax 0 rawDamage).

Definition showDamageText (hm : SlimeHealthManager) (damage : Z) : SlimeHealthManager :=
  mkHealth (invincible hm) (currentHealth hm) (maxHealth hm) (isDead hm)
           1 (Some damage) (healthBarVisibleTimer hm) (PIXELS_PER_METER hm).

Definition takeDamage (hm : SlimeHealthManager) (damage : R) : SlimeHealthManager :=
  if isDead hm || invincible hm || JS.leb damage 0 then hm
  else
    let hm1 := mkHealth (invincible hm) (Rmax 0 (currentHealth hm - damage))
                        (maxHealth hm) (isDead hm) (damageTextTimer hm)
                        (damageText hm) (healthBarVisibleTimer hm)
                        (PIXELS_PER_METER hm) in
    let hm2 := showDamageText hm1 (JS.round damage) in
    let hm3 := mkHealth (invincible hm2) (currentHealth hm2) (maxHealth hm2)
                        (isDead hm2) (damageTextTimer hm2) (damageText hm2)
                        HEALTH_BAR_SHOW_DURATION (PIXELS_PER_METER hm2) in
    if JS.leb (currentHealth hm3) 0 then die hm3 else hm3.

Definition onLanding (hm : SlimeHealthManager) (heightPixels : R)
    (rating : Rating) (holdLockout : bool) : SlimeHealthManager :=
  if isDead hm || invincible hm then hm
  else
    let heightMeters := heightPixels / PIXELS_PER_METER hm in
    if holdLockout && JS.gtb heightMeters SAFE_ZONE_METERS then die hm
    else if Rating_eqb rating PERFECT then hm
    else if JS.leb heightMeters SAFE_ZONE_METERS then hm
    else if Rating_eqb rating NORMAL
         then takeDamage hm (calculateDamage hm heightMeters)
         else hm.

End Health.

(** ** The player entity

    The fields of [Slime] that the charging state reads and writes.
    [lastLaunchRating] is what [showFeedback] records; [healthManager] is the
    health collaborator owned by the slime. *)

Record Slime := mkSlime {
  state : SlimeState;
  y : R;
  vy : R;
  prevVyForApex : R;
  landingFallDistance : R;
  landingFastFallDistance : R;
  targetCompression : R;
  currentCompression : R;
  reachedPeak : bool;
  chargeEfficiency : R;
  contactHasInput : bool;
  postPeakHoldTime : R;
  holdLockout : bool;
  lastApexHeight : R;
  landingApexHeight : R;
  landingDifficulty : R;
  groundRecoverTau : R;
  isInYellowZone : bool;
  yellowZoneStartTime : R;
  lastLaunchRating : option Rating;
  perfectStreak : Z;
  healthManager : Health.SlimeHealthManager
}.

(** Field assignments [slime.f = v]. *)

Definition set_state (v : SlimeState) (s : Slime) : Slime :=
  mkSlime v (y s) (vy s) (prevVyForApex s) (landingFallDistance s)
    (landingFastFallDistance s) (targetCompression s) (currentCompression s)
    (reachedPeak s) (chargeEfficiency s) (contactHasInput s)
    (postPeakHoldTime s) (holdLockout s) (lastApexHeight s)
    (landingApexHeight s) (landingDifficulty s) (groundRecoverTau s)
    (isInYellowZone s) (yellowZoneStartTime s) (lastLaunchRating s)
    (perfectStreak s) (healthManager s).

Definition set_y (v : R) (s : Slime) : Slime :=
  mkSlime (state s) v (vy s) (prevVyForApex s) (landingFallDistance s)
    (landingFastFallDistance s) (targetCompression s) (currentCompression s)
    (reachedPeak s) (chargeEfficiency s) (contactHasInput s)
    (postPeakHoldTime s) (holdLockout s) (lastApexHeight s)
    (landingApexHeight s) (landingDifficulty s) (groundRecoverTau s)
    (isInYellowZone s) (yellowZoneStartTime s) (lastLaunchRating s)
    (perfectStreak s) (healthManager s).

Definition set_vy (v : R) (s : Slime) : Slime :=
  mkSlime (state s) (y s) v (prevVyForApex s) (landingFallDistance s)
    (landingFastFallDistance s) (targetCompression s) (currentCompression s)
    (reachedPeak s) (chargeEfficiency s) (contactHasInput s)
    (postPeakHoldTime s) (holdLockout s) (lastApexHeight s)
    (landingApexHeight s) (landingDifficulty s) (groundRecoverTau s)
    (isInYellowZone s) (yellowZoneStartTime s) (lastLaunchRating s)
    (perfectStreak s) (healthManager s).

Definition set_prevVyForApex (v : R) (s : Slime) : Slime :=
  mkSlime (state s) (y s) (vy s) v (landingFallDistance s)
    (landingFastFallDistance s) (targetCompression s) (currentCompression s)
    (reachedPeak s) (chargeEfficiency s) (contactHasInput s)
    (postPeakHoldTime s) (holdLockout s) (lastApexHeight s)
    (landingApexHeight s) (landingDifficulty s) (groundRecoverTau s)
    (isInYellowZone s) (yellowZoneStartTime s) (lastLaunchRating s)
    (perfectStreak s) (healthManager s).

Definition set_currentCompression (v : R) (s : Slime) : Slime :=
  mkSlime (state s) (y s) (vy s) (prevVyForApex s) (landingFallDistance s)
    (landingFastFallDistance s) (targetCompression s) v (reachedPeak s)
    (chargeEfficiency s) (contactHasInput s) (postPeakHoldTime s)
    (holdLockout s) (lastApexHeight s) (landingApexHeight s)
    (landingDifficulty s) (groundRecoverTau s) (isInYellowZone s)
    (yellowZoneStartTime s) (lastLaunchRating s) (perfectStreak s)
    (healthManager s).

Definition set_reachedPeak (v : bool) (s : Slime) : Slime :=
  mkSlime (state s) (y s) (vy s) (prevVyForApex s) (landingFallDistance s)
    (landingFastFallDistance s) (targetCompression s) (currentCompression s)
    v (chargeEfficiency s) (contactHasInput s) (postPeakHoldTime s)
    (holdLockout s) (lastApexHeight s) (landingApexHeight s)
    (landingDifficulty s) (groundRecoverTau s) (isInYellowZone s)
    (yellowZoneStartTime s) (lastLaunchRating s) (perfectStreak s)
    (healthManager s).

Definition set_chargeEfficiency (v : R) (s : Slime) : Slime :=
  mkSlime (state s) (y s) (vy s) (prevVyForApex s) (landingFallDistance s)
    (landingFastFallDistance s) (targetCompression s) (currentCompression s)
    (reachedPeak s) v (contactHasInput s) (postPeakHoldTime s) (holdLockout
    s) (lastApexHeight s) (landingApexHeight s) (landingDifficulty s)
    (groundRecoverTau s) (isInYellowZone s) (yellowZoneStartTime s)
    (lastLaunchRating s) (perfectStreak s) (healthManager s).

Definition set_contactHasInput (v : bool) (s : Slime) : Slime :=
  mkSlime (state s) (y s) (vy s) (prevVyForApex s) (landingFallDistance s)
    (landingFastFallDistance s) (targetCompression s) (currentCompression s)
    (reachedPeak s) (chargeEfficiency s) v (postPeakHoldTime s) (holdLockout
    s) (lastApexHeight s) (landingApexHeight s) (landingDifficulty s)
    (groundRecoverTau s) (isInYellowZone s) (yellowZoneStartTime s)
    (lastLaunchRating s) (perfectStreak s) (healthManager s).

Definition set_postPeakHoldTime (v : R) (s : Slime) : Slime :=
  mkSlime (state s) (y s) (vy s) (prevVyForApex s) (landingFallDistance s)
    (landingFastFallDistance s) (targetCompression s) (currentCompression s)
    (reachedPeak s) (chargeEfficiency s) (contactHasInput s) v (holdLockout
    s) (lastApexHeight s) (landingApexHeight s) (landingDifficulty s)
    (groundRecoverTau s) (isInYellowZone s) (yellowZoneStartTime s)
    (lastLaunchRating s) (perfectStreak s) (healthManager s).

Definition set_holdLockout (v : bool) (s : Slime) : Slime :=
  mkSlime (state s) (y s) (vy s) (prevVyForApex s) (landingFallDistance s)
    (landingFastFallDistance s) (targetCompression s) (currentCompression s)
    (reachedPeak s) (chargeEfficiency s) (contactHasInput s)
    (postPeakHoldTime s) v (lastApexHeight s) (landingApexHeight s)
    (landingDifficulty s) (groundRecoverTau s) (isInYellowZone s)
    (yellowZoneStartTime s) (lastLaunchRating s) (perfectStreak s)
    (healthManager s).

Definition set_groundRecoverTau (v : R) (s : Slime) : Slime :=
  mkSlime (state s) (y s) (vy s) (prevVyForApex s) (landingFallDistance s)
    (landingFastFallDistance s) (targetCompression s) (currentCompression s)
    (reachedPeak s) (chargeEfficiency s) (contactHasInput s)
    (postPeakHoldTime s) (holdLockout s) (lastApexHeight s)
    (landingApexHeight s) (landingDifficulty s) v (isInYellowZone s)
    (yellowZoneStartTime s) (lastLaunchRating s) (perfectStreak s)
    (healthManager s).

Definition set_isInYellowZone (v : bool) (s : Slime) : Slime :=
  mkSlime (state s) (y s) (vy s) (prevVyForApex s) (landingFallDistance s)
    (landingFastFallDistance s) (targetCompression s) (currentCompression s)
    (reachedPeak s) (chargeEfficiency s) (contactHasInput s)
    (postPeakHoldTime s) (holdLockout s) (lastApexHeight s)
    (landingApexHeight s) (landingDifficulty s) (groundRecoverTau s) v
    (yellowZoneStartTime s) (lastLaunchRating s) (perfectStreak s)
    (healthManager s).

Definition set_yellowZoneStartTime (v : R) (s : Slime) : Slime :=
  mkSlime (state s) (y s) (vy s) (prevVyForApex s) (landingFallDistance s)
    (landingFastFallDistance s) (targetCompression s) (currentCompression s)
    (reachedPeak s) (chargeEfficiency s) (contactHasInput s)
    (postPeakHoldTime s) (holdLockout s) (lastApexHeight s)
    (landingApexHeight s) (landingDifficulty s) (groundRecoverTau s)
    (isInYellowZone s) v (lastLaunchRating s) (perfectStreak s)
    (healthManager s).

Definition set_lastLaunchRating (v : option Rating) (s : Slime) : Slime :=
  mkSlime (state s) (y s) (vy s) (prevVyForApex s) (landingFallDistance s)
    (landingFastFallDistance s) (targetCompression s) (currentCompression s)
    (reachedPeak s) (chargeEfficiency s) (contactHasInput s)
    (postPeakHoldTime s) (holdLockout s) (lastApexHeight s)
    (landingApexHeight s) (landingDifficulty s) (groundRecoverTau s)
    (isInYellowZone s) (yellowZoneStartTime s) v (perfectStreak s)
    (healthManager s).

Definition set_perfectStreak (v : Z) (s : Slime) : Slime :=
  mkSlime (state s) (y s) (vy s) (prevVyForApex s) (landingFallDistance s)
    (landingFastFallDistance s) (targetCompression s) (currentCompression s)
    (reachedPeak s) (chargeEfficiency s) (contactHasInput s)
    (postPeakHoldTime s) (holdLockout s) (lastApexHeight s)
    (landingApexHeight s) (landingDifficulty s) (groundRecoverTau s)
    (isInYellowZone s) (yellowZoneStartTime s) (lastLaunchRating s) v
    (healthManager s).

Definition set_healthManager (v : Health.SlimeHealthManager) (s : Slime) : Slime :=
  mkSlime (state s) (y s) (vy s) (prevVyForApex s) (landingFallDistance s)
    (landingFastFallDistance s) (targetCompression s) (currentCompression s)
    (reachedPeak s) (chargeEfficiency s) (contactHasInput s)
    (postPeakHoldTime s) (holdLockout s) (lastApexHeight s)
    (landingApexHeight s) (landingDifficulty s) (groundRecoverTau s)
    (isInYellowZone s) (yellowZoneStartTime s) (lastLaunchRating s)
    (perfectStreak s) v.

(** ** Configuration ([GameConfig])

    The configuration module is a table of numbers.  An entry read as
    [ground.k ?? d] is optional and falls back to the constant [d]; an entry
    read without a fallback is required. *)

Record GroundConfig := mkGroundConfig {
  sweetHoldGrace0 : option R;
  sweetHoldGrace : option R;
  sweetHoldGraceMin : option R;
  failHoldTime0 : option R;
  failHoldTime : option R;
  failHoldTimeMin : option R;
  overHoldAccelK0 : option R;
  overHoldAccelK : option R;
  overHoldAccelKGain : option R;
  overHoldAccelTime : option R;
  compressTime : option R;
  compressLogScale : option R;
  difficultyRefHeight : option R;
  yellowDuration0 : option R;
  yellowDurationMin : option R;
  difficultyLogScale : option R;
  peakEps : option R;
  absorbRelaxTime : option R;
  idleRelaxAfterPeak : option R;
  settleEps : option R;
  deadEfficiency : option R;
  softCapVelocity : option R;
  softCapFactor : option R;
  releaseRecoverTime : option R;
  relaxTime : R;
  fatigueTime : R;
  baseLaunchVelocity : R;
  hardCapVelocity : R
}.

Record GameConfig := mkGameConfig {
  ground : GroundConfig;
  gravity : R;
  pixelsPerMeter : option R       (* display.pixelsPerMeter *)
}.

(** [a ?? b ?? d] *)
Definition orDefault2 (a b : option R) (d : R) : R :=
  match a with Some v => v | None => JS.orDefault b d end.

(** ** Slime helpers and the idle state *)

(** [Slime.approach] *)
Definition approach (current target dt tau : R) : R :=
  if JS.leb tau 0 then target
  else
    let alpha := 1 - exp (- dt / tau) in
    current + (target - current) * alpha.

(** [Slime.showFeedback]: the rating shown is recorded in [lastLaunchRating]. *)
Definition showFeedback (rating : Rating) (s : Slime) : Slime :=
  set_lastLaunchRating (Some rating) s.

Module IdleState.

(** [groundYi] is the value of [slime.getGroundY()], supplied by the ground. *)
Definition enter (groundYi : R) (s : Slime) : Slime :=
  let s := set_vy 0 s in
  let s := set_y groundYi s in
  set_currentCompression 0 s.

End IdleState.

(** ** ChargingState *)

Module ChargingState.

Section WithConfig.

Variable cfg : GameConfig.

(** [AirborneState.enter], run by [transitionTo('AIRBORNE')]; the airborne
    state is a collaborator of the charging state and stays abstract. *)
Variable airborneEnter : Slime -> Slime.

Let g := ground cfg.

Definition enter (s : Slime) : Slime :=
  let s := set_currentCompression 0 s in
  let s := set_reachedPeak false s in
  let s := set_chargeEfficiency 1 s in
  let s := set_postPeakHoldTime 0 s in
  let s := set_holdLockout false s in
  set_contactHasInput false s.

(** [Slime.transitionTo] as called from the charging state, whose own [exit]
    does nothing: set the state, then run [enter] of the new state.
    [groundYi] is the value of [slime.getGroundY()]. *)
Definition transitionTo (newState : SlimeState) (groundYi : R) (s : Slime) : Slime :=
  let s := set_state newState s in
  match newState with
  | GROUNDED_IDLE => IdleState.enter groundYi s
  | GROUND_CHARGING => enter s
  | AIRBORNE => airborneEnter s
  end.

(** The dynamic difficulty parameters, computed alike in [update] and in
    [launchActiveControlled]. *)
Definition sweetGraceEff (s : Slime) : R :=
  let diff := landingDifficulty s in
  let sweet0 := orDefault2 (sweetHoldGrace0 g) (sweetHoldGrace g) (8 / 100) in
  let sweetMin := JS.orDefault (sweetHoldGraceMin g) (2 / 100) in
  JS.Clamp (sweet0 / diff) sweetMin sweet0.

Definition failHoldEff (s : Slime) : R :=
  let diff := landingDifficulty s in
  let fail0 := orDefault2 (failHoldTime0 g) (failHoldTime g) (12 / 100) in
  let failMin := JS.orDefault (failHoldTimeMin g) (3 / 100) in
  JS.Clamp (fail0 / diff) failMin fail0.

Definition accelKeff (s : Slime) : R :=
  let diff := landingDifficulty s in
  let accelK0 := orDefault2 (overHoldAccelK0 g) (overHoldAccelK g) 8 in
  let accelKGain := JS.orDefault (overHoldAccelKGain g) 6 in
  accelK0 + accelKGain * (diff - 1).

Definition settleEpsOf : R := JS.orDefault (settleEps g) (1 / 2).
Definition deadEff : R := JS.orDefault (deadEfficiency g) (5 / 100).

(** *** launchActiveControlled *)

(** The rating determined at the head of [launchActiveControlled]. *)
Definition launchRating (s : Slime) : Rating :=
  let proximity := currentCompression s / Rmax (/ 1000000) (targetCompression s) in
  let wasInYellowZone := isInYellowZone s && negb (reachedPeak s) in
  if holdLockout s || JS.leb (chargeEfficiency s) deadEff then FAILED
  else if wasInYellowZone || (JS.gtb proximity (9 / 10) && negb (reachedPeak s))
  then PERFECT
  else if reachedPeak s && JS.leb (postPeakHoldTime s) (sweetGraceEff s)
  then PERFECT
  else NORMAL.

(** The streak counter update. *)
Definition updateStreak (rating : Rating) (s : Slime) : Slime :=
  if Rating_eqb rating PERFECT
  then set_perfectStreak (perfectStreak s + 1)%Z s
  else set_perfectStreak 0%Z s.

(** [streakBonus]: 2.0 from the third consecutive PERFECT on. *)
Definition streakBonus (s : Slime) : R :=
  if (3 <=? perfectStreak s)%Z then 2 else 1.

(** [distFactor]: the share of the fall covered while the input was held. *)
Definition distFactor (s : Slime) : R :=
  let fallDist := Rmax 1 (JS.orElse (landingFallDistance s) (lastApexHeight s)) in
  let fastDist := Rmax 0 (JS.orElse (landingFastFallDistance s) 0) in
  JS.Clamp (fastDist / fallDist) 0 1.

Definition growthRate (s : Slime) : R :=
  let baseGrowthRate := 15 / 100 in
  let heightFactor := 5 / 100 * JS.log10 (1 + lastApexHeight s / 100) in
  baseGrowthRate + heightFactor.

Definition streakMultiplier (s : Slime) : R :=
  if JS.gtb (streakBonus s) 1 then 15 / 10 else 1.

(** [targetH] before the minimum launch height is applied; [s] is the slime
    after the streak update. *)
Definition targetH (rating : Rating) (s : Slime) : R :=
  match rating with
  | PERFECT =>
      let minMult := 85 / 100 in
      let maxMult := 1 + growthRate s * streakMultiplier s in
      let targetMult := minMult + (maxMult - minMult) * distFactor s in
      lastApexHeight s * targetMult
  | NORMAL => lastApexHeight s * (70 / 100)
  | FAILED => lastApexHeight s * (40 / 100)
  end.

(** [vLaunch]: minimum launch height, velocity floor, soft cap for the
    ratings other than PERFECT, hard cap. *)
Definition vLaunch (rating : Rating) (s : Slime) : R :=
  let targetH := Rmax (targetH rating s) 50 in
  let vTarget := sqrt (2 * gravity cfg * targetH) in
  let v := Rmax vTarget (Rabs (baseLaunchVelocity g)) in
  let v :=
    if negb (Rating_eqb rating PERFECT) then
      let vSoft := JS.orDefault (softCapVelocity g) 2600 in
      let softFactor := JS.orDefault (softCapFactor g) (25 / 100) in
      if JS.gtb v vSoft then vSoft + (v - vSoft) * softFactor else v
    else v in
  Rmin v (hardCapVelocity g).

(** The report to the health manager made by [launchActiveControlled]. *)
Definition reportLanding (rating : Rating) (s : Slime) : Slime :=
  set_healthManager
    (Health.onLanding (healthManager s) (lastApexHeight s) rating (holdLockout s)) s.

Definition launchActiveControlled (groundYi : R) (s : Slime) : Slime :=
  let rating := launchRating s in
  let s := updateStreak rating s in
  let s := reportLanding rating s in
  if Health.isDead (healthManager s) then transitionTo GROUNDED_IDLE groundYi s
  else
    let v := vLaunch rating s in
    let s := showFeedback rating s in
    let s := set_groundRecoverTau (JS.orDefault (releaseRecoverTime g) (12 / 100)) s in
    let s := set_vy (- v) s in
    let s := transitionTo AIRBORNE groundYi s in
    let s := set_currentCompression 0 s in
    let s := set_y (groundYi - 1 / 2) s in
    let s := set_contactHasInput false s in
    let s := set_reachedPeak false s in
    let s := set_postPeakHoldTime 0 s in
    let s := set_holdLockout false s in
    let s := set_isInYellowZone false s in
    set_prevVyForApex (vy s) s.

(** *** tryLaunchActiveOrSettle *)

Definition tryLaunchActiveOrSettle (groundYi : R) (s : Slime) : Slime :=
  if JS.leb (currentCompression s) settleEpsOf then
    let s := set_perfectStreak 0%Z s in
    transitionTo GROUNDED_IDLE groundYi s
  else if holdLockout s then
    let s := set_perfectStreak 0%Z s in
    transitionTo GROUNDED_IDLE groundYi s
  else if JS.leb (chargeEfficiency s) deadEff then
    transitionTo GROUNDED_IDLE groundYi s
  else launchActiveControlled groundYi s.

(** *** checkMissedBounceDeath

    Returns the slime and whether death occurred. *)
Definition checkMissedBounceDeath (groundYi : R) (s : Slime) : Slime * bool :=
  if negb (holdLockout s) then (s, false)
  else
    let PIXELS_PER_METER := JS.orDefault (pixelsPerMeter cfg) 50 in
    let SAFE_ZONE_METERS := 100 in
    let heightMeters := landingApexHeight s / PIXELS_PER_METER in
    if JS.gtb heightMeters SAFE_ZONE_METERS then
      let s := set_healthManager
                 (Health.onLanding (healthManager s) (landingApexHeight s) FAILED true) s in
      let s := showFeedback FAILED s in
      let s := set_perfectStreak 0%Z s in
      (transitionTo GROUNDED_IDLE groundYi s, true)
    else (s, false).

(** *** update

    One tick of the charging state.  [groundYi] is [slime.getGroundY()].
    The camera and sprite shake computed in the first phase only writes
    display fields ([chargeProximity], [chargeShake01], [visualShakeX],
    [visualShakeY], the ground tremor) that the timing logic never reads;
    it is left out. *)

(** Reaching the peak, written twice in the first phase. *)
Definition reachPeak (s : Slime) : Slime :=
  let s := set_reachedPeak true s in
  let s := set_postPeakHoldTime 0 s in
  let s := set_holdLockout false s in
  let s := set_chargeEfficiency 1 s in
  let s := set_currentCompression (targetCompression s) s in
  set_isInYellowZone false s.

Definition compressTimeEff (s : Slime) : R :=
  let compressTime0 := JS.orDefault (compressTime g) (12 / 100) in
  let compressLogScale := JS.orDefault (compressLogScale g) (1 / 2) in
  let Href := JS.orDefault (difficultyRefHeight g) 5000 in
  let logFactor :=
    1 + compressLogScale * JS.log2 (1 + landingApexHeight s / Rmax 1 Href) in
  compressTime0 * logFactor.

Definition yellowDurationEff (s : Slime) : R :=
  let yellowDur0 := JS.orDefault (yellowDuration0 g) (15 / 100) in
  let yellowDurMin := JS.orDefault (yellowDurationMin g) (3 / 100) in
  let logScale := JS.orDefault (difficultyLogScale g) (8 / 10) in
  let Href := JS.orDefault (difficultyRefHeight g) 5000 in
  let logFactor := 1 + logScale * JS.log2 (1 + landingApexHeight s / Rmax 1 Href) in
  Rmax yellowDurMin (yellowDur0 / logFactor).

Definition update (groundYi : R) (s : Slime) (dt : R)
    (isSpaceDown justReleased : bool) : Slime :=
  let s := if isSpaceDown then set_contactHasInput true s else s in
  if negb (reachedPeak s) then
    (* Phase 1: compress to peak *)
    let s := set_currentCompression
               (approach (currentCompression s) (targetCompression s) dt
                         (compressTimeEff s)) s in
    let proximity := currentCompression s / Rmax (/ 1000000) (targetCompression s) in
    let s := if JS.gtb proximity (9 / 10) && negb (isInYellowZone s)
             then set_yellowZoneStartTime 0 (set_isInYellowZone true s)
             else s in
    let s := if isInYellowZone s then
               let s := set_yellowZoneStartTime (yellowZoneStartTime s + dt) s in
               if JS.geb (yellowZoneStartTime s) (yellowDurationEff s)
               then reachPeak s else s
             else s in
    let eps := JS.orDefault (peakEps g) 1 in
    let s := if JS.leb (Rabs (targetCompression s - currentCompression s)) eps
                && negb (reachedPeak s)
             then reachPeak s else s in
    if justReleased && contactHasInput s
    then tryLaunchActiveOrSettle groundYi s
    else s
  else
  (* Phase 2: at peak *)
  if justReleased && contactHasInput s then tryLaunchActiveOrSettle groundYi s
  else if negb (contactHasInput s) && negb isSpaceDown then
    (* no input: absorb *)
    let absorbTau := JS.orDefault (absorbRelaxTime g) (12 / 100) in
    let s := set_currentCompression (approach (currentCompression s) 0 dt absorbTau) s in
    if JS.leb (currentCompression s) settleEpsOf then
      let PIXELS_PER_METER := JS.orDefault (pixelsPerMeter cfg) 50 in
      let SAFE_ZONE_PX := 100 * PIXELS_PER_METER in
      let s := if JS.gtb (landingApexHeight s) SAFE_ZONE_PX then
                 let s := set_healthManager
                            (Health.onLanding (healthManager s) (landingApexHeight s)
                                              FAILED true) s in
                 showFeedback FAILED s
               else s in
      let s := set_perfectStreak 0%Z s in
      transitionTo GROUNDED_IDLE groundYi s
    else s
  else if isSpaceDown then
    (* holding after the peak *)
    let s := set_postPeakHoldTime (postPeakHoldTime s + dt) s in
    if JS.leb (postPeakHoldTime s) (sweetGraceEff s) then
      let s := set_currentCompression (targetCompression s) s in
      set_chargeEfficiency 1 s
    else
      let over := postPeakHoldTime s - sweetGraceEff s in
      let accelT := JS.orDefault (overHoldAccelTime g) (25 / 100) in
      let accel := 1 + accelKeff s * (1 - exp (- over / Rmax (/ 1000000) accelT)) in
      let s := if JS.geb over (failHoldEff s) then set_holdLockout true s else s in
      let relaxTau := Rmax (/ 10000) (relaxTime g / accel) in
      let fatigueTau := Rmax (/ 10000) (fatigueTime g / accel) in
      let s := set_currentCompression (approach (currentCompression s) 0 dt relaxTau) s in
      let s := set_chargeEfficiency (approach (chargeEfficiency s) 0 dt fatigueTau) s in
      let s := set_y (groundYi + currentCompression s) s in
      if JS.leb (currentCompression s) settleEpsOf then
        let '(s, died) := checkMissedBounceDeath groundYi s in
        if died then s
        else
          let s := set_perfectStreak 0%Z s in
          transitionTo GROUNDED_IDLE groundYi s
      else s
  else
    (* released earlier without input at release: relax slowly *)
    let idleRelaxTau := JS.orDefault (idleRelaxAfterPeak g) (18 / 100) in
    let s := set_currentCompression (approach (currentCompression s) 0 dt idleRelaxTau) s in
    let s := set_y (groundYi + currentCompression s) s in
    if JS.leb (currentCompression s) settleEpsOf then
      let s := set_perfectStreak 0%Z s in
      transitionTo GROUNDED_IDLE groundYi s
    else s.

End WithConfig.

End ChargingState.

(** ** MonsterManager: the director *)

Inductive MonsterType := A01 | A02 | A03 | CloudA.

(** [GameConfig.monster.director]: the entries read for the spawn window. *)
Record DirectorConfig := mkDirectorConfig {
  enabled : bool;
  apexRangeStart : R;
  apexRangeEndBase : option R;
  apexRangeEndMin : option R;
  apexRangeEndTau : option R;
  baseCount : option R;
  maxCount : option R;
  refHeightM : option R;
  countGrowthFactor : option R;
  speedRefHeightM : option R;
  speedGrowthFactor : option R;
  maxSpeedMultiplier : option R
}.

(** Modelled from the spec: the configuration module ([config.ts]) is not
    among the sources, and [apexRangeStart] is read from it without a
    fallback; the spec gives the band start as 85% of the apex
    ([rangeStartM = apex * 0.85]).  Every optional entry is left to the
    fallback written in the code, which is the documented default. *)
Definition defaultDirector : DirectorConfig :=
  mkDirectorConfig true (85 / 100) None None None None None None None None None None.

Module MonsterManager.

(** The spawn window computed at the head of [spawnApexMonsters]. *)
Record SpawnWindow := mkSpawnWindow {
  rangeStartM : R;
  rangeEndM : R;
  targetCount : Z;
  speedMultiplier : R
}.

Section Director.

Variable director : DirectorConfig.

Definition bandStart (apexHeightM : R) : R :=
  apexHeightM * apexRangeStart director.

Definition dynamicRangeEnd (apexHeightM : R) : R :=
  let baseEnd := JS.orDefault (apexRangeEndBase director) (98 / 100) in
  let minEnd := JS.orDefault (apexRangeEndMin director) (91 / 100) in
  let tau := JS.orDefault (apexRangeEndTau director) 600 in
  minEnd + (baseEnd - minEnd) * exp (- apexHeightM / tau).

Definition bandEnd (apexHeightM : R) : R :=
  apexHeightM * dynamicRangeEnd apexHeightM.

(** [targetCount] before the rating multiplier: the logarithmic growth
    clamped to [[baseCount, maxCount]]. *)
Definition clampedCount (apexHeightM : R) : R :=
  let baseCount := JS.orDefault (baseCount director) 4 in
  let maxCount := JS.orDefault (maxCount director) 12 in
  let refHeightM := JS.orDefault (refHeightM director) 50 in
  let countGrowthFactor := JS.orDefault (countGrowthFactor director) (25 / 10) in
  let targetCount :=
    if JS.leb apexHeightM refHeightM then baseCount
    else
      let logFactor := JS.log2 (apexHeightM / refHeightM) in
      IZR (JS.floor (baseCount + logFactor * countGrowthFactor)) in
  JS.Clamp targetCount baseCount maxCount.

Definition spawnCount (apexHeightM countMultiplier : R) : Z :=
  Z.max 1 (JS.round (clampedCount apexHeightM * countMultiplier)).

Definition spawnSpeedMultiplier (apexHeightM : R) : R :=
  let speedRefHeightM := JS.orDefault (speedRefHeightM director) 400 in
  let speedGrowthFactor := JS.orDefault (speedGrowthFactor director) (15 / 10) in
  let maxSpeedMult := JS.orDefault (maxSpeedMultiplier director) 3 in
  Rmin (1 + apexHeightM / speedRefHeightM * speedGrowthFactor) maxSpeedMult.

(** The window of [spawnApexMonsters(predictedApexHeightPx, _, countMultiplier)];
    [None] when the director is disabled.  The placement loop that follows
    (lanes, spacing, random offsets) consumes this window. *)
Definition spawnWindow (pixelsPerMeter predictedApexHeightPx countMultiplier : R)
    : option SpawnWindow :=
  if negb (enabled director) then None
  else
    let apexHeightM := predictedApexHeightPx / pixelsPerMeter in
    Some (mkSpawnWindow (bandStart apexHeightM) (bandEnd apexHeightM)
                        (spawnCount apexHeightM countMultiplier)
                        (spawnSpeedMultiplier apexHeightM)).

End Director.

(** *** selectMonsterType *)

Definition a01Weight (heightM : R) : R :=
  if JS.ltb heightM 200 then 1
  else if JS.ltb heightM 600 then
    let progress := (heightM - 200) / (600 - 200) in
    1 - progress
  else 0.

Definition a02Weight (heightM : R) : R :=
  if JS.geb heightM 200 && JS.ltb heightM 600 then
    (heightM - 200) / (600 - 200)
  else if JS.geb heightM 600 && JS.ltb heightM 1000 then
    let progress := (heightM - 600) / (1000 - 600) in
    exp (- 3 * progress)
  else 0.

Definition a03Weight (heightM : R) : R :=
  if JS.geb heightM 600 && JS.ltb heightM 1000 then
    (heightM - 600) / (1000 - 600)
  else if JS.geb heightM 1000 then 1
  else 0.

Definition cloudWeight (heightM : R) : R :=
  if JS.geb heightM 400 && JS.ltb heightM 800 then
    (heightM - 400) / (800 - 400)
  else if JS.geb heightM 800 && JS.ltb heightM 1100 then
    let progress := (heightM - 800) / (1100 - 800) in
    1 - progress * (9 / 10)
  else 0.

(** The candidates: every type whose weight exceeds 0.01, in the order
    A01, A02, A03, CloudA. *)
Definition candidatesOf (w01 w02 w03 wCloud : R) : list (MonsterType * R) :=
  (if JS.gtb w01 (1 / 100) then [(A01, w01)] else []) ++
  (if JS.gtb w02 (1 / 100) then [(A02, w02)] else []) ++
  (if JS.gtb w03 (1 / 100) then [(A03, w03)] else []) ++
  (if JS.gtb wCloud (1 / 100) then [(CloudA, wCloud)] else []).

(** The sampling loop: subtract each weight from [random] and return the
    first type at which it drops to 0 or below. *)
Fixpoint sample (random : R) (candidates : list (MonsterType * R))
    : option MonsterType :=
  match candidates with
  | [] => None
  | (type, weight) :: rest =>
      let random := random - weight in
      if JS.leb random 0 then Some type else sample random rest
  end.

(** Candidate filtering, fallback and weighted draw on given weights;
    [rnd] is the value returned by [Math.random()]. *)
Definition chooseType (w01 w02 w03 wCloud rnd : R) : MonsterType :=
  let candidates := candidatesOf w01 w02 w03 wCloud in
  match candidates with
  | [] => A03
  | first :: _ =>
      let totalWeight := fold_left (fun sum c => sum + snd c) candidates 0 in
      let random := rnd * totalWeight in
      match sample random candidates with
      | Some type => type
      | None => fst first
      end
  end.

Definition selectMonsterType (heightM rnd : R) : MonsterType :=
  chooseType (a01Weight heightM) (a02Weight heightM) (a03Weight heightM)
             (cloudWeight heightM) rnd.

Definition totalWeightAt (heightM : R) : R :=
  a01Weight heightM + a02Weight heightM + a03Weight heightM + cloudWeight heightM.

End MonsterManager.

(** ** Ground: the spring field *)

Module Ground.

Definition BLOCK_SIZE : R := 64.
Definition TENSION : R := 180.
Definition STIFFNESS : R := 90.
Definition DAMPING : R := 18.
Definition MAX_OFFSET : R := 60.

(** The physics arrays of the ground; [BLOCKS_PER_ROW] is their length. *)
Record Ground := mkGround {
  BLOCKS_PER_ROW : nat;
  yOffset : list R;
  yVel : list R;
  force : list R
}.

(** The arrays as the constructor fills them. *)
Definition initial (n : nat) : Ground :=
  mkGround n (repeat 0 n) (repeat 0 n) (repeat 0 n).

(** Every array has one entry per column. *)
Definition wf (G : Ground) : Prop :=
  length (yOffset G) = BLOCKS_PER_ROW G /\
  length (yVel G) = BLOCKS_PER_ROW G /\
  length (force G) = BLOCKS_PER_ROW G.

(** [a[i] = v] on an index inside the array. *)
Fixpoint assign (l : list R) (i : nat) (v : R) : list R :=
  match l, i with
  | [], _ => []
  | _ :: t, O => v :: t
  | x :: t, S j => x :: assign t j v
  end.

Definition get (l : list R) (i : nat) : R := nth i l 0.

(** The force loop: a Gaussian bump around [centerCol], over the columns
    from [max(0, centerCol - radius)] to [min(N - 1, centerCol + radius)]. *)
Definition forceAt (P : R) (centerCol : Z) (i : nat) : R :=
  let d := IZR (Z.of_nat i - centerCol) in
  let sigma := 16 / 10 in
  P * exp (- (d * d) / (2 * sigma * sigma)).

Definition addForce (P : R) (centerCol : Z) (f : list R) (i : nat) : list R :=
  assign f i (get f i + forceAt P centerCol i).

Definition forceColumns (n : nat) (centerCol : Z) : list nat :=
  let radius := 6%Z in
  let lo := Z.max 0 (centerCol - radius) in
  let hi := Z.min (Z.of_nat n - 1) (centerCol + radius) in
  map (fun k => Z.to_nat (lo + Z.of_nat k)) (seq 0 (Z.to_nat (hi - lo + 1))).

Definition computeForce (G : Ground) (depressionDepth : R) (centerCol : Z) : Ground :=
  let zero := repeat 0 (BLOCKS_PER_ROW G) in
  let f :=
    if JS.gtb depressionDepth 0 then
      let P := depressionDepth * 80 in
      fold_left (addForce P centerCol) (forceColumns (BLOCKS_PER_ROW G) centerCol) zero
    else zero in
  mkGround (BLOCKS_PER_ROW G) (yOffset G) (yVel G) f.

(** The body of the inner integration loop, for column [i]. *)
Definition stepColumn (h : R) (G : Ground) (i : nat) : Ground :=
  let y := get (yOffset G) i in
  let v := get (yVel G) i in
  let yL := get (yOffset G) (Nat.max 0 (i - 1)) in
  let yR := get (yOffset G) (Nat.min (BLOCKS_PER_ROW G - 1) (i + 1)) in
  let laplacian := yL - 2 * y + yR in
  let a := TENSION * laplacian - STIFFNESS * y - DAMPING * v + get (force G) i in
  let v' := v + a * h in
  let y' := y + v' * h in
  let y'' := Rmax (- MAX_OFFSET * (3 / 10)) (Rmin MAX_OFFSET y') in
  mkGround (BLOCKS_PER_ROW G) (assign (yOffset G) i y'') (assign (yVel G) i v') (force G).

(** One substep: the columns are updated in place from left to right. *)
Definition substep (h : R) (G : Ground) : Ground :=
  fold_left (stepColumn h) (seq 0 (BLOCKS_PER_ROW G)) G.

Definition integrate (dt : R) (G : Ground) : Ground :=
  let subSteps := 2 in
  let h := dt / subSteps in
  substep h (substep h G).

(** [centerCol]: the column under the player, or the middle column. *)
Definition centerColOf (G : Ground) (playerX : option R) : Z :=
  match playerX with
  | Some x => JS.floor (x / BLOCK_SIZE)
  | None => JS.floor (INR (BLOCKS_PER_ROW G) / 2)
  end.

(** [Ground.render]: the physics of the column offsets (part 3 of the
    method).  The global shake, the ripple sub-state and the sprite
    placement are display only and do not touch [yOffset]. *)
Definition render (G : Ground) (dt depressionDepth : R) (playerX : option R) : Ground :=
  let centerCol := centerColOf G playerX in
  integrate dt (computeForce G depressionDepth centerCol).

(** [getSurfaceOffsetAt] *)
Definition getSurfaceOffsetAt (G : Ground) (x : R) : R :=
  let col := JS.floor (x / BLOCK_SIZE) in
  let clampedCol := Z.max 0 (Z.min (Z.of_nat (BLOCKS_PER_ROW G) - 1) col) in
  get (yOffset G) (Z.to_nat clampedCol).

(** The invariant of the column offsets. *)
Definition inRange (y : R) : Prop := - (3 / 10) * MAX_OFFSET <= y <= MAX_OFFSET.

End Ground.

(** ** Sample data for the concrete runs *)

(** A configuration in which every optional entry is left to its fallback. *)
Definition sampleGround : GroundConfig :=
  mkGroundConfig None None None None None None None None None None None None
                 None None None None None None None None None None None None
                 (3 / 10) (3 / 10) 900 6000.

Definition sampleConfig : GameConfig := mkGameConfig sampleGround 2500 (Some 50).

(** A slime at the peak of a charge, released inside the sweet window after a
    fall of 500 px, with the input held over the whole fall. *)
Definition sampleSlime (streak : Z) : Slime :=
  mkSlime GROUND_CHARGING 0 0 0 500 500 60 60 true 1 true 0 false
          500 500 1 (12 / 100) false 0 None streak (Health.initial 50).




(** ** A hold on the charging state *)

(** [n] ticks of [ChargingState.update] with the input down and no release,
    and the tick on which the input is let go. *)
Fixpoint holdTicks (cfg : GameConfig) (airborneEnter : Slime -> Slime)
    (groundYi dt : R) (n : nat) (s : Slime) : Slime :=
  match n with
  | O => s
  | S k =>
      ChargingState.update cfg airborneEnter groundYi
        (holdTicks cfg airborneEnter groundYi dt k s) dt true false
  end.

Definition releaseTick (cfg : GameConfig) (airborneEnter : Slime -> Slime)
    (groundYi dt : R) (s : Slime) : Slime :=
  ChargingState.update cfg airborneEnter groundYi s dt false true.

(** The configuration of the samples with another fatigue time. *)
Definition holdConfig (fatigueTime : R) : GameConfig :=
  mkGameConfig
    (mkGroundConfig None None None None None None None None None None None None
                    None None None None None None None None None None None None
                    (3 / 10) fatigueTime 900 6000)
    2500 (Some 50).


Definition wornOutSlime : Slime :=
  holdTicks (holdConfig (1 / 50)) (fun s => s) 0 (1 / 120) 18 (sampleSlime 2).

(** ** The free spring field: energy and the sweep as a recursion

    With no force applied, a substep is a left-to-right sweep in which a
    column sees the new offset of its left neighbour and the old offset of
    its right neighbour.  [freeSweep] is that sweep written by recursion on
    the list of columns [(offset, velocity)]; [prev] is the new offset of
    the column to the left, if there is one. *)

Module SpringField.

Import Ground.

(** The physics step of the scene ([GameScene.FIXED_DT], 120 Hz). *)
Definition FIXED_DT : R := 1 / 120.

(** A unit mass on a spring of stiffness [k] with damping [c] returns to
    rest without oscillating exactly when [c * c >= 4 * k]. *)
Definition criticallyOrOverDamped (k c : R) : Prop := 4 * k <= c * c.

Fixpoint kinetic (vs : list R) : R :=
  match vs with
  | [] => 0
  | v :: rest => v * v / 2 + kinetic rest
  end.

(** The spring energy of a chain of offsets: the stiffness spring of every
    column and the tension spring of every pair of neighbours. *)
Fixpoint potentialFrom (prev : option R) (ys : list R) : R :=
  match ys with
  | [] => 0
  | y :: rest =>
      STIFFNESS / 2 * (y * y)
      + match prev with Some p => TENSION / 2 * ((y - p) * (y - p)) | None => 0 end
      + potentialFrom (Some y) rest
  end.

Definition potential (ys : list R) : R := potentialFrom None ys.

Definition energy (G : Ground) : R := kinetic (yVel G) + potential (yOffset G).

(** One tick with no compression, and [n] of them. *)
Definition tick (playerX : option R) (G : Ground) : Ground :=
  render G FIXED_DT 0 playerX.

Fixpoint ticks (n : nat) (playerX : option R) (G : Ground) : Ground :=
  match n with
  | O => G
  | S k => ticks k playerX (tick playerX G)
  end.

(** One tick with no compression at the step [dt], and a run over a list of
    steps: the scene renders the ground at [FIXED_DT * timeScale] in the
    physics loop and at the frame delta in the death animation. *)
Definition tickAt (dt : R) (playerX : option R) (G : Ground) : Ground :=
  render G dt 0 playerX.

Fixpoint run (dts : list R) (playerX : option R) (G : Ground) : Ground :=
  match dts with
  | [] => G
  | dt :: rest => run rest playerX (tickAt dt playerX G)
  end.

(** What a free tick at the step [dt] divides the energy by, at least: each
    of the two substeps of [dt / 2] gives [1 + 4 (dt / 2)^2]. *)
Definition stepGain (dt : R) : R :=
  (1 + 4 * (dt / 2 * (dt / 2))) * (1 + 4 * (dt / 2 * (dt / 2))).

Fixpoint runGain (dts : list R) : R :=
  match dts with
  | [] => 1
  | dt :: rest => stepGain dt * runGain rest
  end.

(** The loop body of [stepColumn] on the values it reads, with no force. *)
Definition colStep (h yL y yR v : R) : R * R :=
  let laplacian := yL - 2 * y + yR in
  let a := TENSION * laplacian - STIFFNESS * y - DAMPING * v in
  let v' := v + a * h in
  let y' := y + v' * h in
  (Rmax (- MAX_OFFSET * (3 / 10)) (Rmin MAX_OFFSET y'), v').

Definition leftOf (prev : option R) (y : R) : R :=
  match prev with Some p => p | None => y end.

Definition rightOf (rest : list (R * R)) (y : R) : R :=
  match rest with (b, _) :: _ => b | [] => y end.

Fixpoint freeSweep (h : R) (prev : option R) (cols : list (R * R)) : list (R * R) :=
  match cols with
  | [] => []
  | (y, v) :: rest =>
      let c := colStep h (leftOf prev y) y (rightOf rest y) v in
      c :: freeSweep h (Some (fst c)) rest
  end.

(** The spring force on a column, with the sign turned: the derivative of
    the energy in its offset. *)
Definition pull (yL y yR : R) : R :=
  STIFFNESS * y - TENSION * (yL - 2 * y + yR).

(** What a column gives up in one step is measured against its new speed,
    the pull it felt and the distance it moved. *)
Definition colLoad (h yL y yR v : R) : R :=
  let c := colStep h yL y yR v in
  let g := pull yL y yR in
  g * g + 234900 * ((fst c - y) * (fst c - y)).

Fixpoint sweepLoad (h : R) (prev : option R) (cols : list (R * R)) : R :=
  match cols with
  | [] => 0
  | (y, v) :: rest =>
      let c := colStep h (leftOf prev y) y (rightOf rest y) v in
      colLoad h (leftOf prev y) y (rightOf rest y) v
      + sweepLoad h (Some (fst c)) rest
  end.

(** The squared move of the first column of a sweep. *)
Definition headMove (h : R) (prev : option R) (cols : list (R * R)) : R :=
  match cols with
  | [] => 0
  | (y, v) :: rest =>
      let c := colStep h (leftOf prev y) y (rightOf rest y) v in
      (fst c - y) * (fst c - y)
  end.

(** The derivative of the energy in the offset [z] of a column between
    [prev] and [next], and the sum of its squares along a chain. *)
Definition gradAt (prev : option R) (z : R) (next : option R) : R :=
  STIFFNESS * z
  - TENSION * (match prev with Some p => p - z | None => 0 end
               + match next with Some b => b - z | None => 0 end).

Definition headOf (ys : list R) : option R :=
  match ys with [] => None | b :: _ => Some b end.

Fixpoint gradSq (prev : option R) (ys : list R) : R :=
  match ys with
  | [] => 0
  | z :: rest =>
      gradAt prev z (headOf rest) * gradAt prev z (headOf rest)
      + gradSq (Some z) rest
  end.

Fixpoint sumSq (ys : list R) : R :=
  match ys with
  | [] => 0
  | y :: rest => y * y + sumSq rest
  end.

Fixpoint linkSq (prev : option R) (ys : list R) : R :=
  match ys with
  | [] => 0
  | y :: rest =>
      match prev with Some p => (y - p) * (y - p) | None => 0 end
      + linkSq (Some y) rest
  end.

(** The part of the energy that depends on the offset [t] of a column
    between [prev] and [next]. *)
Definition localPot (prev next : option R) (t : R) : R :=
  STIFFNESS / 2 * (t * t)
  + match prev with Some p => TENSION / 2 * ((t - p) * (t - p)) | None => 0 end
  + match next with Some b => TENSION / 2 * ((b - t) * (b - t)) | None => 0 end.

Definition optInRange (o : option R) : Prop :=
  match o with Some p => inRange p | None => True end.

(** No force is applied to any column. *)
Definition forceFree (G : Ground) : Prop := forall i, get (force G) i = 0.

End SpringField.

(** A three-column ground with the first column pushed 10 px down, at rest. *)
Definition dentedGround : Ground.Ground :=
  Ground.mkGround 3 [10; 0; 0] [0; 0; 0] [0; 0; 0].

(** A five-column ground pressed to the full depth, at rest. *)
Definition pressedGround : Ground.Ground :=
  Ground.mkGround 5 [60; 60; 60; 60; 60] [0; 0; 0; 0; 0] [0; 0; 0; 0; 0].
(** ** SlimeHealthManager: the rest of the life cycle *)

Module HealthManager.

Import Health.

(** [update]: the visibility timer of the health bar (in [updateHealthBar])
    and the timer of the damage text count down while they are positive;
    the drawing reads the state and writes none of it. *)
Definition update (dt : R) (hm : SlimeHealthManager) : SlimeHealthManager :=
  let barTimer :=
    if JS.gtb (healthBarVisibleTimer hm) 0 then healthBarVisibleTimer hm - dt
    else healthBarVisibleTimer hm in
  let textTimer :=
    if JS.gtb (damageTextTimer hm) 0 then damageTextTimer hm - dt
    else damageTextTimer hm in
  mkHealth (invincible hm) (currentHealth hm) (maxHealth hm) (isDead hm)
           textTimer (damageText hm) barTimer (PIXELS_PER_METER hm).

(** [reset] *)
Definition reset (hm : SlimeHealthManager) : SlimeHealthManager :=
  mkHealth (invincible hm) (maxHealth hm) (maxHealth hm) false
           0 (damageText hm) (healthBarVisibleTimer hm) (PIXELS_PER_METER hm).

(** [setInvincible] *)
Definition setInvincible (enabled : bool) (hm : SlimeHealthManager)
    : SlimeHealthManager :=
  if enabled then
    mkHealth true (maxHealth hm) (maxHealth hm) false
             0 (damageText hm) 0 (PIXELS_PER_METER hm)
  else
    mkHealth false (currentHealth hm) (maxHealth hm) (isDead hm)
             (damageTextTimer hm) (damageText hm) (healthBarVisibleTimer hm)
             (PIXELS_PER_METER hm).

(** The bookkeeping of the manager: the health lies between 0 and the
    maximum, and the slime is marked dead exactly when the health is 0. *)
Definition consistent (hm : SlimeHealthManager) : Prop :=
  0 < maxHealth hm /\
  0 <= currentHealth hm <= maxHealth hm /\
  (isDead hm = true <-> currentHealth hm = 0).

(** The fall height in metres that [onLanding] computes. *)
Definition heightMetersOf (hm : SlimeHealthManager) (heightPixels : R) : R :=
  heightPixels / PIXELS_PER_METER hm.

End HealthManager.

(** ** Further sample data *)

(** The sample slime after a landing of difficulty 2 from twice the height. *)
Definition hardLandingSlime : Slime :=
  mkSlime GROUND_CHARGING 0 0 0 1000 1000 60 60 true 1 true 0 false
          1000 1000 2 (12 / 100) false 0 None 2 (Health.initial 50).

(** ** Phaser's random helpers

    [Phaser.Math.Between(min, max)] is
    [Math.floor(Math.random() * (max - min + 1) + min)] and
    [Phaser.Math.FloatBetween(min, max)] is
    [Math.random() * (max - min) + min]; [u] is the value returned by
    [Math.random()], a number in [[0, 1)]. *)

Module Phaser.

Definition Between (min max u : R) : Z := JS.floor (u * (max - min + 1) + min).
Definition FloatBetween (min max u : R) : R := u * (max - min) + min.

(** A value of [Math.random()]. *)
Definition unit (u : R) : Prop := 0 <= u < 1.

End Phaser.

(** ** Monster

    The monster entity with the chase behaviour of the bat (the variant that
    [MonsterManager] is written against: it passes the player position to
    [update] and asks [isInChaseMode]).  The sprite and its animations are
    display only. *)

Module Monster.

(** The entries of [GameConfig.monster] and [GameConfig.lane] that the
    entity and its manager read. *)
Record Settings := mkSettings {
  laneCount : R;
  moveSpeedMin : R;
  moveSpeedMax : R;
  directionChangeInterval : R;
  directionChangeVariance : R;
  a01Size : R
}.

(** The interface [MonsterConfig] handed to the constructor.  Its fields
    [type], [x], [y], [heightMeters] and [speedMultiplier] carry the prefix
    [cfg_], the class having fields of the same names. *)
Record MonsterConfig := mkMonsterConfig {
  cfg_type : MonsterType;
  cfg_x : R;
  cfg_y : R;
  cfg_heightMeters : R;
  cfg_speedMultiplier : option R
}.

(** The two values of [Math.random()] that one change of direction draws:
    for the speed ([updateMoveSpeed]) and for the delay
    ([scheduleDirectionChange]). *)
Record Rolls := mkRolls {
  speedRoll : R;
  delayRoll : R
}.

Record Monster := mkMonster {
  id : Z;
  x : R;
  y : R;
  heightMeters : R;
  type : MonsterType;
  isAlive : bool;
  nextDebuffTime : R;
  noDebuffUntil : R;
  currentLane : R;
  screenWidth : R;
  moveDirection : Z;              (* -1 | 1 *)
  moveSpeed : R;
  speedMultiplier : R;
  nextDirectionChange : R;
  isChasing : bool;
  chaseCurrentSpeed : R
}.

Definition set_x (v : R) (m : Monster) : Monster :=
  mkMonster (id m) v (y m) (heightMeters m) (type m) (isAlive m)
    (nextDebuffTime m) (noDebuffUntil m) (currentLane m) (screenWidth m)
    (moveDirection m) (moveSpeed m) (speedMultiplier m) (nextDirectionChange m)
    (isChasing m) (chaseCurrentSpeed m).

Definition set_y (v : R) (m : Monster) : Monster :=
  mkMonster (id m) (x m) v (heightMeters m) (type m) (isAlive m)
    (nextDebuffTime m) (noDebuffUntil m) (currentLane m) (screenWidth m)
    (moveDirection m) (moveSpeed m) (speedMultiplier m) (nextDirectionChange m)
    (isChasing m) (chaseCurrentSpeed m).

Definition set_isAlive (v : bool) (m : Monster) : Monster :=
  mkMonster (id m) (x m) (y m) (heightMeters m) (type m) v
    (nextDebuffTime m) (noDebuffUntil m) (currentLane m) (screenWidth m)
    (moveDirection m) (moveSpeed m) (speedMultiplier m) (nextDirectionChange m)
    (isChasing m) (chaseCurrentSpeed m).

Definition set_nextDebuffTime (v : R) (m : Monster) : Monster :=
  mkMonster (id m) (x m) (y m) (heightMeters m) (type m) (isAlive m)
    v (noDebuffUntil m) (currentLane m) (screenWidth m)
    (moveDirection m) (moveSpeed m) (speedMultiplier m) (nextDirectionChange m)
    (isChasing m) (chaseCurrentSpeed m).

Definition set_noDebuffUntil (v : R) (m : Monster) : Monster :=
  mkMonster (id m) (x m) (y m) (heightMeters m) (type m) (isAlive m)
    (nextDebuffTime m) v (currentLane m) (screenWidth m)
    (moveDirection m) (moveSpeed m) (speedMultiplier m) (nextDirectionChange m)
    (isChasing m) (chaseCurrentSpeed m).

Definition set_currentLane (v : R) (m : Monster) : Monster :=
  mkMonster (id m) (x m) (y m) (heightMeters m) (type m) (isAlive m)
    (nextDebuffTime m) (noDebuffUntil m) v (screenWidth m)
    (moveDirection m) (moveSpeed m) (speedMultiplier m) (nextDirectionChange m)
    (isChasing m) (chaseCurrentSpeed m).

Definition set_moveDirection (v : Z) (m : Monster) : Monster :=
  mkMonster (id m) (x m) (y m) (heightMeters m) (type m) (isAlive m)
    (nextDebuffTime m) (noDebuffUntil m) (currentLane m) (screenWidth m)
    v (moveSpeed m) (speedMultiplier m) (nextDirectionChange m)
    (isChasing m) (chaseCurrentSpeed m).

Definition set_moveSpeed (v : R) (m : Monster) : Monster :=
  mkMonster (id m) (x m) (y m) (heightMeters m) (type m) (isAlive m)
    (nextDebuffTime m) (noDebuffUntil m) (currentLane m) (screenWidth m)
    (moveDirection m) v (speedMultiplier m) (nextDirectionChange m)
    (isChasing m) (chaseCurrentSpeed m).

Definition set_nextDirectionChange (v : R) (m : Monster) : Monster :=
  mkMonster (id m) (x m) (y m) (heightMeters m) (type m) (isAlive m)
    (nextDebuffTime m) (noDebuffUntil m) (currentLane m) (screenWidth m)
    (moveDirection m) (moveSpeed m) (speedMultiplier m) v
    (isChasing m) (chaseCurrentSpeed m).

Definition set_isChasing (v : bool) (m : Monster) : Monster :=
  mkMonster (id m) (x m) (y m) (heightMeters m) (type m) (isAlive m)
    (nextDebuffTime m) (noDebuffUntil m) (currentLane m) (screenWidth m)
    (moveDirection m) (moveSpeed m) (speedMultiplier m) (nextDirectionChange m)
    v (chaseCurrentSpeed m).

Definition set_chaseCurrentSpeed (v : R) (m : Monster) : Monster :=
  mkMonster (id m) (x m) (y m) (heightMeters m) (type m) (isAlive m)
    (nextDebuffTime m) (noDebuffUntil m) (currentLane m) (screenWidth m)
    (moveDirection m) (moveSpeed m) (speedMultiplier m) (nextDirectionChange m)
    (isChasing m) v.

(** [type === 'A02'] *)
Definition isA02 (t : MonsterType) : bool :=
  match t with A02 => true | _ => false end.

Section WithSettings.

Variable st : Settings.

(** [now] is the value of [scene.time.now]. *)

Definition updateMoveSpeed (roll : R) (m : Monster) : Monster :=
  let baseSpeed := IZR (Phaser.Between (moveSpeedMin st) (moveSpeedMax st) roll) in
  let typeBonus := if isA02 (type m) then 13 / 10 else 1 in
  set_moveSpeed (baseSpeed * speedMultiplier m * typeBonus) m.

Definition scheduleDirectionChange (now roll : R) (m : Monster) : Monster :=
  let interval := directionChangeInterval st in
  let variance := directionChangeVariance st in
  let delay := interval + IZR (Phaser.Between (- variance) variance roll) in
  set_nextDirectionChange (now + Rmax 500 delay) m.

Definition updateCurrentLane (m : Monster) : Monster :=
  let laneWidth := screenWidth m / laneCount st in
  let newLane := IZR (JS.floor (x m / laneWidth)) in
  set_currentLane (JS.Clamp newLane 0 (laneCount st - 1)) m.

Definition changeDirection (now : R) (r : Rolls) (m : Monster) : Monster :=
  let m := set_moveDirection (if (moveDirection m =? 1)%Z then (-1)%Z else 1%Z) m in
  let m := updateMoveSpeed (speedRoll r) m in
  scheduleDirectionChange now (delayRoll r) m.

(** The left and right bound of the lane of a monster. *)
Definition laneLeftBound (m : Monster) : R :=
  let laneWidth := screenWidth m / laneCount st in
  currentLane m * laneWidth + laneWidth * (25 / 100).

Definition laneRightBound (m : Monster) : R :=
  let laneWidth := screenWidth m / laneCount st in
  (currentLane m + 1) * laneWidth - laneWidth * (25 / 100).

(** The patrol, written three times in [update]: turn when the timer
    says so, move, and turn at the bounds of the lane.  [r1] and [r2] are
    the rolls of the first and of the second change of direction. *)
Definition patrol (dt currentTime now : R) (r1 r2 : Rolls) (m : Monster) : Monster :=
  let m := if JS.geb currentTime (nextDirectionChange m)
           then changeDirection now r1 m else m in
  let moveAmount := IZR (moveDirection m) * moveSpeed m * dt in
  let m := set_x (x m + moveAmount) m in
  if JS.ltb (x m) (laneLeftBound m) then
    changeDirection now r2 (set_x (laneLeftBound m) m)
  else if JS.gtb (x m) (laneRightBound m) then
    changeDirection now r2 (set_x (laneRightBound m) m)
  else m.

(** The chase of a bat that the player has passed. *)
Definition chase (dt playerX playerY : R) (m : Monster) : Monster :=
  let dx := playerX - x m in
  let dy := playerY - y m in
  let dist := sqrt (dx * dx + dy * dy) in
  if JS.gtb dist 5 then
    let baseSpeed := 1000 in
    let chaseAccel := 12000 in
    let maxSpeed := 3000 in
    let m := set_chaseCurrentSpeed
               (Rmin (chaseCurrentSpeed m + chaseAccel * dt) maxSpeed) m in
    let speed := Rmax baseSpeed (chaseCurrentSpeed m) in
    let nx := dx / dist in
    let ny := dy / dist in
    let x' := x m + nx * speed * dt in
    let y' := y m + ny * speed * dt in
    set_y y' (set_x x' m)
  else m.

Definition update (dt currentTime now : R) (playerX playerY : option R)
    (r1 r2 : Rolls) (m : Monster) : Monster :=
  if negb (isAlive m) then m
  else
    match playerX, playerY with
    | Some px, Some py =>
        if isA02 (type m) then
          let playerAbove := JS.ltb py (y m - 30) in
          let m := if playerAbove && negb (isChasing m)
                   then set_chaseCurrentSpeed 0 (set_isChasing true m)
                   else m in
          if isChasing m then chase dt px py m
          else patrol dt currentTime now r1 r2 m
        else patrol dt currentTime now r1 r2 m
    | _, _ => patrol dt currentTime now r1 r2 m
    end.

Definition isInChaseMode (m : Monster) : bool :=
  isA02 (type m) && isChasing m.

Definition kill (m : Monster) : Monster :=
  if negb (isAlive m) then m else set_isAlive false m.

Definition destroy (m : Monster) : Monster := set_isAlive false m.

(** The constructor; [nextId] is the value of the static [NEXT_ID],
    [dirRoll] the value of [Math.random()] drawn for the first direction. *)
Definition create (nextId : Z) (config : MonsterConfig) (screenWidth now dirRoll : R)
    (r : Rolls) : Monster :=
  let m := mkMonster nextId (cfg_x config) (cfg_y config) (cfg_heightMeters config)
             (cfg_type config) true 0 0 1 screenWidth 1%Z 40
             (JS.orDefault (cfg_speedMultiplier config) 1) 0 false 0 in
  let m := set_moveDirection (if JS.gtb dirRoll (1 / 2) then 1%Z else (-1)%Z) m in
  let m := updateMoveSpeed (speedRoll r) m in
  let m := scheduleDirectionChange now (delayRoll r) m in
  updateCurrentLane m.

End WithSettings.

(** The distance between a monster and a point. *)
Definition distanceTo (px py : R) (m : Monster) : R :=
  sqrt ((px - x m) * (px - x m) + (py - y m) * (py - y m)).

End Monster.

(** ** The debuff bookkeeping of the slime

    The fields of [Slime] behind the debuffs and the immunity windows, with
    the methods on them.  Times in milliseconds are values of
    [scene.time.now]. *)

Module Debuffs.

Record SlimeDebuffs := mkDebuffs {
  poison1Duration : R;
  poison2Duration : R;
  poisonTickTimer : R;
  slowImpulseTimer : R;
  debuffGraceUntil : R;
  recentHitGraceUntil : R;
  swingGraceUntil : R;
  recentKilledIds : list Z;        (* a Set of monster ids *)
  recentHitTimestamp : R
}.

(** The fields as the class initialises them. *)
Definition initial : SlimeDebuffs := mkDebuffs 0 0 0 0 0 0 0 [] 0.

Definition addDebuffGrace (durationMs nowMs : R) (d : SlimeDebuffs) : SlimeDebuffs :=
  mkDebuffs (poison1Duration d) (poison2Duration d) (poisonTickTimer d)
    (slowImpulseTimer d) (Rmax (debuffGraceUntil d) (nowMs + durationMs))
    (recentHitGraceUntil d) (swingGraceUntil d) (recentKilledIds d)
    (recentHitTimestamp d).

Definition hasDebuffGrace (nowMs : R) (d : SlimeDebuffs) : bool :=
  JS.leb nowMs (debuffGraceUntil d).

Definition addRecentHitGrace (durationMs nowMs : R) (d : SlimeDebuffs) : SlimeDebuffs :=
  mkDebuffs (poison1Duration d) (poison2Duration d) (poisonTickTimer d)
    (slowImpulseTimer d) (debuffGraceUntil d)
    (Rmax (recentHitGraceUntil d) (nowMs + durationMs))
    (swingGraceUntil d) (recentKilledIds d) nowMs.

Definition hasRecentHitGrace (nowMs : R) (d : SlimeDebuffs) : bool :=
  JS.leb nowMs (recentHitGraceUntil d).

Definition addSwingGrace (durationMs nowMs : R) (d : SlimeDebuffs) : SlimeDebuffs :=
  mkDebuffs (poison1Duration d) (poison2Duration d) (poisonTickTimer d)
    (slowImpulseTimer d) (debuffGraceUntil d) (recentHitGraceUntil d)
    (Rmax (swingGraceUntil d) (nowMs + durationMs)) (recentKilledIds d)
    (recentHitTimestamp d).

Definition hasSwingGrace (nowMs : R) (d : SlimeDebuffs) : bool :=
  JS.leb nowMs (swingGraceUntil d).

(** [Set.add] and [Set.has] on the ids. *)
Definition has (ids : list Z) (i : Z) : bool := existsb (Z.eqb i) ids.
Definition add (ids : list Z) (i : Z) : list Z := if has ids i then ids else ids ++ [i].

Definition addRecentKill (monsterId : Z) (nowMs : R) (d : SlimeDebuffs) : SlimeDebuffs :=
  mkDebuffs (poison1Duration d) (poison2Duration d) (poisonTickTimer d)
    (slowImpulseTimer d) (debuffGraceUntil d) (recentHitGraceUntil d)
    (swingGraceUntil d) (add (recentKilledIds d) monsterId) nowMs.

(** [hasRecentHitWindow(nowMs)], with the default window of 250 ms. *)
Definition hasRecentHitWindow (nowMs : R) (d : SlimeDebuffs) : bool :=
  JS.leb (nowMs - recentHitTimestamp d) 250.

Definition clearOldKills (nowMs : R) (d : SlimeDebuffs) : SlimeDebuffs :=
  match recentKilledIds d with
  | [] => d
  | _ :: _ =>
      if JS.gtb (nowMs - recentHitTimestamp d) 1000 then
        mkDebuffs (poison1Duration d) (poison2Duration d) (poisonTickTimer d)
          (slowImpulseTimer d) (debuffGraceUntil d) (recentHitGraceUntil d)
          (swingGraceUntil d) [] (recentHitTimestamp d)
      else d
  end.

(** [applyDebuffFromMonster(monsterType, duration)]: the debuff fields and
    the vertical velocity of the slime; [nowMs] is [scene.time.now]. *)
Definition applyDebuffFromMonster (monsterType : MonsterType) (duration nowMs : R)
    (d : SlimeDebuffs) (vy : R) : SlimeDebuffs * R :=
  if hasRecentHitWindow nowMs d then (d, vy)
  else
    match monsterType with
    | A01 =>
        (mkDebuffs (Rmin 5 (poison1Duration d + duration)) (poison2Duration d)
           (poisonTickTimer d) (slowImpulseTimer d) (debuffGraceUntil d)
           (recentHitGraceUntil d) (swingGraceUntil d) (recentKilledIds d)
           (recentHitTimestamp d), vy)
    | A02 =>
        (mkDebuffs (poison1Duration d) (Rmin 5 (poison2Duration d + duration))
           (poisonTickTimer d) (slowImpulseTimer d) (debuffGraceUntil d)
           (recentHitGraceUntil d) (swingGraceUntil d) (recentKilledIds d)
           (recentHitTimestamp d), vy)
    | CloudA =>
        let damp := 6 / 10 in
        (mkDebuffs (poison1Duration d) (poison2Duration d)
           (poisonTickTimer d) (4 / 10) (debuffGraceUntil d)
           (recentHitGraceUntil d) (swingGraceUntil d) (recentKilledIds d)
           (recentHitTimestamp d), vy * damp)
    | A03 => (d, vy)
    end.

(** The tick loop of [updateDebuffs]:
    [while (poisonTickTimer >= 1.0) { poisonTickTimer -= 1.0; takeDamage(dmg) }].
    Every round takes one second off the timer; [rounds] bounds their
    number. *)
Fixpoint poisonTicks (rounds : nat) (timer dmg : R) (hm : Health.SlimeHealthManager)
    : R * Health.SlimeHealthManager :=
  match rounds with
  | O => (timer, hm)
  | S k =>
      if JS.geb timer 1 then
        let timer := timer - 1 in
        let hm := if JS.gtb dmg 0 then Health.takeDamage hm dmg else hm in
        poisonTicks k timer dmg hm
      else (timer, hm)
  end.

(** [updateDebuffs(dt)]: the timers and the health manager.  The loop is
    given as many rounds as the timer holds whole seconds. *)
Definition updateDebuffs (dt nowMs : R) (d : SlimeDebuffs)
    (hm : Health.SlimeHealthManager) : SlimeDebuffs * Health.SlimeHealthManager :=
  if JS.leb (poison1Duration d) 0 && JS.leb (poison2Duration d) 0
     && JS.leb (slowImpulseTimer d) 0 then (d, hm)
  else
    let p1 := if JS.gtb (poison1Duration d) 0
              then Rmax 0 (poison1Duration d - dt) else poison1Duration d in
    let p2 := if JS.gtb (poison2Duration d) 0
              then Rmax 0 (poison2Duration d - dt) else poison2Duration d in
    let slow := if JS.gtb (slowImpulseTimer d) 0
                then Rmax 0 (slowImpulseTimer d - dt) else slowImpulseTimer d in
    let hasPoison := JS.gtb p1 0 || JS.gtb p2 0 in
    if negb hasPoison then
      (mkDebuffs p1 p2 0 slow (debuffGraceUntil d) (recentHitGraceUntil d)
         (swingGraceUntil d) (recentKilledIds d) (recentHitTimestamp d), hm)
    else
      let timer := poisonTickTimer d + dt in
      let dmg := (if JS.gtb p1 0 then 1 else 0) + (if JS.gtb p2 0 then 2 else 0) in
      let '(timer, hm) := poisonTicks (Z.to_nat (Zfloor timer)) timer dmg hm in
      let ids :=
        match recentKilledIds d with
        | [] => []
        | _ :: _ =>
            if JS.gtb (recentHitTimestamp d) 0
               && JS.gtb (nowMs - recentHitTimestamp d) 1000
            then [] else recentKilledIds d
        end in
      (mkDebuffs p1 p2 timer slow (debuffGraceUntil d) (recentHitGraceUntil d)
         (swingGraceUntil d) ids (recentHitTimestamp d), hm).

End Debuffs.

(** ** MonsterManager: the collection of monsters *)

Module MonsterCollection.

Import Monster.

(** The fields of the manager besides the collection. *)
Record Manager := mkManager {
  screenWidth : R;
  groundY : R;
  pixelsPerMeter : R
}.

(** [getAliveMonsters], [getAliveMonsterCount] *)
Definition getAliveMonsters (monsters : list Monster) : list Monster :=
  filter isAlive monsters.

Definition getAliveMonsterCount (monsters : list Monster) : nat :=
  length (filter isAlive monsters).

(** [Math.max(...values)] on a list that is not empty. *)
Fixpoint maxOf (first : R) (rest : list R) : R :=
  match rest with
  | [] => first
  | v :: more => Rmax first (maxOf v more)
  end.

(** [getHighestAliveMonsterHeight] *)
Definition getHighestAliveMonsterHeight (monsters : list Monster) : R :=
  let aliveMonsters := filter isAlive monsters in
  match map heightMeters aliveMonsters with
  | [] => -1
  | h :: rest => maxOf h rest
  end.

(** [onPlayerLanded] and [clear]: every monster is marked dead and the
    collection is emptied; the result is the new collection and the monsters
    as they are left behind. *)
Definition onPlayerLanded (monsters : list Monster) : list Monster * list Monster :=
  ([], map (fun m => set_isAlive false m) monsters).

Definition clear (monsters : list Monster) : list Monster * list Monster :=
  ([], map destroy monsters).

(** *** checkSectorCollision *)

(** The test of the loop body: the monster is within the attack range of a
    swipe in [swipeDirection] (-1 left, 1 right) from [(playerX, playerY)]. *)
Definition inSector (mgr : Manager) (swipeDirection : Z) (playerX playerY : R)
    (monster : Monster) : bool :=
  let hitRangeYMeters := 2 in
  let hitRangeXPixels := 150 in
  let hitRangeYPixels := hitRangeYMeters * pixelsPerMeter mgr in
  let xDistance := x monster - playerX in
  let backTolerance := 30 in
  let isInDirection :=
    if (swipeDirection =? -1)%Z
    then JS.gtb xDistance (- hitRangeXPixels) && JS.ltb xDistance backTolerance
    else JS.gtb xDistance (- backTolerance) && JS.ltb xDistance hitRangeXPixels in
  if negb isInDirection then false
  else
    let yDistance := Rabs (y monster - playerY) in
    JS.ltb yDistance hitRangeYPixels.

Definition MAX_SAFE_INTEGER : R := 9007199254740991.

(** A drop requested from the pickup manager: position and type. *)
Definition Drop : Type := R * R * MonsterType.

(** The result of a sector query: the collection, the debuff bookkeeping of
    the slime, the drops requested and the number of kills.  The refund that
    a kill earns from the bullet-time manager is not part of it. *)
Record SectorResult := mkSectorResult {
  monstersAfter : list Monster;
  slimeAfter : Debuffs.SlimeDebuffs;
  drops : list Drop;
  killCount : Z
}.

(** The body of the loop for one monster that is hit. *)
Definition hit (ts : R) (monster : Monster) : Monster :=
  let monster := kill monster in
  let monster := set_nextDebuffTime MAX_SAFE_INTEGER monster in
  set_noDebuffUntil (ts + 500) monster.

Definition graceAfterKill (ts : R) (monsterId : Z) (s : Debuffs.SlimeDebuffs)
    : Debuffs.SlimeDebuffs :=
  let s := Debuffs.addDebuffGrace 300 ts s in
  let s := Debuffs.addRecentHitGrace 200 ts s in
  Debuffs.addRecentKill monsterId ts s.

Fixpoint checkSectorCollision (mgr : Manager) (swipeDirection : Z)
    (playerX playerY : R) (slime : Debuffs.SlimeDebuffs) (ts : R)
    (monsters : list Monster) : SectorResult :=
  match monsters with
  | [] => mkSectorResult [] slime [] 0
  | monster :: rest =>
      if isAlive monster && inSector mgr swipeDirection playerX playerY monster then
        let deathX := x monster in
        let deathY := y monster in
        let monsterType := type monster in
        let slime := graceAfterKill ts (id monster) slime in
        let r := checkSectorCollision mgr swipeDirection playerX playerY slime ts rest in
        mkSectorResult (hit ts monster :: monstersAfter r) (slimeAfter r)
          ((deathX, deathY, monsterType) :: drops r) (killCount r + 1)
      else
        let r := checkSectorCollision mgr swipeDirection playerX playerY slime ts rest in
        mkSectorResult (monster :: monstersAfter r) (slimeAfter r) (drops r) (killCount r)
  end.

(** *** checkDebuffCollision *)

(** The monster passes the guards at the head of the loop body. *)
Definition canDebuff (nowMs : R) (slime : Debuffs.SlimeDebuffs) (monster : Monster) : bool :=
  if negb (isAlive monster) then false
  else if JS.gtb (nextDebuffTime monster) nowMs then false
  else if JS.gtb (noDebuffUntil monster) nowMs then false
  else if Debuffs.has (Debuffs.recentKilledIds slime) (id monster) then false
  else if Debuffs.hasSwingGrace nowMs slime then false
  else true.

(** The monster is close enough: within the sum of the radii, or within
    30 px when it is a chasing bat. *)
Definition touches (st : Settings) (playerX playerY playerRadius : R)
    (monster : Monster) : bool :=
  let monsterRadius := a01Size st / (12 / 10) in
  let normalThresholdSq :=
    (playerRadius + monsterRadius) * (playerRadius + monsterRadius) in
  let chaseCollisionRadius := 30 in
  let chaseThresholdSq := chaseCollisionRadius * chaseCollisionRadius in
  let dx := x monster - playerX in
  let dy := y monster - playerY in
  let distSq := dx * dx + dy * dy in
  let isChasing := isInChaseMode monster in
  let thresholdSq := if isChasing then chaseThresholdSq else normalThresholdSq in
  JS.ltb distSq thresholdSq.

(** The query returns at the first monster that passes the guards and
    touches the player: a chasing bat dies of the hit, any other monster is
    throttled for 300 ms. *)
Fixpoint checkDebuffCollision (st : Settings) (playerX playerY playerRadius nowMs : R)
    (slime : Debuffs.SlimeDebuffs) (monsters : list Monster)
    : list Monster * option (MonsterType * bool) :=
  match monsters with
  | [] => ([], None)
  | monster :: rest =>
      if canDebuff nowMs slime monster
         && touches st playerX playerY playerRadius monster then
        let isChaseHit := isInChaseMode monster in
        let monster' :=
          if isChaseHit then set_isAlive false monster
          else set_nextDebuffTime (nowMs + 300) monster in
        (monster' :: rest, Some (type monster, isChaseHit))
      else
        let '(rest', r) :=
          checkDebuffCollision st playerX playerY playerRadius nowMs slime rest in
        (monster :: rest', r)
  end.

End MonsterCollection.

(** ** Sample monsters *)

Definition sampleSettings : Monster.Settings :=
  Monster.mkSettings 3 30 60 2000 500 48.

(** A slime monster patrolling the middle lane of a 540 px screen, 100 m up. *)
Definition sampleMonster : Monster.Monster :=
  Monster.mkMonster 1 270 (-5000) 100 A01 true 0 0 1 540 1 45 1 2000 false 0.

(** A bat 100 m up, 60 px to the right of the middle of the screen. *)
Definition sampleBat : Monster.Monster :=
  Monster.mkMonster 2 330 (-5000) 100 A02 true 0 0 1 540 1 45 1 2000 false 0.

Definition sampleRolls : Monster.Rolls := Monster.mkRolls (1 / 2) (1 / 2).

(** The immunity that a kill at [ts] grants the slime: the debuff grace
    lasts until [ts + 300] at least, the recent-hit grace until [ts + 200]
    at least, and the kill is the most recent one. *)
Definition protectedSince (ts : R) (s : Debuffs.SlimeDebuffs) : Prop :=
  ts + 300 <= Debuffs.debuffGraceUntil s /\
  ts + 200 <= Debuffs.recentHitGraceUntil s /\
  Debuffs.recentHitTimestamp s = ts.

(** ** MonsterManager.spawnApexMonsters: clearing and placement

    What follows the spawn window in [spawnApexMonsters]: the old monsters
    in the band are removed, the spacing is computed, and the monsters are
    placed one by one from the start of the band upwards. *)

Module Spawner.

Import Monster MonsterCollection.

(** [director.dynamicSpacing]; [dsEnabled] is its entry [enabled]. *)
Record DynamicSpacing := mkDynamicSpacing {
  dsEnabled : bool;
  baseSpacingM : option R;
  heightRefM : option R;
  heightFactor : option R;
  heightMaxBonus : option R;
  sameSideBonus : option R;
  diagonalBonus : option R
}.

(** The entries of [GameConfig.monster.director] read by the placement. *)
Record PlacementConfig := mkPlacementConfig {
  minSpacingMeters : option R;
  dynamicSpacing : option DynamicSpacing;
  difficultyCurve : option (list (R * R))
}.

(** The values of [Math.random()] drawn for one monster, in the order of
    their use: the lane ([Between(0, 2)], or the alternation test and the
    index into the other lanes), the offset inside the lane, the side of
    the centre, the type, and the three values of the constructor. *)
Record SpawnRolls := mkSpawnRolls {
  laneRoll : R;
  alternateRoll : R;
  otherRoll : R;
  offsetRoll : R;
  sideRoll : R;
  typeRoll : R;
  dirRoll : R;
  moveRolls : Rolls
}.

(** The filter on the old monsters: a monster stays when it is alive and
    outside the band widened by 5 m. *)
Definition keepOld (rangeStartM rangeEndM : R) (m : Monster) : bool :=
  if negb (isAlive m) then false
  else
    let inRange := JS.geb (heightMeters m) (rangeStartM - 5)
                   && JS.leb (heightMeters m) (rangeEndM + 5) in
    if inRange then false else true.

Definition baseSpacingOf (p : PlacementConfig) (apexHeightM : R) : R :=
  let baseSpacing := JS.orDefault (minSpacingMeters p) 5 in
  match dynamicSpacing p with
  | Some ds =>
      if dsEnabled ds then
        let baseM := JS.orDefault (baseSpacingM ds) 5 in
        let refHeight := JS.orDefault (heightRefM ds) 500 in
        let heightFactor := JS.orDefault (heightFactor ds) (1 / 2) in
        let maxBonus := JS.orDefault (heightMaxBonus ds) (15 / 10) in
        let heightBonus := Rmin (apexHeightM / refHeight * heightFactor) maxBonus in
        baseM * (1 + heightBonus)
      else baseSpacing
  | None => baseSpacing
  end.

Definition sameSideBonusOf (p : PlacementConfig) : R :=
  match dynamicSpacing p with
  | Some ds => JS.orDefault (sameSideBonus ds) 1
  | None => 1
  end.

Definition diagonalBonusOf (p : PlacementConfig) : R :=
  match dynamicSpacing p with
  | Some ds => JS.orDefault (diagonalBonus ds) (12 / 10)
  | None => 12 / 10
  end.

(** The loop of [getAlternateChance] over the segments of the curve. *)
Fixpoint interpolate (heightM : R) (curve : list (R * R)) : R :=
  match curve with
  | [] => 0
  | (h1, c1) :: rest =>
      match rest with
      | [] => c1
      | (h2, c2) :: _ =>
          if JS.leb heightM h2 then
            if JS.eqb h2 h1 then c1
            else
              let t := (heightM - h1) / (h2 - h1) in
              c1 + (c2 - c1) * t
          else interpolate heightM rest
      end
  end.

Definition getAlternateChance (p : PlacementConfig) (heightM : R) : R :=
  match difficultyCurve p with
  | None => 1 / 2
  | Some curve =>
      if (length curve <? 2)%nat then 1 / 2 else interpolate heightM curve
  end.

(** The lane of the next monster. *)
Definition chooseLane (p : PlacementConfig) (prevLane : option Z)
    (lastSpawnHeightM : R) (r : SpawnRolls) : Z :=
  let alternateChance := getAlternateChance p lastSpawnHeightM in
  match prevLane with
  | None => Phaser.Between 0 2 (laneRoll r)
  | Some prev =>
      if JS.ltb (alternateRoll r) alternateChance then
        let otherLanes := filter (fun l => negb (l =? prev)%Z) [0; 1; 2]%Z in
        nth (Z.to_nat (JS.floor (otherRoll r * INR (length otherLanes))))
            otherLanes 0%Z
      else Phaser.Between 0 2 (laneRoll r)
  end.

(** The gap below the next monster. *)
Definition spacingFor (p : PlacementConfig) (baseSpacing : R) (prevLane : option Z)
    (lane : Z) : R :=
  match prevLane with
  | None => baseSpacing
  | Some prev =>
      if (lane =? prev)%Z then baseSpacing * (1 + sameSideBonusOf p)
      else if (Z.abs (lane - prev) =? 2)%Z then baseSpacing * (1 + diagonalBonusOf p)
      else baseSpacing
  end.

(** The horizontal position of a monster in [lane], before the clamp. *)
Definition laneX (st : Settings) (screenWidth : R) (lane : Z) (r : SpawnRolls) : R :=
  let laneWidth := screenWidth / laneCount st in
  let screenCenterX := screenWidth / 2 in
  let avoidCenterRadius := laneWidth * (2 / 10) in
  let laneOffset :=
    Phaser.FloatBetween (- laneWidth * (15 / 100)) (laneWidth * (15 / 100))
                        (offsetRoll r) in
  let x := (IZR lane + 1 / 2) * laneWidth + laneOffset in
  if (lane =? 1)%Z then
    if JS.ltb (Rabs (x - screenCenterX)) avoidCenterRadius then
      let offsetDirection := if JS.ltb (sideRoll r) (1 / 2) then -1 else 1 in
      screenCenterX + offsetDirection * (avoidCenterRadius + laneWidth * (1 / 10))
    else x
  else x.

Section Placement.

Variable st : Settings.
Variable mgr : Manager.
Variable p : PlacementConfig.
Variable now : R.                       (* scene.time.now *)
Variable rolls : nat -> SpawnRolls.     (* the rolls of the k-th monster *)
Variable rangeEndM : R.
Variable baseSpacing : R.
Variable speedMultiplier : R.

(** The placement loop
    [while (spawnedCount < targetCount && lastSpawnHeightM < rangeEndM)];
    [remaining] is [targetCount - spawnedCount]. *)
Fixpoint placeMonsters (remaining : nat) (spawnedCount : nat) (prevLane : option Z)
    (lastSpawnHeightM : R) (nextId : Z) : list Monster :=
  match remaining with
  | O => []
  | S remaining' =>
      if JS.ltb lastSpawnHeightM rangeEndM then
        let r := rolls spawnedCount in
        let lane := chooseLane p prevLane lastSpawnHeightM r in
        let currentSpacing := spacingFor p baseSpacing prevLane lane in
        let heightM := lastSpawnHeightM + currentSpacing in
        if JS.gtb heightM rangeEndM then []
        else
          let x := laneX st (MonsterCollection.screenWidth mgr) lane r in
          let worldY := groundY mgr - heightM * MonsterCollection.pixelsPerMeter mgr in
          let monsterType := MonsterManager.selectMonsterType heightM (typeRoll r) in
          let monster :=
            create st nextId
              (mkMonsterConfig monsterType
                 (JS.Clamp x 30 (MonsterCollection.screenWidth mgr - 30))
                 worldY heightM (Some speedMultiplier))
              (MonsterCollection.screenWidth mgr) now (dirRoll r) (moveRolls r) in
          monster :: placeMonsters remaining' (S spawnedCount) (Some lane) heightM
                       (nextId + 1)
      else []
  end.

End Placement.

(** [spawnApexMonsters(predictedApexHeightPx, _playerLane, countMultiplier)]
    on the collection; [nextId] is the static [Monster.NEXT_ID]. *)
Definition spawnApexMonsters (director : DirectorConfig) (p : PlacementConfig)
    (st : Settings) (mgr : Manager) (now : R) (rolls : nat -> SpawnRolls)
    (nextId : Z) (predictedApexHeightPx countMultiplier : R)
    (monsters : list Monster) : list Monster :=
  match MonsterManager.spawnWindow director (MonsterCollection.pixelsPerMeter mgr)
          predictedApexHeightPx countMultiplier with
  | None => monsters
  | Some w =>
      let apexHeightM := predictedApexHeightPx / MonsterCollection.pixelsPerMeter mgr in
      let rangeStartM := MonsterManager.rangeStartM w in
      let rangeEndM := MonsterManager.rangeEndM w in
      let monsters := filter (keepOld rangeStartM rangeEndM) monsters in
      let baseSpacing := baseSpacingOf p apexHeightM in
      let rangeSpan := rangeEndM - rangeStartM in
      if JS.ltb rangeSpan baseSpacing then monsters
      else
        monsters ++
        placeMonsters st mgr p now rolls rangeEndM baseSpacing
          (MonsterManager.speedMultiplier w)
          (Z.to_nat (MonsterManager.targetCount w)) 0 None rangeStartM nextId
  end.

(** A curve whose control heights do not decrease. *)
Fixpoint ascending (curve : list (R * R)) : Prop :=
  match curve with
  | [] => True
  | (h1, _) :: rest =>
      match rest with
      | [] => True
      | (h2, _) :: _ => h1 <= h2 /\ ascending rest
      end
  end.

(** Heights that climb from [last] in steps of at least [gap]. *)
Fixpoint climbs (gap last : R) (heights : list R) : Prop :=
  match heights with
  | [] => True
  | h :: rest => last + gap <= h /\ climbs gap h rest
  end.

End Spawner.

(** A placement with every entry left to its fallback, and rolls that are
    all one half. *)
Definition samplePlacement : Spawner.PlacementConfig :=
  Spawner.mkPlacementConfig None None None.

Definition sampleSpawnRolls (k : nat) : Spawner.SpawnRolls :=
  Spawner.mkSpawnRolls (1 / 2) (1 / 2) (1 / 2) (1 / 2) (1 / 2) (1 / 2) (1 / 2)
    sampleRolls.

Definition sampleManager : MonsterCollection.Manager :=
  MonsterCollection.mkManager 540 0 50.

(** An alternation curve that falls from 90% at the ground to 30% at 1000 m. *)
Definition sampleCurve : list (R * R) := [(0, 9 / 10); (500, 6 / 10); (1000, 3 / 10)].

(** ** GameScene: the fixed-timestep loop

    The part of [GameScene.update] that turns the time of a frame into
    physics steps.  The body of the loop (slime, ground, monsters, pickups
    and the body collision, all at [simDt]) is the parameter [physicsStep]. *)

Module GameScene.

Definition FIXED_DT : R := 1 / 120.
Definition MAX_FRAME_DT : R := 25 / 100.
Definition MAX_STEPS_PER_FRAME : nat := 8.

Section Loop.

Variable World : Type.
Variable physicsStep : R -> World -> World.

(** [while (accumulator >= FIXED_DT && steps < MAX_STEPS_PER_FRAME)];
    [remaining] is [MAX_STEPS_PER_FRAME - steps]. *)
Fixpoint stepLoop (remaining : nat) (timeScale accumulator : R) (steps : nat)
    (w : World) : R * nat * World :=
  match remaining with
  | O => (accumulator, steps, w)
  | S remaining' =>
      if JS.geb accumulator FIXED_DT then
        let simDt := FIXED_DT * timeScale in
        let w := physicsStep simDt w in
        stepLoop remaining' timeScale (accumulator - FIXED_DT) (S steps) w
      else (accumulator, steps, w)
  end.

(** One frame: [delta] in milliseconds, [timeScale] as read from the
    bullet-time manager; the result is the accumulator, the number of steps
    run and the world. *)
Definition fixedUpdate (delta timeScale accumulator : R) (w : World)
    : R * nat * World :=
  let deltaSeconds := delta / 1000 in
  let clampedDelta := Rmin deltaSeconds MAX_FRAME_DT in
  let accumulator := accumulator + clampedDelta in
  let '(accumulator, steps, w) :=
    stepLoop MAX_STEPS_PER_FRAME timeScale accumulator 0 w in
  let accumulator :=
    if (MAX_STEPS_PER_FRAME <=? steps)%nat then 0 else accumulator in
  (accumulator, steps, w).

End Loop.

End GameScene.

(** The debuff timers in their ranges: the poisons between 0 and their cap
    of 5 s, the tick timer within one second, the slow hint not negative. *)
Definition timersInRange (d : Debuffs.SlimeDebuffs) : Prop :=
  0 <= Debuffs.poison1Duration d <= 5 /\
  0 <= Debuffs.poison2Duration d <= 5 /\
  0 <= Debuffs.poisonTickTimer d < 1 /\
  0 <= Debuffs.slowImpulseTimer d.

(** A slime poisoned by both kinds of monster, half a second into a tick. *)
Definition poisonedSlime : Debuffs.SlimeDebuffs :=
  Debuffs.mkDebuffs 2 3 (1 / 2) 0 0 0 0 [] 0.
(** * Properties *)

(** ** Facts about the numeric helpers *)

Lemma leb_true a b : JS.leb a b = true <-> a <= b.
Proof. unfold JS.leb; destruct (Rle_dec a b); split; intros; try easy; lra. Qed.

Lemma leb_false a b : JS.leb a b = false <-> b < a.
Proof. unfold JS.leb; destruct (Rle_dec a b); split; intros; try easy; lra. Qed.

Lemma ltb_true a b : JS.ltb a b = true <-> a < b.
Proof. unfold JS.ltb; destruct (Rlt_dec a b); split; intros; try easy; lra. Qed.

Lemma ltb_false a b : JS.ltb a b = false <-> b <= a.
Proof. unfold JS.ltb; destruct (Rlt_dec a b); split; intros; try easy; lra. Qed.

Lemma Clamp_bounds v lo hi : lo <= hi -> lo <= JS.Clamp v lo hi <= hi.
Proof.
  intros H; unfold JS.Clamp, Rmin.
  repeat match goal with |- context [Rle_dec ?a ?b] => destruct (Rle_dec a b) end;
  unfold Rmax;
  repeat match goal with |- context [Rle_dec ?a ?b] => destruct (Rle_dec a b) end; lra.
Qed.

Lemma Clamp_mono v w lo hi : v <= w -> JS.Clamp v lo hi <= JS.Clamp w lo hi.
Proof.
  intros H; unfold JS.Clamp, Rmin.
  repeat match goal with |- context [Rle_dec ?a ?b] => destruct (Rle_dec a b) end;
  unfold Rmax;
  repeat match goal with |- context [Rle_dec ?a ?b] => destruct (Rle_dec a b) end; lra.
Qed.

Lemma ln2_pos : 0 < ln 2.
Proof. rewrite <- ln_1; apply ln_increasing; lra. Qed.

Lemma ln10_pos : 0 < ln 10.
Proof. rewrite <- ln_1; apply ln_increasing; lra. Qed.

Lemma round_mono x y : x <= y -> (JS.round x <= JS.round y)%Z.
Proof. intros H; apply Zfloor_le; lra. Qed.

Lemma round_IZR z : JS.round (IZR z) = z.
Proof. unfold JS.round; apply Zfloor_eq; lra. Qed.


Lemma gtb_true a b : JS.gtb a b = true <-> b < a.
Proof. unfold JS.gtb; apply ltb_true. Qed.

Lemma gtb_false a b : JS.gtb a b = false <-> a <= b.
Proof. unfold JS.gtb; apply ltb_false. Qed.

Lemma geb_true a b : JS.geb a b = true <-> b <= a.
Proof. unfold JS.geb; apply leb_true. Qed.

Lemma geb_false a b : JS.geb a b = false <-> a < b.
Proof. unfold JS.geb; apply leb_false. Qed.



Lemma exp_neg_le_1 (x : R) : 0 <= x -> exp (- x) <= 1.
Proof.
  intros H. destruct (Req_dec x 0) as [E | E].
  - rewrite E, Ropp_0, exp_0. lra.
  - left. rewrite <- exp_0. apply exp_increasing. lra.
Qed.

Lemma exp_neg_le_inv (x : R) : 0 <= x -> exp (- x) <= / (1 + x).
Proof.
  intros H. rewrite exp_Ropp. apply Rinv_le_contravar; [lra|]. apply exp_ineq1_le.
Qed.

Lemma Clamp_inside (v lo hi : R) : lo <= v <= hi -> JS.Clamp v lo hi = v.
Proof.
  intros H. unfold JS.Clamp. rewrite Rmin_right, Rmax_right by lra. reflexivity.
Qed.

(** Evaluation of the comparisons of a concrete run: each test is replaced
    by the truth value that linear arithmetic establishes for it. *)
Ltac js_cmp :=
  repeat match goal with
  | |- context [JS.leb ?a ?b] =>
      first [ rewrite (proj2 (leb_true a b)) by lra
            | rewrite (proj2 (leb_false a b)) by lra ]
  | |- context [JS.ltb ?a ?b] =>
      first [ rewrite (proj2 (ltb_true a b)) by lra
            | rewrite (proj2 (ltb_false a b)) by lra ]
  | |- context [JS.gtb ?a ?b] =>
      first [ rewrite (proj2 (gtb_true a b)) by lra
            | rewrite (proj2 (gtb_false a b)) by lra ]
  | |- context [JS.geb ?a ?b] =>
      first [ rewrite (proj2 (geb_true a b)) by lra
            | rewrite (proj2 (geb_false a b)) by lra ]
  end.


(** Case analysis on the tests of a function body, innermost first. *)
Ltac split_ifs :=
  repeat match goal with
  | |- context [if ?b then _ else _] =>
      match b with
      | context [if _ then _ else _] => fail 1
      | _ => destruct b eqn:?
      end
  end.

(** ** SlimeHealthManager *)

(** A PERFECT landing reported without hold lockout returns at the second
    rule of [onLanding] (or earlier): the manager is left as it was. *)
Lemma onLanding_perfect_unlocked (hm : Health.SlimeHealthManager) (h : R) :
  Health.onLanding hm h PERFECT false = hm.
Proof.
  unfold Health.onLanding.
  destruct (Health.isDead hm || Health.invincible hm); reflexivity.
Qed.

(** ** ChargingState: the rating *)

Section Rating.

Variable cfg : GameConfig.

Lemma launchRating_failed (s : Slime) :
  ChargingState.launchRating cfg s = FAILED <->
  holdLockout s = true \/ chargeEfficiency s <= ChargingState.deadEff cfg.
Proof.
  unfold ChargingState.launchRating.
  destruct (holdLockout s); simpl.
  - split; auto.
  - destruct (JS.leb (chargeEfficiency s) (ChargingState.deadEff cfg)) eqn:E.
    + apply leb_true in E. split; auto.
    + apply leb_false in E.
      split.
      * intros H.
        destruct (_ || _) in H; [discriminate|].
        destruct (_ && _) in H; discriminate.
      * intros [H | H]; [discriminate | lra].
Qed.

Lemma launchRating_perfect_unlocked (s : Slime) :
  ChargingState.launchRating cfg s = PERFECT -> holdLockout s = false.
Proof.
  intros H. destruct (holdLockout s) eqn:E; [|reflexivity].
  assert (F : ChargingState.launchRating cfg s = FAILED)
    by (apply launchRating_failed; auto).
  congruence.
Qed.

End Rating.

(** ** ChargingState: a hold, tick by tick *)

Lemma approach_zero (c dt tau : R) :
  0 < tau -> approach c 0 dt tau = c * exp (- dt / tau).
Proof.
  intros H. unfold approach. rewrite (proj2 (leb_false _ _) H). lra.
Qed.

(** A relaxation over 1/120 s with a time constant of at least 1/30 s keeps
    three quarters of the value. *)
Lemma approach_zero_slow (c tau : R) :
  0 <= c -> 1 / 30 <= tau ->
  3 / 4 * c <= approach c 0 (1 / 120) tau <= c.
Proof.
  intros Hc Ht. rewrite approach_zero by lra.
  assert (D : 0 <= 1 / 120 / tau <= 1 / 4).
  { split.
    - apply Rmult_le_pos; [lra|]. left. apply Rinv_0_lt_compat. lra.
    - apply (Rmult_le_reg_r tau); [lra|]. field_simplify; lra. }
  pose proof (exp_ineq1_le (- (1 / 120) / tau)) as E1.
  assert (E2 : exp (- (1 / 120) / tau) <= 1).
  { replace (- (1 / 120) / tau) with (- (1 / 120 / tau)) by (field; lra).
    apply exp_neg_le_1. lra. }
  replace (- (1 / 120) / tau) with (- (1 / 120 / tau)) in E1 by (field; lra).
  replace (- (1 / 120) / tau) with (- (1 / 120 / tau)) in E2 by (field; lra).
  replace (- (1 / 120) / tau) with (- (1 / 120 / tau)) by (field; lra).
  split; nra.
Qed.

(** A decay over 1/120 s with a time constant of at most [ft]. *)
Lemma approach_zero_fast (e tau ft : R) :
  0 <= e -> 0 < tau <= ft ->
  0 <= approach e 0 (1 / 120) tau <= e * / (1 + / (120 * ft)).
Proof.
  intros He Ht. rewrite approach_zero by lra.
  pose proof (exp_pos (- (1 / 120) / tau)) as P.
  assert (D : / (120 * ft) <= 1 / 120 / tau).
  { unfold Rdiv. rewrite Rinv_mult. rewrite Rmult_1_l.
    apply Rmult_le_compat_l; [lra|]. apply Rinv_le_contravar; lra. }
  assert (D0 : 0 < / (120 * ft)) by (apply Rinv_0_lt_compat; lra).
  assert (E : exp (- (1 / 120) / tau) <= / (1 + / (120 * ft))).
  { replace (- (1 / 120) / tau) with (- (1 / 120 / tau)) by (field; lra).
    apply Rle_trans with (/ (1 + 1 / 120 / tau)).
    - apply exp_neg_le_inv. lra.
    - apply Rinv_le_contravar; lra. }
  split; [apply Rmult_le_pos; lra|].
  apply Rmult_le_compat_l; assumption.
Qed.

Section Hold.

Variable ft : R.
Variable airborneEnter : Slime -> Slime.
Variable groundYi : R.

Lemma sweetGraceEff_hold (s : Slime) :
  landingDifficulty s = 1 -> ChargingState.sweetGraceEff (holdConfig ft) s = 8 / 100.
Proof.
  intros Hd. unfold ChargingState.sweetGraceEff. cbn. rewrite Hd.
  rewrite Clamp_inside; lra.
Qed.

Lemma failHoldEff_hold (s : Slime) :
  landingDifficulty s = 1 -> ChargingState.failHoldEff (holdConfig ft) s = 12 / 100.
Proof.
  intros Hd. unfold ChargingState.failHoldEff. cbn. rewrite Hd.
  rewrite Clamp_inside; lra.
Qed.

Lemma hold_tick_sweet (s : Slime) (dt : R) :
  reachedPeak s = true -> landingDifficulty s = 1 ->
  postPeakHoldTime s + dt <= 8 / 100 ->
  ChargingState.update (holdConfig ft) airborneEnter groundYi s dt true false
  = set_chargeEfficiency 1
      (set_currentCompression (targetCompression s)
         (set_postPeakHoldTime (postPeakHoldTime s + dt)
            (set_contactHasInput true s))).
Proof.
  intros Hp Hd Ht. unfold ChargingState.update.
  cbn [reachedPeak set_contactHasInput]. rewrite Hp. cbn [negb andb].
  cbn [contactHasInput set_contactHasInput negb andb].
  rewrite sweetGraceEff_hold by exact Hd.
  cbn [postPeakHoldTime set_postPeakHoldTime set_contactHasInput].
  rewrite (proj2 (leb_true _ _) Ht). reflexivity.
Qed.

Lemma accel_hold_bounds (over : R) :
  0 <= over ->
  1 <= 1 + 8 * (1 - exp (- over / Rmax (/ 1000000) (25 / 100))) <= 9.
Proof.
  intros H. rewrite Rmax_right by lra.
  pose proof (exp_pos (- over / (25 / 100))) as P.
  assert (Q : exp (- over / (25 / 100)) <= 1).
  { replace (- over / (25 / 100)) with (- (over / (25 / 100))) by lra.
    apply exp_neg_le_1. apply Rmult_le_pos; lra. }
  lra.
Qed.

(** A tick of the hold past the sweet window. *)
Lemma hold_tick_over (s : Slime) :
  reachedPeak s = true -> landingDifficulty s = 1 ->
  8 / 100 < postPeakHoldTime s + 1 / 120 ->
  2 / 3 < currentCompression s ->
  0 <= chargeEfficiency s ->
  9 / 10000 <= ft ->
  let s' := ChargingState.update (holdConfig ft) airborneEnter groundYi s (1 / 120)
              true false in
  state s' = state s /\ reachedPeak s' = true /\ landingDifficulty s' = 1 /\
  contactHasInput s' = true /\ targetCompression s' = targetCompression s /\
  postPeakHoldTime s' = postPeakHoldTime s + 1 / 120 /\
  holdLockout s'
    = (holdLockout s || JS.geb (postPeakHoldTime s + 1 / 120 - 8 / 100) (12 / 100))%bool /\
  perfectStreak s' = perfectStreak s /\ lastLaunchRating s' = lastLaunchRating s /\
  healthManager s' = healthManager s /\
  3 / 4 * currentCompression s <= currentCompression s' <= currentCompression s /\
  0 <= chargeEfficiency s' <= chargeEfficiency s * / (1 + / (120 * ft)).
Proof.
  intros Hp Hd Ht Hc He Hf. unfold ChargingState.update.
  cbn [reachedPeak set_contactHasInput]. rewrite Hp. cbn [negb andb].
  cbn [contactHasInput set_contactHasInput negb andb].
  rewrite sweetGraceEff_hold by exact Hd.
  cbn [postPeakHoldTime set_postPeakHoldTime set_contactHasInput].
  rewrite (proj2 (leb_false _ _) Ht).
  rewrite failHoldEff_hold by exact Hd.
  unfold ChargingState.accelKeff, ChargingState.settleEpsOf.
  cbn [holdConfig ground overHoldAccelK0 overHoldAccelK overHoldAccelKGain orDefault2
       JS.orDefault overHoldAccelTime relaxTime fatigueTime settleEps].
  cbn [landingDifficulty set_postPeakHoldTime set_contactHasInput]. rewrite Hd.
  set (over := postPeakHoldTime s + 1 / 120 - 8 / 100).
  assert (Ho : 0 <= over) by (unfold over; lra).
  pose proof (accel_hold_bounds over Ho) as HA.
  replace (8 + 6 * (1 - 1)) with 8 by lra.
  set (accel := 1 + 8 * (1 - exp (- over / Rmax (/ 1000000) (25 / 100)))) in *.
  assert (T1 : 1 / 30 <= Rmax (/ 10000) (3 / 10 / accel)).
  { apply Rle_trans with (3 / 10 / accel); [|apply Rmax_r].
    apply (Rmult_le_reg_r accel); [lra|]. field_simplify; lra. }
  assert (T2 : 0 < Rmax (/ 10000) (ft / accel) <= ft).
  { split.
    - apply Rlt_le_trans with (/ 10000); [lra | apply Rmax_l].
    - apply Rmax_lub; [lra|].
      apply (Rmult_le_reg_r accel); [lra|]. field_simplify; nra. }
  set (tr := Rmax (/ 10000) (3 / 10 / accel)) in *.
  set (tf := Rmax (/ 10000) (ft / accel)) in *.
  pose proof (approach_zero_slow (currentCompression s) tr ltac:(lra) T1) as C.
  pose proof (approach_zero_fast (chargeEfficiency s) tf ft He T2) as E.
  destruct (JS.geb over (12 / 100));
    cbn [currentCompression chargeEfficiency set_holdLockout set_postPeakHoldTime
         set_contactHasInput set_currentCompression set_chargeEfficiency set_y] in *;
    (rewrite (proj2 (leb_false _ _)) by lra);
    cbn; rewrite ?orb_true_r, ?orb_false_r; repeat split;
    try reflexivity; try exact Hp; try exact Hd; lra.
Qed.


(** The hold of the sample slime, tick by tick: nine ticks inside the sweet
    window, then the relaxation; the lockout is set on tick 24. *)
Lemma pow_le_1 (x : R) (n : nat) : 0 <= x <= 1 -> 0 <= x ^ n <= 1.
Proof.
  intros H. induction n as [| n IH]; simpl; [lra|]. nra.
Qed.

Lemma pow_antitone (x : R) (m n : nat) :
  0 <= x <= 1 -> (m <= n)%nat -> x ^ n <= x ^ m.
Proof.
  intros H L. induction L as [| n L IH]; [lra|].
  simpl. pose proof (pow_le_1 x n H). nra.
Qed.

Lemma hold_run (k : Z) (n : nat) :
  9 / 10000 <= ft -> (n <= 25)%nat ->
  let s := holdTicks (holdConfig ft) airborneEnter groundYi (1 / 120) n (sampleSlime k) in
  state s = GROUND_CHARGING /\ reachedPeak s = true /\ landingDifficulty s = 1 /\
  contactHasInput s = true /\ targetCompression s = 60 /\
  postPeakHoldTime s = INR n / 120 /\
  (holdLockout s = true <-> (24 <= n)%nat) /\
  perfectStreak s = k /\ lastLaunchRating s = None /\
  healthManager s = Health.initial 50 /\
  60 * (3 / 4) ^ (n - 9) <= currentCompression s <= 60 /\
  0 <= chargeEfficiency s <= (/ (1 + / (120 * ft))) ^ (n - 9).
Proof.
  intros Hf. induction n as [| n IH]; intros Hn.
  - cbn. repeat split; try reflexivity; try lra; try lia; try discriminate.
  - specialize (IH ltac:(lia)). cbv zeta in IH.
    cbn [holdTicks].
    set (s0 := holdTicks (holdConfig ft) airborneEnter groundYi (1 / 120) n (sampleSlime k)) in *.
    destruct IH as (I1 & I2 & I3 & I4 & I5 & I6 & I7 & I8 & I9 & I10 & I11 & I12).
    cbv zeta.
    assert (Hq : 0 < / (1 + / (120 * ft)) <= 1).
    { assert (0 < / (120 * ft)) by (apply Rinv_0_lt_compat; lra).
      split; [apply Rinv_0_lt_compat; lra|].
      apply Rle_trans with (/ 1); [apply Rinv_le_contravar; lra | rewrite Rinv_1; lra]. }
    destruct (Nat.lt_ge_cases n 9) as [Hs | Ho].
    + (* inside the sweet window *)
      assert (Hr : INR n <= 8).
      { replace 8 with (INR 8) by (simpl; lra). apply le_INR. lia. }
      rewrite hold_tick_sweet by (try assumption; rewrite I6; lra).
      cbn [state reachedPeak landingDifficulty contactHasInput targetCompression
           postPeakHoldTime holdLockout perfectStreak lastLaunchRating healthManager
           currentCompression chargeEfficiency set_chargeEfficiency
           set_currentCompression set_postPeakHoldTime set_contactHasInput].
      rewrite S_INR.
      replace (S n - 9)%nat with 0%nat by lia.
      replace (n - 9)%nat with 0%nat in * by lia. simpl in *.
      repeat split; try assumption; try lra; try (intros; lia).
      intros H. apply I7 in H. lia.
    + assert (Hr : 9 <= INR n <= 24).
      { split.
        - replace 9 with (INR 9) by (simpl; lra). apply le_INR. lia.
        - replace 24 with (INR 24) by (simpl; lra). apply le_INR. lia. }
      assert (Hc : 2 / 3 < currentCompression s0).
      { pose proof (pow_antitone (3 / 4) (n - 9) 15 ltac:(lra) ltac:(lia)) as P.
        simpl in P. lra. }
      destruct (hold_tick_over s0 I2 I3 ltac:(rewrite I6; lra) Hc (proj1 I12) Hf)
        as (J1 & J2 & J3 & J4 & J5 & J6 & J7 & J8 & J9 & J10 & J11 & J12).
      replace (S n - 9)%nat with (S (n - 9)) by lia.
      rewrite S_INR. cbn [pow].
      assert (P1 : 0 <= (3 / 4) ^ (n - 9)) by (apply pow_le; lra).
      assert (P2 : 0 <= (/ (1 + / (120 * ft))) ^ (n - 9)) by (apply pow_le; lra).
      split; [congruence|]. split; [exact J2|]. split; [exact J3|].
      split; [exact J4|]. split; [congruence|]. split; [rewrite J6, I6; lra|].
      split.
      { rewrite J7, I6. split.
        - intros H. apply orb_true_iff in H. destruct H as [H | H].
          + apply I7 in H. lia.
          + apply geb_true in H.
            assert (L : 24 <= INR (S n)) by (rewrite S_INR; lra).
            replace 24 with (INR 24) in L by (simpl; lra).
            apply INR_le in L. exact L.
        - intros H. apply orb_true_iff. right. apply geb_true.
          assert (L : 24 <= INR n + 1).
          { rewrite <- S_INR. replace 24 with (INR 24) by (simpl; lra).
            apply le_INR. exact H. }
          lra. }
      split; [congruence|]. split; [congruence|]. split; [congruence|].
      split; [lra|].
      split; [lra|].
      apply Rle_trans with (chargeEfficiency s0 * / (1 + / (120 * ft))); [lra|].
      rewrite Rmult_comm. apply Rmult_le_compat_l; lra.
Qed.

End Hold.

(** ** ChargingState: the release *)

Section Release.

Variable cfg : GameConfig.
Variable airborneEnter : Slime -> Slime.
Variable groundYi : R.





End Release.





(** ** ChargingState: the streak counter *)

Section Streak.

Variable cfg : GameConfig.
Variable airborneEnter : Slime -> Slime.

(** The streak handed on by [launchActiveControlled]: one more on PERFECT,
    zero otherwise. *)
Lemma updateStreak_spec (s : Slime) :
  perfectStreak (ChargingState.updateStreak (ChargingState.launchRating cfg s) s) =
  match ChargingState.launchRating cfg s with
  | PERFECT => (perfectStreak s + 1)%Z
  | _ => 0%Z
  end.
Proof.
  unfold ChargingState.updateStreak.
  destruct (ChargingState.launchRating cfg s); reflexivity.
Qed.

(** The 1.5 multiplier is applied exactly from a streak of three on. *)
Lemma streakMultiplier_spec (s : Slime) :
  ChargingState.streakMultiplier s =
  if (3 <=? perfectStreak s)%Z then 15 / 10 else 1.
Proof.
  unfold ChargingState.streakMultiplier, ChargingState.streakBonus.
  destruct (3 <=? perfectStreak s)%Z; js_cmp; reflexivity.
Qed.

(** The two settle branches of [tryLaunchActiveOrSettle] that carry the
    reset do clear the streak. *)
Lemma settle_resets_streak (groundYi : R) (s : Slime) :
  currentCompression s <= ChargingState.settleEpsOf cfg \/ holdLockout s = true ->
  perfectStreak (ChargingState.tryLaunchActiveOrSettle cfg airborneEnter groundYi s) = 0%Z.
Proof.
  intros H. unfold ChargingState.tryLaunchActiveOrSettle.
  destruct (JS.leb (currentCompression s) _) eqn:E; [reflexivity|].
  apply leb_false in E.
  destruct (holdLockout s); [reflexivity|].
  destruct H as [H | H]; [lra | discriminate].
Qed.

(** Past the peak, a tick without a release that ends the cycle in the idle
    state (absorb, fatigue exit, slow relax, missed-bounce death) leaves the
    streak at 0. *)
Lemma forced_settle_resets_streak (groundYi : R) (s : Slime) (dt : R) (isSpaceDown : bool) :
  reachedPeak s = true -> state s = GROUND_CHARGING ->
  let s' := ChargingState.update cfg airborneEnter groundYi s dt isSpaceDown false in
  state s' = GROUNDED_IDLE -> perfectStreak s' = 0%Z.
Proof.
  intros Hp Hs. unfold ChargingState.update.
  destruct isSpaceDown; cbn [negb andb].
  - cbn [reachedPeak set_contactHasInput contactHasInput]. rewrite Hp. cbn [negb andb].
    match goal with |- context [JS.leb ?a ?b] => destruct (JS.leb a b) end.
    + simpl. intros. congruence.
    + match goal with |- context [JS.geb ?a ?b] => destruct (JS.geb a b) end;
      match goal with |- context [JS.leb ?a ?b] => destruct (JS.leb a b) end;
      unfold ChargingState.checkMissedBounceDeath; simpl;
      try (intros; congruence);
      try match goal with |- context [JS.gtb ?a ?b] => destruct (JS.gtb a b) end;
      simpl; try (intros; congruence); try reflexivity.
      all: destruct (holdLockout s); simpl; try (intros; congruence); try reflexivity.
      all: try match goal with |- context [JS.gtb ?a ?b] => destruct (JS.gtb a b) end;
      simpl; try (intros; congruence); try reflexivity.
  - rewrite Hp. cbn [negb andb].
    destruct (contactHasInput s); cbn [negb andb].
    + match goal with |- context [JS.leb ?a ?b] => destruct (JS.leb a b) end;
      simpl; intros; congruence.
    + match goal with |- context [JS.leb ?a ?b] => destruct (JS.leb a b) end;
      [|simpl; intros; congruence].
      match goal with |- context [JS.gtb ?a ?b] => destruct (JS.gtb a b) end;
      simpl; intros; reflexivity.
Qed.

End Streak.

(** C2. A release with the charge efficiency at or below the dead threshold
    (compression above [settleEps], no lockout) ends the cycle in the idle
    state, a failure with no rating, and leaves [perfectStreak] as it was,
    while the two sibling failure branches of [tryLaunchActiveOrSettle]
    (lockout, compression settled) reset it to 0. *)
Theorem dead_efficiency_settle_keeps_streak
    (cfg : GameConfig) (airborneEnter : Slime -> Slime) (groundYi dt : R) (s : Slime) :
  ChargingState.settleEpsOf cfg < currentCompression s ->
  holdLockout s = false ->
  chargeEfficiency s <= ChargingState.deadEff cfg ->
  let s' := ChargingState.tryLaunchActiveOrSettle cfg airborneEnter groundYi s in
  state s' = GROUNDED_IDLE /\
  lastLaunchRating s' = lastLaunchRating s /\
  perfectStreak s' = perfectStreak s /\
  (reachedPeak s = true -> contactHasInput s = true ->
   ChargingState.update cfg airborneEnter groundYi s dt false true = s') /\
  perfectStreak (ChargingState.tryLaunchActiveOrSettle cfg airborneEnter groundYi
                   (set_holdLockout true s)) = 0%Z /\
  perfectStreak (ChargingState.tryLaunchActiveOrSettle cfg airborneEnter groundYi
                   (set_currentCompression (ChargingState.settleEpsOf cfg) s)) = 0%Z.
Proof.
  intros H1 H2 H3 s'.
  assert (E : s' = ChargingState.transitionTo airborneEnter GROUNDED_IDLE groundYi s).
  { unfold s', ChargingState.tryLaunchActiveOrSettle.
    rewrite (proj2 (leb_false _ _) H1), H2, (proj2 (leb_true _ _) H3). reflexivity. }
  split; [rewrite E; reflexivity|].
  split; [rewrite E; reflexivity|].
  split; [rewrite E; reflexivity|].
  split.
  - intros Hp Hc. unfold ChargingState.update.
    rewrite Hp. cbn [negb andb]. rewrite Hc. reflexivity.
  - split.
    + unfold ChargingState.tryLaunchActiveOrSettle.
      cbn [currentCompression holdLockout set_holdLockout].
      rewrite (proj2 (leb_false _ _) H1). reflexivity.
    + unfold ChargingState.tryLaunchActiveOrSettle.
      cbn [currentCompression set_currentCompression].
      rewrite (proj2 (leb_true _ _) (Rle_refl _)). reflexivity.
Qed.

Lemma wornOutSlime_facts :
  reachedPeak wornOutSlime = true /\ contactHasInput wornOutSlime = true /\
  holdLockout wornOutSlime = false /\ perfectStreak wornOutSlime = 2%Z /\
  1 / 2 < currentCompression wornOutSlime /\
  chargeEfficiency wornOutSlime <= 5 / 100.
Proof.
  assert (P1 : 1 / 2 < 60 * (3 / 4) ^ (18 - 9)) by (simpl; lra).
  assert (P2 : (/ (1 + / (120 * (1 / 50)))) ^ (18 - 9) <= 5 / 100).
  { replace (/ (1 + / (120 * (1 / 50)))) with (12 / 17) by (field; lra).
    simpl. lra. }
  pose proof (hold_run (1 / 50) (fun s => s) 0 2 18 ltac:(lra) ltac:(lia)) as H.
  unfold wornOutSlime.
  remember (holdTicks (holdConfig (1 / 50)) (fun s => s) 0 (1 / 120) 18 (sampleSlime 2))
    as w eqn:Ew.
  clear Ew. cbv zeta in H.
  destruct H as (I1 & I2 & I3 & I4 & I5 & I6 & I7 & I8 & I9 & I10 & I11 & I12).
  split; [exact I2|]. split; [exact I4|].
  split.
  { destruct (holdLockout w); [|reflexivity].
    assert (24 <= 18)%nat by (apply I7; reflexivity). lia. }
  split; [exact I8|]. split; lra.
Qed.

(** With a fatigue time of 1/50 s the sample slime, on a streak of two and
    held for 18 ticks of 1/120 s, is worn out before the lockout: the
    release goes idle and the streak is still 2. *)
Lemma worn_out_release_keeps_streak :
  state (releaseTick (holdConfig (1 / 50)) (fun s => s) 0 (1 / 120) wornOutSlime)
    = GROUNDED_IDLE /\
  perfectStreak (releaseTick (holdConfig (1 / 50)) (fun s => s) 0 (1 / 120) wornOutSlime)
    = 2%Z.
Proof.
  destruct wornOutSlime_facts as (F1 & F2 & F3 & F4 & F5 & F6).
  assert (G1 : ChargingState.settleEpsOf (holdConfig (1 / 50))
               < currentCompression wornOutSlime).
  { change (ChargingState.settleEpsOf (holdConfig (1 / 50))) with (1 / 2). exact F5. }
  assert (G3 : chargeEfficiency wornOutSlime
               <= ChargingState.deadEff (holdConfig (1 / 50))).
  { change (ChargingState.deadEff (holdConfig (1 / 50))) with (5 / 100). exact F6. }
  destruct (dead_efficiency_settle_keeps_streak
              (holdConfig (1 / 50)) (fun s => s) 0 (1 / 120) wornOutSlime G1 F3 G3)
    as (D1 & _ & D3 & D4 & _).
  unfold releaseTick. rewrite (D4 F1 F2).
  split; [exact D1 | rewrite D3; exact F4].
Defined.

(** C4. A landing reported with the rating PERFECT and no hold lockout
    leaves the health manager exactly as it was: no damage, no death.  Every
    PERFECT landing that the charging state reports is of this kind, since
    the rating PERFECT is only given without hold lockout. *)
Theorem perfect_landing_leaves_health_unchanged (cfg : GameConfig) (s : Slime) :
  (forall (hm : Health.SlimeHealthManager) (heightPixels : R),
     Health.onLanding hm heightPixels PERFECT false = hm) /\
  (ChargingState.launchRating cfg s = PERFECT ->
   holdLockout s = false /\
   healthManager
     (ChargingState.reportLanding (ChargingState.launchRating cfg s)
        (ChargingState.updateStreak (ChargingState.launchRating cfg s) s))
   = healthManager s).
Proof.
  split; [apply onLanding_perfect_unlocked|].
  intros H. pose proof (launchRating_perfect_unlocked cfg s H) as L.
  split; [exact L|].
  rewrite H. unfold ChargingState.reportLanding, ChargingState.updateStreak; simpl.
  rewrite L. apply onLanding_perfect_unlocked.
Qed.

Lemma launchRating_sample (k : Z) :
  ChargingState.launchRating sampleConfig (sampleSlime k) = PERFECT.
Proof.
  unfold ChargingState.launchRating, ChargingState.deadEff,
    ChargingState.sweetGraceEff; simpl.
  js_cmp. simpl.
  unfold JS.Clamp, Rmin, Rmax.
  destruct (Rle_dec _ _); destruct (Rle_dec _ _); js_cmp; reflexivity.
Qed.

(** A PERFECT release from 500 px on a streak of two. *)
Lemma perfect_landing_witness :
  holdLockout (sampleSlime 2) = false /\
  healthManager
    (ChargingState.reportLanding (ChargingState.launchRating sampleConfig (sampleSlime 2))
       (ChargingState.updateStreak (ChargingState.launchRating sampleConfig (sampleSlime 2))
          (sampleSlime 2)))
  = healthManager (sampleSlime 2).
Proof.
  apply (proj2 (perfect_landing_leaves_health_unchanged sampleConfig (sampleSlime 2))).
  apply launchRating_sample.
Defined.

(** ** ChargingState: the launch physics *)

Section Launch.

Variable cfg : GameConfig.

Lemma distFactor_bounds (s : Slime) : 0 <= ChargingState.distFactor s <= 1.
Proof. unfold ChargingState.distFactor; apply Clamp_bounds; lra. Qed.


Lemma growthRate_spec (s : Slime) :
  ChargingState.growthRate s =
  15 / 100 + 5 / 100 * JS.log10 (1 + lastApexHeight s / 100).
Proof. reflexivity. Qed.

Lemma growthRate_pos (s : Slime) :
  0 <= lastApexHeight s -> 15 / 100 <= ChargingState.growthRate s.
Proof.
  intros H. rewrite growthRate_spec. unfold JS.log10.
  assert (L : 0 <= ln (1 + lastApexHeight s / 100)).
  { destruct (Req_dec (lastApexHeight s) 0) as [E | E].
    - rewrite E. replace (1 + 0 / 100) with 1 by lra. rewrite ln_1. lra.
    - left. rewrite <- ln_1. apply ln_increasing; lra. }
  pose proof ln10_pos.
  assert (0 <= ln (1 + lastApexHeight s / 100) / ln 10).
  { apply Rmult_le_pos; [exact L|]. left. apply Rinv_0_lt_compat. assumption. }
  lra.
Qed.

Lemma streakMultiplier_pos (s : Slime) : 1 <= ChargingState.streakMultiplier s.
Proof.
  rewrite streakMultiplier_spec. destruct (3 <=? perfectStreak s)%Z; lra.
Qed.



End Launch.

(** A PERFECT release of a living slime launches: the velocity handed to the
    airborne state is the launch velocity, upwards. *)
Lemma perfect_launch_assigns_velocity (cfg : GameConfig) (airborneEnter : Slime -> Slime)
    (groundYi : R) (s : Slime) :
  ChargingState.launchRating cfg s = PERFECT ->
  Health.isDead (healthManager s) = false ->
  (forall t, vy (airborneEnter t) = vy t) ->
  vy (ChargingState.launchActiveControlled cfg airborneEnter groundYi s)
  = - ChargingState.vLaunch cfg PERFECT (ChargingState.updateStreak PERFECT s).
Proof.
  intros Hr Hd Ha. unfold ChargingState.launchActiveControlled.
  rewrite Hr. cbv zeta.
  pose proof (launchRating_perfect_unlocked cfg s Hr) as L.
  assert (E : healthManager
                (ChargingState.reportLanding PERFECT (ChargingState.updateStreak PERFECT s))
              = healthManager s).
  { unfold ChargingState.reportLanding, ChargingState.updateStreak; simpl.
    rewrite L. apply onLanding_perfect_unlocked. }
  rewrite E, Hd.
  unfold ChargingState.transitionTo. simpl. rewrite Ha. reflexivity.
Qed.








(** ** MonsterManager: the spawn band *)

Lemma dynamicRangeEnd_default (apex : R) :
  MonsterManager.dynamicRangeEnd defaultDirector apex =
  91 / 100 + (98 / 100 - 91 / 100) * exp (- apex / 600).
Proof. reflexivity. Qed.

Lemma dynamicRangeEnd_default_bounds (apex : R) :
  0 <= apex ->
  91 / 100 < MonsterManager.dynamicRangeEnd defaultDirector apex <= 98 / 100.
Proof.
  intros H. rewrite dynamicRangeEnd_default.
  pose proof (exp_pos (- apex / 600)) as P.
  assert (Q : exp (- apex / 600) <= 1).
  { replace (- apex / 600) with (- (apex / 600)) by lra.
    apply exp_neg_le_1. lra. }
  lra.
Qed.

(** C6. The director is handed the predicted apex of a launch, a positive
    height: [launchActiveControlled] launches to a target height of at least
    50 px.  For every such apex the band it computes starts at 85% of the
    apex, ends at [apex * (0.91 + (0.98 - 0.91) * exp (- apex / 600))], and
    [rangeStartM < rangeEndM <= apex]. *)
Theorem spawn_band_within_apex (pixelsPerMeter predictedApexHeightPx countMultiplier : R) :
  let apex := predictedApexHeightPx / pixelsPerMeter in
  0 < apex ->
  exists w,
    MonsterManager.spawnWindow defaultDirector pixelsPerMeter predictedApexHeightPx
      countMultiplier = Some w /\
    MonsterManager.rangeStartM w = 85 / 100 * apex /\
    MonsterManager.rangeEndM w =
      apex * (91 / 100 + (98 / 100 - 91 / 100) * exp (- apex / 600)) /\
    MonsterManager.rangeStartM w < MonsterManager.rangeEndM w <= apex.
Proof.
  intros apex H. eexists. split; [reflexivity|]. simpl.
  fold apex. unfold MonsterManager.bandStart, MonsterManager.bandEnd.
  pose proof (dynamicRangeEnd_default_bounds apex (Rlt_le _ _ H)) as B.
  rewrite dynamicRangeEnd_default in *. simpl.
  split; [lra|]. split; [reflexivity|]. nra.
Qed.

(** The band of a jump predicted to reach 800 m. *)
Lemma spawn_band_witness :
  exists w,
    MonsterManager.spawnWindow defaultDirector 50 40000 1 = Some w /\
    MonsterManager.rangeStartM w = 85 / 100 * (40000 / 50) /\
    MonsterManager.rangeEndM w =
      40000 / 50 * (91 / 100 + (98 / 100 - 91 / 100) * exp (- (40000 / 50) / 600)) /\
    MonsterManager.rangeStartM w < MonsterManager.rangeEndM w <= 40000 / 50.
Proof.
  apply (spawn_band_within_apex 50 40000 1). lra.
Defined.

(** ** MonsterManager: the spawn count *)

Section Count.

Variable d : DirectorConfig.

Local Abbreviation base := (JS.orDefault (baseCount d) 4).
Local Abbreviation top := (JS.orDefault (maxCount d) 12).
Local Abbreviation ref := (JS.orDefault (refHeightM d) 50).
Local Abbreviation growth := (JS.orDefault (countGrowthFactor d) (25 / 10)).

Lemma Clamp_ge_lo (v lo hi : R) : lo <= JS.Clamp v lo hi.
Proof. unfold JS.Clamp. apply Rmax_l. Qed.

Lemma Clamp_at_lo (lo hi : R) : JS.Clamp lo lo hi = lo.
Proof.
  unfold JS.Clamp. apply Rmax_left. apply Rmin_r.
Qed.

Lemma clampedCount_low (apex : R) :
  apex <= ref -> MonsterManager.clampedCount d apex = base.
Proof.
  intros H. unfold MonsterManager.clampedCount. cbv zeta.
  rewrite (proj2 (leb_true _ _) H). apply Clamp_at_lo.
Qed.

Lemma clampedCount_high (apex : R) :
  ref < apex ->
  MonsterManager.clampedCount d apex =
  JS.Clamp (IZR (JS.floor (base + JS.log2 (apex / ref) * growth))) base top.
Proof.
  intros H. unfold MonsterManager.clampedCount. cbv zeta.
  rewrite (proj2 (leb_false _ _) H). reflexivity.
Qed.

Lemma clampedCount_ge_base (apex : R) : base <= MonsterManager.clampedCount d apex.
Proof. unfold MonsterManager.clampedCount. apply Clamp_ge_lo. Qed.

Lemma log2_mono (x y : R) : 0 < x -> x <= y -> JS.log2 x <= JS.log2 y.
Proof.
  intros Hx Hxy. unfold JS.log2, Rdiv.
  apply Rmult_le_compat_r.
  - left. apply Rinv_0_lt_compat, ln2_pos.
  - destruct (Req_dec x y) as [E | E].
    + rewrite E. lra.
    + left. apply ln_increasing; lra.
Qed.

Hypothesis ref_pos : 0 < ref.
Hypothesis growth_nonneg : 0 <= growth.

Lemma clampedCount_mono (a1 a2 : R) :
  a1 <= a2 -> MonsterManager.clampedCount d a1 <= MonsterManager.clampedCount d a2.
Proof.
  intros H.
  destruct (Rle_dec a1 ref) as [L1 | L1].
  - rewrite (clampedCount_low a1 L1). apply clampedCount_ge_base.
  - assert (H1 : ref < a1) by lra. assert (H2 : ref < a2) by lra.
    rewrite (clampedCount_high a1 H1), (clampedCount_high a2 H2).
    apply Clamp_mono. apply IZR_le. apply Zfloor_le.
    assert (M : JS.log2 (a1 / ref) <= JS.log2 (a2 / ref)).
    { apply log2_mono.
      - apply Rdiv_lt_0_compat; lra.
      - unfold Rdiv. apply Rmult_le_compat_r; [|exact H].
        left. apply Rinv_0_lt_compat. exact ref_pos. }
    nra.
Qed.

Hypothesis base_nonneg : 0 <= base.

Lemma spawnCount_mono (a1 a2 m : R) :
  a1 <= a2 ->
  (MonsterManager.spawnCount d a1 m <= MonsterManager.spawnCount d a2 m)%Z.
Proof.
  intros H. unfold MonsterManager.spawnCount.
  pose proof (clampedCount_mono a1 a2 H) as M.
  pose proof (clampedCount_ge_base a1) as B1.
  destruct (Rle_dec 0 m) as [Hm | Hm].
  - apply Z.max_le_compat_l. apply round_mono. nra.
  - assert (Z1 : forall a, base <= MonsterManager.clampedCount d a ->
                 (JS.round (MonsterManager.clampedCount d a * m) <= 0)%Z).
    { intros a Ha. unfold JS.round.
      pose proof (Zfloor_bound (MonsterManager.clampedCount d a * m + / 2)) as [F _].
      assert (F2 : IZR (Zfloor (MonsterManager.clampedCount d a * m + / 2)) < 1) by nra.
      apply lt_IZR in F2. lia. }
    pose proof (Z1 a1 B1). pose proof (Z1 a2 (clampedCount_ge_base a2)). lia.
Qed.

End Count.

(** C5. With a whole base count of at least 1, a positive reference height
    and a non-negative growth factor (the defaults are 4, 50 and 2.5): the
    count before the rating multiplier is [baseCount] up to the reference
    height and [floor (baseCount + log2 (apex / refHeight) * growthFactor)]
    clamped to [[baseCount, maxCount]] above it; the spawn count is
    [max 1 (round (count * multiplier))]; with multiplier 1 and an apex up to
    the reference height it is [baseCount]; and it never decreases as the
    apex grows. *)
Theorem spawn_count_formula_and_monotone (d : DirectorConfig) (b : Z) :
  let base := JS.orDefault (baseCount d) 4 in
  let top := JS.orDefault (maxCount d) 12 in
  let ref := JS.orDefault (refHeightM d) 50 in
  let growth := JS.orDefault (countGrowthFactor d) (25 / 10) in
  base = IZR b -> (1 <= b)%Z -> 0 < ref -> 0 <= growth ->
  (forall apex, apex <= ref -> MonsterManager.clampedCount d apex = base) /\
  (forall apex, ref < apex ->
     MonsterManager.clampedCount d apex =
     JS.Clamp (IZR (JS.floor (base + JS.log2 (apex / ref) * growth))) base top) /\
  (forall apex m,
     MonsterManager.spawnCount d apex m =
     Z.max 1 (JS.round (MonsterManager.clampedCount d apex * m))) /\
  (forall apex, apex <= ref -> MonsterManager.spawnCount d apex 1 = b) /\
  (forall a1 a2 m, a1 <= a2 ->
     (MonsterManager.spawnCount d a1 m <= MonsterManager.spawnCount d a2 m)%Z).
Proof.
  intros base top ref growth Hb Hb1 Href Hg.
  split; [apply clampedCount_low|].
  split; [apply clampedCount_high|].
  split; [reflexivity|].
  split.
  - intros apex H. unfold MonsterManager.spawnCount.
    rewrite (clampedCount_low d apex H). fold base. rewrite Hb, Rmult_1_r, round_IZR. lia.
  - intros a1 a2 m H. apply spawnCount_mono; try assumption.
    fold base. rewrite Hb. apply IZR_le. lia.
Qed.

(** The default director: four monsters up to 50 m after a PERFECT. *)
Lemma spawn_count_witness :
  MonsterManager.spawnCount defaultDirector 30 1 = 4%Z /\
  (MonsterManager.spawnCount defaultDirector 30 1
   <= MonsterManager.spawnCount defaultDirector 800 1)%Z.
Proof.
  pose proof (spawn_count_formula_and_monotone defaultDirector 4) as H.
  simpl in H.
  destruct H as (_ & _ & _ & Hlow & Hmono); try lra; try lia.
  split.
  - apply Hlow. lra.
  - apply Hmono. lra.
Defined.

(** ** MonsterManager: the type weights *)

(** Case analysis on the comparisons of a weight curve. *)
Ltac js_cases :=
  repeat match goal with
  | |- context [JS.ltb ?a ?b] =>
      let E := fresh "E" in
      destruct (JS.ltb a b) eqn:E;
      [apply ltb_true in E | apply ltb_false in E]
  | |- context [JS.geb ?a ?b] =>
      let E := fresh "E" in
      destruct (JS.geb a b) eqn:E;
      [apply geb_true in E | apply geb_false in E]
  | |- context [JS.gtb ?a ?b] =>
      let E := fresh "E" in
      destruct (JS.gtb a b) eqn:E;
      [apply gtb_true in E | apply gtb_false in E]
  | |- context [JS.leb ?a ?b] =>
      let E := fresh "E" in
      destruct (JS.leb a b) eqn:E;
      [apply leb_true in E | apply leb_false in E]
  end; simpl.

Lemma a01Weight_nonneg (h : R) : 0 <= MonsterManager.a01Weight h.
Proof. unfold MonsterManager.a01Weight. js_cases; lra. Qed.

Lemma a02Weight_nonneg (h : R) : 0 <= MonsterManager.a02Weight h.
Proof.
  unfold MonsterManager.a02Weight. js_cases; try lra.
  left; apply exp_pos.
Qed.

Lemma a03Weight_nonneg (h : R) : 0 <= MonsterManager.a03Weight h.
Proof. unfold MonsterManager.a03Weight. js_cases; lra. Qed.

Lemma cloudWeight_nonneg (h : R) : 0 <= MonsterManager.cloudWeight h.
Proof. unfold MonsterManager.cloudWeight. js_cases; lra. Qed.

(** Below 600 m the weights of A01 and A02 add up to 1. *)
Lemma low_weights_sum (h : R) :
  h < 600 -> MonsterManager.a01Weight h + MonsterManager.a02Weight h = 1.
Proof.
  intros H. unfold MonsterManager.a01Weight, MonsterManager.a02Weight.
  js_cases; lra.
Qed.

(** From 600 m up to 1000 m A02 keeps the weight [exp (-3 progress)]. *)
Lemma a02Weight_mid (h : R) :
  600 <= h < 1000 ->
  MonsterManager.a02Weight h = exp (- 3 * ((h - 600) / (1000 - 600))).
Proof.
  intros H. unfold MonsterManager.a02Weight. js_cases; lra.
Qed.

Lemma a03Weight_high (h : R) : 1000 <= h -> MonsterManager.a03Weight h = 1.
Proof. intros H. unfold MonsterManager.a03Weight. js_cases; lra. Qed.

Lemma totalWeightAt_pos (h : R) : 0 < MonsterManager.totalWeightAt h.
Proof.
  unfold MonsterManager.totalWeightAt.
  pose proof (a01Weight_nonneg h). pose proof (a02Weight_nonneg h).
  pose proof (a03Weight_nonneg h). pose proof (cloudWeight_nonneg h).
  destruct (Rlt_dec h 600) as [L | L].
  - pose proof (low_weights_sum h L). lra.
  - destruct (Rlt_dec h 1000) as [M | M].
    + assert (E : 600 <= h < 1000) by lra.
      pose proof (a02Weight_mid h E) as W.
      pose proof (exp_pos (- 3 * ((h - 600) / (1000 - 600)))). lra.
    + assert (E : 1000 <= h) by lra.
      pose proof (a03Weight_high h E). lra.
Qed.

(** C7. At every altitude from 0 to 1100 m the four type weights add up to
    more than 0, in particular at the sampled boundary altitudes. *)
Theorem type_weights_never_all_zero :
  (forall h : R, 0 <= h <= 1100 -> 0 < MonsterManager.totalWeightAt h) /\
  Forall (fun h => 0 < MonsterManager.totalWeightAt h)
         [0; 199; 200; 400; 599; 600; 799; 800; 999; 1000; 1099; 1100].
Proof.
  split.
  - intros h _. apply totalWeightAt_pos.
  - repeat constructor; apply totalWeightAt_pos.
Qed.

(** At 600 m, where A01 has just run out and A03 has not started. *)
Lemma type_weights_witness : 0 < MonsterManager.totalWeightAt 600.
Proof.
  apply (proj1 type_weights_never_all_zero 600). lra.
Defined.

(** ** MonsterManager: the draw *)

Lemma candidatesOf_nil (w01 w02 w03 wCloud : R) :
  w01 <= 1 / 100 -> w02 <= 1 / 100 -> w03 <= 1 / 100 -> wCloud <= 1 / 100 ->
  MonsterManager.candidatesOf w01 w02 w03 wCloud = [].
Proof.
  intros H1 H2 H3 H4. unfold MonsterManager.candidatesOf.
  rewrite (proj2 (gtb_false _ _) H1), (proj2 (gtb_false _ _) H2),
          (proj2 (gtb_false _ _) H3), (proj2 (gtb_false _ _) H4).
  reflexivity.
Qed.

Lemma sample_in (cs : list (MonsterType * R)) (random : R) (t : MonsterType) :
  MonsterManager.sample random cs = Some t -> In t (map fst cs).
Proof.
  revert random. induction cs as [| [ty w] rest IH]; intros random H; simpl in *.
  - discriminate.
  - destruct (JS.leb (random - w) 0).
    + injection H as ->. now left.
    + right. eapply IH. exact H.
Qed.

(** The type drawn is one of the candidates, or A03 when there is none. *)
Lemma chooseType_candidate (w01 w02 w03 wCloud rnd : R) :
  let cs := MonsterManager.candidatesOf w01 w02 w03 wCloud in
  let t := MonsterManager.chooseType w01 w02 w03 wCloud rnd in
  (cs = [] /\ t = A03) \/ In t (map fst cs).
Proof.
  intros cs t. unfold t, MonsterManager.chooseType. fold cs.
  destruct cs as [| c rest] eqn:E; [left; auto|].
  right.
  destruct (MonsterManager.sample _ (c :: rest)) eqn:S.
  - eapply sample_in. exact S.
  - now left.
Qed.

(** For a real altitude some weight always qualifies: the type drawn by
    [selectMonsterType] is a candidate, and the A03 fallback stays unused. *)
Lemma exp_neg3_bound (p : R) : p <= 1 -> 1 / 100 < exp (- 3 * p).
Proof.
  intros H.
  assert (E3 : exp 3 <= 27).
  { replace 3 with (1 + (1 + 1)) at 1 by lra. rewrite !exp_plus.
    pose proof exp_le_3. pose proof (exp_pos 1). nra. }
  assert (L : exp (- 3) <= exp (- 3 * p)).
  { destruct (Req_dec p 1) as [-> | N].
    - replace (- 3 * 1) with (- 3) by lra. lra.
    - left. apply exp_increasing. lra. }
  assert (I : exp 3 * exp (- 3) = 1).
  { rewrite <- exp_plus. replace (3 + - 3) with 0 by lra. apply exp_0. }
  pose proof (exp_pos (- 3)). nra.
Qed.

Lemma candidates_nonempty (h : R) :
  MonsterManager.candidatesOf (MonsterManager.a01Weight h) (MonsterManager.a02Weight h)
    (MonsterManager.a03Weight h) (MonsterManager.cloudWeight h) <> [].
Proof.
  unfold MonsterManager.candidatesOf.
  destruct (Rlt_dec h 600) as [L | L].
  - pose proof (low_weights_sum h L) as S.
    destruct (JS.gtb (MonsterManager.a01Weight h) (1 / 100)) eqn:E1; [discriminate|].
    destruct (JS.gtb (MonsterManager.a02Weight h) (1 / 100)) eqn:E2; [discriminate|].
    apply gtb_false in E1, E2. lra.
  - destruct (Rlt_dec h 1000) as [M | M].
    + assert (E : 600 <= h < 1000) by lra.
      pose proof (a02Weight_mid h E) as W.
      pose proof (exp_neg3_bound ((h - 600) / (1000 - 600))) as B.
      destruct (JS.gtb (MonsterManager.a01Weight h) (1 / 100)); [discriminate|].
      destruct (JS.gtb (MonsterManager.a02Weight h) (1 / 100)) eqn:E2; [discriminate|].
      apply gtb_false in E2. lra.
    + assert (E : 1000 <= h) by lra.
      pose proof (a03Weight_high h E) as W.
      destruct (JS.gtb (MonsterManager.a01Weight h) (1 / 100)); [discriminate|].
      destruct (JS.gtb (MonsterManager.a02Weight h) (1 / 100)); [discriminate|].
      destruct (JS.gtb (MonsterManager.a03Weight h) (1 / 100)) eqn:E3; [discriminate|].
      apply gtb_false in E3. lra.
Qed.

(** C8. The selection always yields one of the four types, a type whose
    weight at that altitude exceeds the 0.01 threshold; and when no weight
    exceeds the threshold the draw yields A03. *)
Theorem select_type_total_with_fallback (heightM rnd : R) :
  (MonsterManager.selectMonsterType heightM rnd = A01 \/
   MonsterManager.selectMonsterType heightM rnd = A02 \/
   MonsterManager.selectMonsterType heightM rnd = A03 \/
   MonsterManager.selectMonsterType heightM rnd = CloudA) /\
  In (MonsterManager.selectMonsterType heightM rnd)
     (map fst (MonsterManager.candidatesOf
                 (MonsterManager.a01Weight heightM) (MonsterManager.a02Weight heightM)
                 (MonsterManager.a03Weight heightM) (MonsterManager.cloudWeight heightM))) /\
  (MonsterManager.selectMonsterType heightM rnd =
   MonsterManager.chooseType (MonsterManager.a01Weight heightM)
     (MonsterManager.a02Weight heightM) (MonsterManager.a03Weight heightM)
     (MonsterManager.cloudWeight heightM) rnd) /\
  (forall w01 w02 w03 wCloud : R,
     w01 <= 1 / 100 -> w02 <= 1 / 100 -> w03 <= 1 / 100 -> wCloud <= 1 / 100 ->
     MonsterManager.chooseType w01 w02 w03 wCloud rnd = A03).
Proof.
  split; [|split; [|split; [reflexivity|]]].
  - destruct (MonsterManager.selectMonsterType heightM rnd); auto.
  - unfold MonsterManager.selectMonsterType.
    destruct (chooseType_candidate (MonsterManager.a01Weight heightM)
                (MonsterManager.a02Weight heightM) (MonsterManager.a03Weight heightM)
                (MonsterManager.cloudWeight heightM) rnd) as [[E _] | I].
    + exfalso. exact (candidates_nonempty heightM E).
    + exact I.
  - intros w01 w02 w03 wCloud H1 H2 H3 H4. unfold MonsterManager.chooseType.
    rewrite candidatesOf_nil by assumption. reflexivity.
Qed.

(** No weight at all: the fallback. *)
Lemma select_type_witness : MonsterManager.chooseType 0 0 0 0 (1 / 2) = A03.
Proof.
  apply (proj2 (proj2 (proj2 (select_type_total_with_fallback 0 (1 / 2))))); lra.
Defined.

(** ** Ground: the offset range *)

Section GroundRange.

Import Ground.

Lemma assign_length (l : list R) (i : nat) (v : R) :
  length (assign l i v) = length l.
Proof.
  revert i; induction l as [| x t IH]; intros [| j]; simpl; auto.
Qed.

Lemma get_assign_same (l : list R) (i : nat) (v : R) :
  (i < length l)%nat -> get (assign l i v) i = v.
Proof.
  unfold get. revert i; induction l as [| x t IH]; intros [| j] H; simpl in *;
    try lia; auto.
  apply IH. lia.
Qed.

Lemma get_assign_other (l : list R) (i j : nat) (v : R) :
  i <> j -> get (assign l i v) j = get l j.
Proof.
  unfold get. revert i j; induction l as [| x t IH]; intros [| i] [| j] H; simpl;
    try congruence; auto.
Qed.

Lemma clamp_inRange (y : R) :
  inRange (Rmax (- MAX_OFFSET * (3 / 10)) (Rmin MAX_OFFSET y)).
Proof.
  unfold inRange, MAX_OFFSET, Rmin.
  destruct (Rle_dec 60 y); unfold Rmax;
    match goal with |- context [Rle_dec ?a ?b] => destruct (Rle_dec a b) end; lra.
Qed.

Lemma stepColumn_wf (h : R) (G : Ground) (i : nat) :
  wf G -> wf (stepColumn h G i) /\
          BLOCKS_PER_ROW (stepColumn h G i) = BLOCKS_PER_ROW G.
Proof.
  intros (H1 & H2 & H3). unfold wf, stepColumn; simpl.
  rewrite !assign_length. auto.
Qed.

Lemma stepColumn_offset_same (h : R) (G : Ground) (i : nat) :
  wf G -> (i < BLOCKS_PER_ROW G)%nat ->
  inRange (get (yOffset (stepColumn h G i)) i).
Proof.
  intros (H1 & _) Hi. unfold stepColumn; simpl.
  rewrite get_assign_same by lia. apply clamp_inRange.
Qed.

Lemma stepColumn_offset_other (h : R) (G : Ground) (i j : nat) :
  i <> j -> get (yOffset (stepColumn h G i)) j = get (yOffset G) j.
Proof.
  intros H. unfold stepColumn; simpl. apply get_assign_other. exact H.
Qed.

(** The sweep over a list of columns: every column swept, and every column
    that was in range before, is in range after. *)
Lemma sweep_inRange (h : R) (cols : list nat) (G : Ground) :
  wf G -> (forall i, In i cols -> (i < BLOCKS_PER_ROW G)%nat) ->
  let G' := fold_left (stepColumn h) cols G in
  wf G' /\ BLOCKS_PER_ROW G' = BLOCKS_PER_ROW G /\
  forall j, In j cols \/ inRange (get (yOffset G) j) ->
            inRange (get (yOffset G') j).
Proof.
  revert G. induction cols as [| i rest IH]; intros G W B; simpl.
  - split; [exact W|]. split; [reflexivity|].
    intros j [[] | H]; exact H.
  - destruct (stepColumn_wf h G i W) as [W1 N1].
    assert (B1 : forall k, In k rest -> (k < BLOCKS_PER_ROW (stepColumn h G i))%nat).
    { intros k Hk. rewrite N1. apply B. now right. }
    destruct (IH (stepColumn h G i) W1 B1) as (W2 & N2 & R2).
    split; [exact W2|]. split; [congruence|].
    intros j Hj. apply R2.
    destruct (in_dec Nat.eq_dec j rest) as [I | I]; [now left | right].
    destruct (Nat.eq_dec i j) as [-> | D].
    + apply stepColumn_offset_same; [exact W | apply B; now left].
    + rewrite stepColumn_offset_other by exact D.
      destruct Hj as [[E | E] | E]; [congruence | contradiction | exact E].
Qed.

Lemma substep_inRange (h : R) (G : Ground) :
  wf G ->
  wf (substep h G) /\ BLOCKS_PER_ROW (substep h G) = BLOCKS_PER_ROW G /\
  Forall inRange (yOffset (substep h G)).
Proof.
  intros W. unfold substep.
  assert (B : forall i, In i (seq 0 (BLOCKS_PER_ROW G)) -> (i < BLOCKS_PER_ROW G)%nat).
  { intros i Hi. apply in_seq in Hi. lia. }
  destruct (sweep_inRange h _ G W B) as (W' & N' & R').
  split; [exact W'|]. split; [exact N'|].
  apply Forall_nth. intros i d Hi.
  destruct W' as (L' & _).
  rewrite (nth_indep _ d 0 Hi). apply R'. left. apply in_seq.
  rewrite L', N' in Hi. lia.
Qed.

Lemma addForce_length (P : R) (c : Z) (cols : list nat) (f : list R) :
  length (fold_left (addForce P c) cols f) = length f.
Proof.
  revert f; induction cols as [| i rest IH]; intros f; simpl; [reflexivity|].
  rewrite IH. apply assign_length.
Qed.

Lemma computeForce_wf (G : Ground) (depth : R) (c : Z) :
  wf G -> wf (computeForce G depth c).
Proof.
  intros (H1 & H2 & H3). unfold wf, computeForce; simpl.
  split; [exact H1|]. split; [exact H2|].
  destruct (JS.gtb depth 0).
  - rewrite addForce_length. apply repeat_length.
  - apply repeat_length.
Qed.

Lemma initial_wf (n : nat) : wf (initial n).
Proof. unfold wf, initial; simpl. rewrite !repeat_length. auto. Qed.

End GroundRange.

(** C9. On a ground whose arrays have one entry per column, every column
    offset lies in [[-0.3 MAX_OFFSET, MAX_OFFSET]] after each integration
    substep, hence after both substeps of every [render]; the range is
    preserved by every update. *)
Theorem offsets_in_range_after_every_substep
    (G : Ground.Ground) (dt depressionDepth : R) (playerX : option R) :
  Ground.wf G ->
  (forall h, Forall Ground.inRange (Ground.yOffset (Ground.substep h G))) /\
  (let G1 := Ground.computeForce G depressionDepth (Ground.centerColOf G playerX) in
   Forall Ground.inRange (Ground.yOffset (Ground.substep (dt / 2) G1)) /\
   Forall Ground.inRange
     (Ground.yOffset (Ground.substep (dt / 2) (Ground.substep (dt / 2) G1)))) /\
  Ground.wf (Ground.render G dt depressionDepth playerX) /\
  Forall Ground.inRange (Ground.yOffset (Ground.render G dt depressionDepth playerX)).
Proof.
  intros W.
  pose proof (computeForce_wf G depressionDepth (Ground.centerColOf G playerX) W) as W1.
  destruct (substep_inRange (dt / 2) _ W1) as (W2 & _ & R2).
  destruct (substep_inRange (dt / 2) _ W2) as (W3 & _ & R3).
  split; [intros h; apply substep_inRange; exact W|].
  split; [split; assumption|].
  split; assumption.
Qed.

(** A five-column ground at rest, pressed 10 px deep at x = 160 for one tick. *)
Lemma offsets_in_range_witness :
  Forall Ground.inRange
    (Ground.yOffset (Ground.render (Ground.initial 5) (1 / 120) 10 (Some 160))).
Proof.
  apply (offsets_in_range_after_every_substep (Ground.initial 5) (1 / 120) 10 (Some 160)).
  unfold Ground.wf; simpl. auto.
Defined.

(** ** Ground: a free substep is the recursive sweep *)

Section SweepLink.

Import Ground SpringField.

Lemma assign_middle (l t : list R) (x z : R) :
  assign (l ++ x :: t) (length l) z = l ++ z :: t.
Proof. induction l as [| a l IH]; simpl; [reflexivity | now rewrite IH]. Qed.

Lemma get_middle (l t : list R) (x : R) : get (l ++ x :: t) (length l) = x.
Proof. unfold get. apply nth_middle. Qed.

Lemma assign_at (l t : list R) (x z : R) (k : nat) :
  length l = k -> assign (l ++ x :: t) k z = l ++ z :: t.
Proof. intros <-. apply assign_middle. Qed.

Lemma get_at (l t : list R) (x : R) (k : nat) :
  length l = k -> get (l ++ x :: t) k = x.
Proof. intros <-. apply get_middle. Qed.

Lemma get_after (l t : list R) (x b : R) :
  get (l ++ x :: b :: t) (length l + 1) = b.
Proof.
  unfold get. rewrite app_nth2 by lia.
  replace (length l + 1 - length l)%nat with 1%nat by lia. reflexivity.
Qed.

(** The columns from [length preY] on are swept; [preY] and [preV] hold the
    columns already done. *)
Lemma sweep_from (h : R) (F : list R) (N : nat) :
  (forall i, get F i = 0) ->
  forall (cols : list (R * R)) (preY preV : list R) (prev : option R),
    length preV = length preY ->
    (length preY + length cols = N)%nat ->
    (forall y t, get (preY ++ y :: t) (Nat.max 0 (length preY - 1)) = leftOf prev y) ->
    fold_left (stepColumn h) (seq (length preY) (length cols))
      (mkGround N (preY ++ map fst cols) (preV ++ map snd cols) F)
    = mkGround N (preY ++ map fst (freeSweep h prev cols))
                 (preV ++ map snd (freeSweep h prev cols)) F.
Proof.
  intros HF. induction cols as [| [y v] rest IH]; intros preY preV prev HV HN HL.
  - reflexivity.
  - cbn [length seq fold_left map fst snd].
    assert (S1 : stepColumn h
               (mkGround N (preY ++ y :: map fst rest)
                           (preV ++ v :: map snd rest) F) (length preY)
             = mkGround N
                 ((preY ++ [fst (colStep h (leftOf prev y) y (rightOf rest y) v)])
                    ++ map fst rest)
                 ((preV ++ [snd (colStep h (leftOf prev y) y (rightOf rest y) v)])
                    ++ map snd rest) F).
    { unfold stepColumn. cbn [BLOCKS_PER_ROW yOffset yVel force].
      rewrite get_middle. rewrite (get_at preV _ v (length preY) HV).
      rewrite HL. rewrite HF.
      assert (R : get (preY ++ y :: map fst rest)
                      (Nat.min (N - 1) (length preY + 1)) = rightOf rest y).
      { destruct rest as [| [b w] rest'].
        - simpl in HN. replace (Nat.min (N - 1) (length preY + 1)) with (length preY) by lia.
          simpl. apply get_middle.
        - simpl in HN. replace (Nat.min (N - 1) (length preY + 1)) with (length preY + 1)%nat by lia.
          simpl. apply get_after. }
      rewrite R. rewrite assign_middle. rewrite (assign_at preV _ v _ (length preY) HV).
      rewrite <- !app_assoc. simpl. unfold colStep. simpl.
      rewrite !Rplus_0_r. reflexivity. }
    rewrite S1.
    set (c := colStep h (leftOf prev y) y (rightOf rest y) v) in *.
    replace (S (length preY)) with (length (preY ++ [fst c]))
      by (rewrite length_app; simpl; lia).
    rewrite (IH (preY ++ [fst c]) (preV ++ [snd c]) (Some (fst c))).
    + simpl. rewrite <- !app_assoc. reflexivity.
    + rewrite !length_app. simpl. lia.
    + rewrite length_app. simpl in *. lia.
    + intros y0 t. rewrite <- app_assoc. cbn [app]. apply get_at.
      rewrite length_app. cbn [length]. lia.
Qed.

Lemma map_fst_combine (ys vs : list R) :
  length ys = length vs -> map fst (combine ys vs) = ys.
Proof.
  revert vs; induction ys as [| y ys IH]; intros [| v vs] H; simpl in *;
    try discriminate; [reflexivity|]. f_equal. apply IH. lia.
Qed.

Lemma map_snd_combine (ys vs : list R) :
  length ys = length vs -> map snd (combine ys vs) = vs.
Proof.
  revert vs; induction ys as [| y ys IH]; intros [| v vs] H; simpl in *;
    try discriminate; [reflexivity|]. f_equal. apply IH. lia.
Qed.

Lemma substep_free (h : R) (G : Ground) :
  wf G -> (forall i, get (force G) i = 0) ->
  substep h G =
  mkGround (BLOCKS_PER_ROW G)
           (map fst (freeSweep h None (combine (yOffset G) (yVel G))))
           (map snd (freeSweep h None (combine (yOffset G) (yVel G))))
           (force G).
Proof.
  intros (H1 & H2 & H3) HF. unfold substep.
  pose proof (sweep_from h (force G) (BLOCKS_PER_ROW G) HF
                (combine (yOffset G) (yVel G)) [] [] None) as S.
  simpl in S.
  rewrite length_combine, H1, H2, Nat.min_id in S.
  rewrite map_fst_combine, map_snd_combine in S by congruence.
  destruct G as [N ys vs F]. simpl in *. apply S; auto.
Qed.

End SweepLink.

(** ** Ground: the spring energy *)

Section SpringEnergy.

Import Ground SpringField.

Lemma rightOf_headOf (rest : list (R * R)) (y : R) :
  rightOf rest y = match headOf (map fst rest) with Some b => b | None => y end.
Proof. destruct rest as [| [b w] r]; reflexivity. Qed.

Lemma potentialFrom_local (t : R) (prev : option R) (ys : list R) :
  STIFFNESS / 2 * (t * t)
  + match prev with Some p => TENSION / 2 * ((t - p) * (t - p)) | None => 0 end
  + potentialFrom (Some t) ys
  = localPot prev (headOf ys) t + potentialFrom None ys.
Proof.
  unfold localPot. destruct ys as [| b r]; simpl; lra.
Qed.

Lemma sq_sum3 (a b c : R) : (a + b + c) * (a + b + c) <= 3 * (a * a + b * b + c * c).
Proof.
  pose proof (Rle_0_sqr (a - b)). pose proof (Rle_0_sqr (a - c)).
  pose proof (Rle_0_sqr (b - c)). unfold Rsqr in *. lra.
Qed.

(** The derivative of the energy in a column after the sweep is the pull
    the column felt, changed by its own move and by the move of its right
    neighbour. *)
Lemma gradAt_after (prev : option R) (y z : R) (next : option R) (m : R) :
  let k := STIFFNESS
           + match prev with Some _ => TENSION | None => 0 end
           + match next with Some _ => TENSION | None => 0 end in
  gradAt prev z (match next with Some b => Some (b + m) | None => None end)
  = pull (leftOf prev y) y (match next with Some b => b | None => y end)
    + k * (z - y)
    + - (match next with Some _ => TENSION * m | None => 0 end).
Proof.
  unfold gradAt, pull, leftOf, STIFFNESS, TENSION. destruct prev, next; simpl; lra.
Qed.

Lemma gradAt_sq_bound (prev : option R) (y z : R) (next : option R) (m : R) :
  let r := gradAt prev z (match next with Some b => Some (b + m) | None => None end) in
  let g := pull (leftOf prev y) y (match next with Some b => b | None => y end) in
  r * r <= 3 * (g * g + 202500 * ((z - y) * (z - y))
                + match next with Some _ => 32400 * (m * m) | None => 0 end).
Proof.
  intros r g. unfold r. rewrite (gradAt_after prev y z next m). cbv zeta. fold g.
  set (k := STIFFNESS
            + match prev with Some _ => TENSION | None => 0 end
            + match next with Some _ => TENSION | None => 0 end).
  set (t := match next with Some _ => TENSION * m | None => 0 end).
  pose proof (sq_sum3 g (k * (z - y)) (- t)) as S.
  assert (K1 : (k * (z - y)) * (k * (z - y)) <= 202500 * ((z - y) * (z - y))).
  { assert (Hk : 0 <= k <= 450)
      by (unfold k, STIFFNESS, TENSION; destruct prev, next; lra).
    pose proof (Rle_0_sqr (z - y)) as S0. unfold Rsqr in S0.
    replace (k * (z - y) * (k * (z - y))) with (k * k * ((z - y) * (z - y))) by lra.
    apply Rmult_le_compat_r; [exact S0|]. nra. }
  assert (K2 : - t * - t = match next with Some _ => 32400 * (m * m) | None => 0 end).
  { unfold t, TENSION. destruct next; lra. }
  lra.
Qed.

Lemma sumSq_nonneg (ys : list R) : 0 <= sumSq ys.
Proof.
  induction ys as [| y t IH]; simpl; [lra|].
  pose proof (Rle_0_sqr y) as S. unfold Rsqr in S. lra.
Qed.

Lemma linkSq_nonneg (prev : option R) (ys : list R) : 0 <= linkSq prev ys.
Proof.
  revert prev; induction ys as [| y t IH]; intros prev; simpl; [lra|].
  pose proof (IH (Some y)).
  destruct prev as [p |]; [|lra].
  pose proof (Rle_0_sqr (y - p)) as S. unfold Rsqr in S. lra.
Qed.

Lemma potentialFrom_sums (prev : option R) (ys : list R) :
  potentialFrom prev ys = STIFFNESS / 2 * sumSq ys + TENSION / 2 * linkSq prev ys.
Proof.
  revert prev; induction ys as [| y t IH]; intros prev; simpl; [lra|].
  rewrite IH. destruct prev; lra.
Qed.

(** Summation by parts along the chain. *)
Lemma gradSq_lower (prev : option R) (ys : list R) :
  STIFFNESS * STIFFNESS * sumSq ys
  + 2 * STIFFNESS * TENSION
    * (linkSq prev ys
       - match prev, ys with Some p, y :: _ => p * (p - y) | _, _ => 0 end)
  <= gradSq prev ys.
Proof.
  revert prev; induction ys as [| z t IH]; intros prev.
  - simpl. destruct prev; lra.
  - cbn [gradSq sumSq linkSq].
    pose proof (IH (Some z)) as I.
    set (m := match prev with Some p => z - p | None => 0 end
              + match headOf t with Some b => z - b | None => 0 end).
    assert (Er : gradAt prev z (headOf t) = STIFFNESS * z + TENSION * m).
    { unfold gradAt, m. destruct prev, (headOf t); lra. }
    rewrite Er.
    pose proof (Rle_0_sqr (TENSION * m)) as S. unfold Rsqr in S.
    assert (Ec : match headOf t with Some b => z * (z - b) | None => 0 end
                 = match t with y :: _ => z * (z - y) | [] => 0 end).
    { destruct t; reflexivity. }
    unfold m in *. unfold STIFFNESS, TENSION in *.
    destruct prev as [p |]; destruct t as [| b r]; cbn [headOf] in *; lra.
Qed.

(** The energy of a chain is bounded by the squared derivatives. *)
Lemma potential_le_gradSq (ys : list R) : potential ys <= gradSq None ys / 180.
Proof.
  unfold potential. rewrite potentialFrom_sums.
  pose proof (gradSq_lower None ys) as G.
  pose proof (linkSq_nonneg None ys) as L.
  pose proof (sumSq_nonneg ys) as S.
  unfold STIFFNESS, TENSION in *.
  replace (linkSq None ys - 0) with (linkSq None ys) in G by lra.
  lra.
Qed.

Lemma kinetic_nonneg (vs : list R) : 0 <= kinetic vs.
Proof.
  induction vs as [| v t IH]; simpl; [lra|].
  pose proof (Rle_0_sqr v) as S. unfold Rsqr in S. lra.
Qed.

Lemma potentialFrom_nonneg (prev : option R) (ys : list R) : 0 <= potentialFrom prev ys.
Proof.
  rewrite potentialFrom_sums.
  pose proof (sumSq_nonneg ys). pose proof (linkSq_nonneg prev ys).
  unfold STIFFNESS, TENSION. lra.
Qed.

Lemma energy_nonneg (G : Ground) : 0 <= energy G.
Proof.
  unfold energy, potential.
  pose proof (kinetic_nonneg (yVel G)). pose proof (potentialFrom_nonneg None (yOffset G)).
  lra.
Qed.

(** Every offset is held by the energy: [45 y^2 <= energy]. *)
Lemma offset_le_energy (G : Ground) (y : R) :
  In y (yOffset G) -> 45 * (y * y) <= energy G.
Proof.
  intros H. unfold energy, potential.
  pose proof (kinetic_nonneg (yVel G)) as K.
  assert (P : forall prev ys, In y ys -> 45 * (y * y) <= potentialFrom prev ys).
  { intros prev ys; revert prev; induction ys as [| a t IH]; intros prev Hin.
    - contradiction.
    - simpl. pose proof (potentialFrom_nonneg (Some a) t) as N.
      assert (L : 0 <= match prev with
                       | Some p => TENSION / 2 * ((a - p) * (a - p))
                       | None => 0
                       end).
      { destruct prev as [p |]; [|lra].
        pose proof (Rle_0_sqr (a - p)) as S. unfold Rsqr in S. unfold TENSION. lra. }
      destruct Hin as [-> | Hin].
      + unfold STIFFNESS. lra.
      + pose proof (IH (Some a) Hin).
        pose proof (Rle_0_sqr a) as S. unfold Rsqr in S. unfold STIFFNESS. lra. }
  pose proof (P None (yOffset G) H). lra.
Qed.

Lemma computeForce_rest (G : Ground) (c : Z) :
  forceFree (computeForce G 0 c) /\
  yOffset (computeForce G 0 c) = yOffset G /\
  yVel (computeForce G 0 c) = yVel G.
Proof.
  unfold computeForce, forceFree.
  rewrite (proj2 (gtb_false 0 0)) by lra. cbn [force yOffset yVel].
  split; [|split; reflexivity].
  intros i. unfold get. apply nth_repeat.
Qed.

Lemma small_energy_small_offsets (G : Ground) :
  energy G <= 45 / 4 -> Forall (fun y => Rabs y <= 1 / 2) (yOffset G).
Proof.
  intros H. apply Forall_forall. intros y Hy.
  pose proof (offset_le_energy G y Hy) as B.
  assert (S : y * y <= 1 / 4) by lra.
  unfold Rabs. destruct (Rcase_abs y); nra.
Qed.

End SpringEnergy.

(** ** Ground: the energy of the free field at a step of at most 1/30 s *)

Section FreeEnergy.

Import Ground SpringField.

Variable h : R.
Hypothesis Hh : 0 < h <= 1 / 30.

Local Abbreviation m := (4 * (h * h)).

(** A column that moves freely for one step in a potential of curvature at
    most 450 loses energy, at least [4 h^2] of its load. *)
Lemma free_step_dissipates (v g k : R) :
  0 <= k <= 450 ->
  let v' := v + (- g - 18 * v) * h in
  let du := v' * h in
  v' * v' / 2 + (g * du + k / 2 * (du * du))
  + m * (v' * v' / 2 + (g * g + 234900 * (du * du)) / 60)
  <= v * v / 2.
Proof.
  intros Hk v' du.
  set (a := 1 - 18 * h).
  set (w := h * g).
  set (C := k / 2 * (h * h) + 2 * (h * h) + 15660 * (h * h * (h * h))).
  assert (Hh2 : 0 <= h * h <= h / 30) by nra.
  assert (Hkh : 0 <= k * (h * h) <= 450 * (h * h)) by nra.
  assert (Hh4 : 0 <= h * h * (h * h) <= (h * h) / 900) by nra.
  assert (HC : 0 <= C <= 245 * (h * h)) by (unfold C; lra).
  assert (Ha : 0 <= a <= 1) by (unfold a; lra).
  assert (Ha2 : 0 <= a * a <= a) by nra.
  assert (HCa : C * (a * a) <= 245 * (h * h) * a).
  { apply Rle_trans with (C * a).
    - apply Rmult_le_compat_l; lra.
    - apply Rmult_le_compat_r; lra. }
  assert (Q : 0 <= 18 - 897 * h + 13230 * (h * h)).
  { pose proof (Rle_0_sqr (h - 299 / 8820)) as S. unfold Rsqr in S. lra. }
  assert (T0 : 0 <= (1 - a * a) / 2 - 3 * (C * (a * a))).
  { assert (E1 : (1 - a * a) / 2 = 18 * h - 162 * (h * h)) by (unfold a; lra).
    assert (E2 : 18 * h - 162 * (h * h) - 3 * (245 * (h * h) * a)
                 = h * (18 - 897 * h + 13230 * (h * h))) by (unfold a; ring).
    assert (P : 0 <= h * (18 - 897 * h + 13230 * (h * h)))
      by (apply Rmult_le_pos; lra).
    lra. }
  assert (T1 : 0 <= ((1 - a * a) / 2 - 3 * (C * (a * a))) * (v * v)).
  { apply Rmult_le_pos; [exact T0 | apply Rle_0_sqr]. }
  assert (T2 : 0 <= (13 / 30 - 3 / 2 * C) * (w * w)).
  { apply Rmult_le_pos; [lra | apply Rle_0_sqr]. }
  assert (T3 : 0 <= 2 * C * ((a * v + w / 2) * (a * v + w / 2))).
  { apply Rmult_le_pos; [lra | apply Rle_0_sqr]. }
  assert (E : v * v / 2
              - (v' * v' / 2 + (g * du + k / 2 * (du * du))
                 + m * (v' * v' / 2 + (g * g + 234900 * (du * du)) / 60))
              = ((1 - a * a) / 2 - 3 * (C * (a * a))) * (v * v)
                + (13 / 30 - 3 / 2 * C) * (w * w)
                + 2 * C * ((a * v + w / 2) * (a * v + w / 2))).
  { unfold du, v', C, w, a. field. }
  lra.
Qed.

(** The same with the clamp: the column starts in range, and the potential
    does not fall beyond either end of the range. *)
Lemma clamped_step_dissipates (y v g k : R) :
  inRange y -> 0 <= k <= 450 ->
  0 <= g + k * (60 - y) -> g + k * (- 18 - y) <= 0 ->
  let v' := v + (- g - 18 * v) * h in
  let z := Rmax (- MAX_OFFSET * (3 / 10)) (Rmin MAX_OFFSET (y + v' * h)) in
  v' * v' / 2 + (g * (z - y) + k / 2 * ((z - y) * (z - y)))
  + m * (v' * v' / 2 + (g * g + 234900 * ((z - y) * (z - y))) / 60)
  <= v * v / 2.
Proof.
  intros Hy Hk Hhi Hlo v' z.
  pose proof (free_step_dissipates v g k Hk) as F. cbv zeta in F. fold v' in F.
  unfold inRange, MAX_OFFSET in Hy.
  set (du := v' * h) in *.
  assert (Hz : (z = y + du /\ True) \/
               (z = 60 /\ 60 <= y + du) \/
               (z = - 18 /\ y + du <= - 18)).
  { unfold z, MAX_OFFSET.
    destruct (Rle_dec 60 (y + du)).
    - rewrite Rmin_left, Rmax_right by lra. right; left; split; lra.
    - rewrite Rmin_right by lra.
      destruct (Rle_dec (y + du) (- 18)).
      + rewrite Rmax_left by lra. right; right; split; lra.
      + rewrite Rmax_right by lra. left; split; auto. }
  destruct Hz as [[-> _] | [[-> Hb] | [-> Hb]]].
  - replace (y + du - y) with du by lra. exact F.
  - set (d := 60 - y) in *.
    assert (D0 : 0 <= d) by (unfold d; lra).
    assert (D1 : d <= du) by (unfold d; lra).
    assert (P1 : 0 <= (du - d) * (g + k * d)) by (apply Rmult_le_pos; lra).
    assert (P2 : 0 <= k * ((du - d) * (du - d))).
    { apply Rmult_le_pos; [lra|]. apply Rle_0_sqr. }
    assert (P3 : 0 <= m * ((du - d) * (du + d))).
    { apply Rmult_le_pos; [nra|]. apply Rmult_le_pos; lra. }
    lra.
  - set (d := - 18 - y) in *.
    assert (D0 : d <= 0) by (unfold d; lra).
    assert (D1 : du <= d) by (unfold d; lra).
    assert (P1 : 0 <= (d - du) * - (g + k * d)) by (apply Rmult_le_pos; lra).
    assert (P2 : 0 <= k * ((du - d) * (du - d))).
    { apply Rmult_le_pos; [lra|]. apply Rle_0_sqr. }
    assert (P3 : 0 <= m * ((d - du) * - (du + d))).
    { apply Rmult_le_pos; [nra|]. apply Rmult_le_pos; lra. }
    lra.
Qed.

(** The energy a column shares with its neighbours drops by its load. *)
Lemma col_energy (prev next : option R) (y v : R) :
  optInRange prev -> optInRange next -> inRange y ->
  let yL := leftOf prev y in
  let yR := match next with Some b => b | None => y end in
  let c := colStep h yL y yR v in
  snd c * snd c / 2 + localPot prev next (fst c)
  + m * (snd c * snd c / 2 + colLoad h yL y yR v / 60)
  <= v * v / 2 + localPot prev next y.
Proof.
  intros Hp Hn Hy yL yR c.
  set (g := pull yL y yR).
  set (k := STIFFNESS
            + match prev with Some _ => TENSION | None => 0 end
            + match next with Some _ => TENSION | None => 0 end).
  assert (Hk : 0 <= k <= 450).
  { unfold k, STIFFNESS, TENSION. destruct prev, next; lra. }
  assert (Hhi : 0 <= g + k * (60 - y)).
  { unfold g, k, pull, yL, yR, leftOf, STIFFNESS, TENSION.
    unfold inRange, MAX_OFFSET in Hy.
    destruct prev, next; simpl in Hp, Hn; unfold inRange, MAX_OFFSET in *; lra. }
  assert (Hlo : g + k * (- 18 - y) <= 0).
  { unfold g, k, pull, yL, yR, leftOf, STIFFNESS, TENSION.
    unfold inRange, MAX_OFFSET in Hy.
    destruct prev, next; simpl in Hp, Hn; unfold inRange, MAX_OFFSET in *; lra. }
  pose proof (clamped_step_dissipates y v g k Hy Hk Hhi Hlo) as D. cbv zeta in D.
  assert (Ev : v + (- g - 18 * v) * h = snd c).
  { unfold c, colStep, g, pull, TENSION, STIFFNESS, DAMPING; simpl. lra. }
  rewrite Ev in D.
  change (Rmax (- MAX_OFFSET * (3 / 10)) (Rmin MAX_OFFSET (y + snd c * h)))
    with (fst c) in D.
  assert (EP : localPot prev next (fst c) - localPot prev next y
               = g * (fst c - y) + k / 2 * ((fst c - y) * (fst c - y))).
  { unfold localPot, g, k, pull, yL, yR, leftOf, STIFFNESS, TENSION.
    destruct prev, next; lra. }
  unfold colLoad. fold c. fold g. cbv zeta. lra.
Qed.

Lemma freeSweep_inRange (prev : option R) (cols : list (R * R)) :
  Forall inRange (map fst (freeSweep h prev cols)).
Proof.
  revert prev; induction cols as [| [y v] rest IH]; intros prev; simpl.
  - constructor.
  - constructor; [apply clamp_inRange | apply IH].
Qed.

(** The sweep over a chain in range: what is left of the energy, and a
    2500th of the load on top, is at most the energy there was. *)
Lemma sweep_energy (cols : list (R * R)) (prev : option R) :
  optInRange prev -> Forall inRange (map fst cols) ->
  kinetic (map snd (freeSweep h prev cols))
  + potentialFrom prev (map fst (freeSweep h prev cols))
  + m * (kinetic (map snd (freeSweep h prev cols)) + sweepLoad h prev cols / 60)
  <= kinetic (map snd cols) + potentialFrom prev (map fst cols).
Proof.
  revert prev. induction cols as [| [y v] rest IH]; intros prev Hp Hr.
  - simpl. lra.
  - inversion Hr as [| ? ? Hy Hrest]; subst.
    cbn [freeSweep sweepLoad map fst snd kinetic potentialFrom].
    set (c := colStep h (leftOf prev y) y (rightOf rest y) v).
    assert (Hz : inRange (fst c)) by apply clamp_inRange.
    pose proof (IH (Some (fst c)) Hz Hrest) as I.
    assert (Hn : optInRange (headOf (map fst rest))).
    { destruct rest as [| [b w] r]; simpl; [exact Logic.I | ].
      inversion Hrest; assumption. }
    pose proof (col_energy prev (headOf (map fst rest)) y v Hp Hn Hy) as C.
    cbv zeta in C. rewrite <- rightOf_headOf in C. fold c in C.
    pose proof (potentialFrom_local (fst c) prev (map fst rest)) as E1.
    pose proof (potentialFrom_local y prev (map fst rest)) as E2.
    lra.
Qed.

Lemma headMove_nonneg (prev : option R) (cols : list (R * R)) :
  0 <= headMove h prev cols.
Proof.
  destruct cols as [| [y v] rest]; simpl; [lra|].
  match goal with |- 0 <= ?a * ?a => pose proof (Rle_0_sqr a) as S end.
  unfold Rsqr in S. exact S.
Qed.

(** The squared derivatives along the chain after the sweep, against the
    load of the sweep. *)
Lemma sweep_gradient (cols : list (R * R)) (prev : option R) :
  gradSq prev (map fst (freeSweep h prev cols)) + 3 * (32400 * headMove h prev cols)
  <= 3 * sweepLoad h prev cols.
Proof.
  revert prev. induction cols as [| [y v] rest IH]; intros prev.
  - simpl. lra.
  - cbn [freeSweep sweepLoad map fst gradSq headMove].
    set (c := colStep h (leftOf prev y) y (rightOf rest y) v).
    pose proof (IH (Some (fst c))) as I.
    unfold colLoad. fold c. cbv zeta.
    destruct rest as [| [b w] r].
    + cbn [freeSweep map headOf gradSq] in *.
      pose proof (gradAt_sq_bound prev y (fst c) None 0) as G. cbv zeta iota in G.
      cbn [rightOf] in *. fold c in G.
      simpl sweepLoad. lra.
    + cbn [freeSweep map fst headOf] in *.
      set (c1 := colStep h (leftOf (Some (fst c)) b) b (rightOf r b) w) in *.
      pose proof (gradAt_sq_bound prev y (fst c) (Some b) (fst c1 - b)) as G.
      cbv zeta iota in G. replace (b + (fst c1 - b)) with (fst c1) in G by lra.
      cbn [rightOf] in *. fold c in G.
      cbn [headMove] in I. fold c1 in I.
      cbn [gradSq headOf] in *.
      lra.
Qed.

(** One free substep of a chain in range divides the energy by at least
    [1 + 4 h^2]. *)
Lemma sweep_contracts (cols : list (R * R)) :
  Forall inRange (map fst cols) ->
  (1 + m) * (kinetic (map snd (freeSweep h None cols))
             + potential (map fst (freeSweep h None cols)))
  <= kinetic (map snd cols) + potential (map fst cols).
Proof.
  intros Hr.
  pose proof (sweep_energy cols None Logic.I Hr) as A.
  pose proof (sweep_gradient cols None) as B.
  pose proof (potential_le_gradSq (map fst (freeSweep h None cols))) as C.
  pose proof (headMove_nonneg None cols) as M.
  unfold potential in *.
  assert (P : 0 <= m * (sweepLoad h None cols / 60
                        - potentialFrom None (map fst (freeSweep h None cols)))).
  { apply Rmult_le_pos; [nra | lra]. }
  lra.
Qed.

Lemma substep_contracts (G : Ground) :
  wf G -> forceFree G -> Forall inRange (yOffset G) ->
  (1 + m) * energy (substep h G) <= energy G /\
  wf (substep h G) /\ forceFree (substep h G) /\
  Forall inRange (yOffset (substep h G)).
Proof.
  intros W F Hr.
  destruct (substep_inRange h G W) as (W' & _ & R').
  split; [|split; [exact W'|split; [|exact R']]].
  - rewrite (substep_free h G W F). unfold energy. cbn [yVel yOffset].
    destruct W as (H1 & H2 & _).
    pose proof (sweep_contracts (combine (yOffset G) (yVel G))) as C.
    rewrite map_fst_combine, map_snd_combine in C by congruence.
    apply C. exact Hr.
  - rewrite (substep_free h G W F). exact F.
Qed.

End FreeEnergy.

(** A ground at rest pressed for one tick: the state an impulse leaves. *)
Lemma impulse_state_in_range (n : nat) (dt depressionDepth : R) (playerX : option R) :
  let G := Ground.render (Ground.initial n) dt depressionDepth playerX in
  Ground.wf G /\ Forall Ground.inRange (Ground.yOffset G).
Proof.
  intros G. unfold G, Ground.render, Ground.integrate. cbv zeta.
  pose proof (computeForce_wf (Ground.initial n) depressionDepth
                (Ground.centerColOf (Ground.initial n) playerX) (initial_wf n)) as W1.
  destruct (substep_inRange (dt / 2) _ W1) as (W2 & _ & _).
  destruct (substep_inRange (dt / 2) _ W2) as (W3 & _ & R3).
  split; assumption.
Qed.

Section FreeRun.

Import Ground SpringField.

Variable playerX : option R.

Lemma stepGain_ge_1 (dt : R) : 1 + 2 * (dt * dt) <= stepGain dt.
Proof.
  unfold stepGain. pose proof (Rle_0_sqr dt) as S. unfold Rsqr in S.
  pose proof (Rle_0_sqr (dt * dt)) as S2. unfold Rsqr in S2. nra.
Qed.

(** A free tick at a step of at most 1/15 s divides the energy by at least
    [stepGain dt], and leaves a ground in range. *)
Lemma tickAt_contracts (dt : R) (G : Ground) :
  0 < dt <= 1 / 15 -> wf G -> Forall inRange (yOffset G) ->
  stepGain dt * energy (tickAt dt playerX G) <= energy G /\
  wf (tickAt dt playerX G) /\ Forall inRange (yOffset (tickAt dt playerX G)).
Proof.
  intros Hd W Hr. unfold tickAt, render, integrate. cbv zeta.
  set (G0 := computeForce G 0 (centerColOf G playerX)).
  destruct (computeForce_rest G (centerColOf G playerX)) as (F0 & Y0 & V0).
  fold G0 in F0, Y0, V0.
  assert (W0 : wf G0) by (apply computeForce_wf; exact W).
  assert (R0 : Forall inRange (yOffset G0)) by (rewrite Y0; exact Hr).
  assert (E0 : energy G0 = energy G) by (unfold energy; rewrite Y0, V0; reflexivity).
  assert (Hh : 0 < dt / 2 <= 1 / 30) by lra.
  destruct (substep_contracts (dt / 2) Hh G0 W0 F0 R0) as (E1 & W1 & F1 & R1).
  destruct (substep_contracts (dt / 2) Hh (substep (dt / 2) G0) W1 F1 R1)
    as (E2 & W2 & _ & R2).
  split; [|split; assumption].
  unfold stepGain.
  set (q := 1 + 4 * (dt / 2 * (dt / 2))) in *.
  assert (Hq : 0 <= q) by (unfold q; nra).
  pose proof (Rmult_le_compat_l q _ _ Hq E2) as E3.
  rewrite <- E0. lra.
Qed.

Lemma runGain_ge_1 (dts : list R) : 1 <= runGain dts.
Proof.
  induction dts as [| dt rest IH]; simpl; [lra|].
  pose proof (stepGain_ge_1 dt) as S.
  pose proof (Rle_0_sqr dt) as S2. unfold Rsqr in S2. nra.
Qed.

Lemma run_contracts (dts : list R) (G : Ground) :
  Forall (fun dt => 0 < dt <= 1 / 15) dts -> wf G -> Forall inRange (yOffset G) ->
  runGain dts * energy (run dts playerX G) <= energy G /\
  wf (run dts playerX G) /\ Forall inRange (yOffset (run dts playerX G)).
Proof.
  revert G. induction dts as [| dt rest IH]; intros G Hd W Hr.
  - simpl. split; [lra | split; assumption].
  - inversion Hd as [| ? ? Hdt Hrest]; subst.
    destruct (tickAt_contracts dt G Hdt W Hr) as (E1 & W1 & R1).
    destruct (IH (tickAt dt playerX G) Hrest W1 R1) as (E2 & W2 & R2).
    cbn [run runGain]. split; [|split; assumption].
    pose proof (stepGain_ge_1 dt) as S.
    pose proof (Rle_0_sqr dt) as S2. unfold Rsqr in S2.
    assert (Hs : 0 <= stepGain dt) by lra.
    pose proof (Rmult_le_compat_l _ _ _ Hs E2) as E3. lra.
Qed.

(** A run of steps of at least [dtMin] gains at least
    [1 + 2 dtMin^2] per tick, added up. *)
Lemma runGain_lower (dtMin : R) (dts : list R) :
  0 < dtMin -> Forall (fun dt => dtMin <= dt) dts ->
  1 + 2 * (dtMin * dtMin) * INR (length dts) <= runGain dts.
Proof.
  intros Hm Hd. induction Hd as [| dt rest Hdt Hrest IH].
  - simpl. lra.
  - cbn [runGain length]. rewrite S_INR.
    pose proof (stepGain_ge_1 dt) as S.
    pose proof (pos_INR (length rest)) as N.
    assert (D : dtMin * dtMin <= dt * dt) by nra.
    set (x := 2 * (dtMin * dtMin)) in *.
    assert (Hx : 0 <= x) by (unfold x; nra).
    assert (P1 : 0 <= x * INR (length rest)) by (apply Rmult_le_pos; assumption).
    assert (S' : 1 + x <= stepGain dt) by (unfold x; lra).
    assert (P2 : (1 + x) * (1 + x * INR (length rest))
                 <= stepGain dt * runGain rest).
    { apply Rmult_le_compat; lra. }
    assert (P3 : 0 <= x * (x * INR (length rest))) by (apply Rmult_le_pos; assumption).
    lra.
Qed.

(** The physics loop at full time scale: [ticks] is the run at [FIXED_DT]. *)
Lemma ticks_run (k : nat) (G : Ground) :
  ticks k playerX G = run (repeat FIXED_DT k) playerX G.
Proof.
  revert G. induction k as [| k IH]; intros G; [reflexivity|].
  cbn [ticks repeat run]. rewrite IH. reflexivity.
Qed.

Lemma runGain_fixed (k : nat) :
  runGain (repeat FIXED_DT k) = (1 + / 14400) ^ (2 * k).
Proof.
  induction k as [| k IH]; [simpl; lra|].
  cbn [repeat runGain]. rewrite IH.
  replace (2 * S k)%nat with (S (S (2 * k))) by lia.
  cbn [pow]. unfold stepGain, FIXED_DT. field.
Qed.

End FreeRun.

(** ** Ground: a step too large *)

Section LargeStep.

Import Ground SpringField.

(** At a substep of 1/8 s a column at the full depth that is not moving up
    is thrown to the top of the range, moving up at 675 px/s or more, and a
    column at the top moving up that fast is thrown back to the full
    depth. *)
Lemma colStep_from_depth (yL yR v : R) :
  inRange yL -> inRange yR -> 0 <= v ->
  fst (colStep (1 / 8) yL 60 yR v) = - 18 /\ snd (colStep (1 / 8) yL 60 yR v) <= - 675.
Proof.
  unfold inRange, colStep, MAX_OFFSET, TENSION, STIFFNESS, DAMPING. intros HL HR Hv.
  cbv zeta. cbn [fst snd]. split; [|lra].
  rewrite Rmin_right by lra. rewrite Rmax_left by lra. lra.
Qed.

Lemma colStep_from_top (yL yR v : R) :
  inRange yL -> inRange yR -> v <= - 675 ->
  fst (colStep (1 / 8) yL (- 18) yR v) = 60 /\ 0 <= snd (colStep (1 / 8) yL (- 18) yR v).
Proof.
  unfold inRange, colStep, MAX_OFFSET, TENSION, STIFFNESS, DAMPING. intros HL HR Hv.
  cbv zeta. cbn [fst snd]. split; [|lra].
  rewrite Rmin_left by lra. rewrite Rmax_right by lra. reflexivity.
Qed.

Lemma rightOf_inRange (rest : list (R * R)) (y : R) :
  inRange y -> Forall (fun c => inRange (fst c)) rest -> inRange (rightOf rest y).
Proof.
  intros Hy Hr. destruct rest as [| [b w] r]; simpl; [exact Hy|].
  inversion Hr; assumption.
Qed.

Lemma leftOf_inRange (prev : option R) (y : R) :
  inRange y -> optInRange prev -> inRange (leftOf prev y).
Proof. intros Hy Hp. destruct prev; simpl; assumption. Qed.

Lemma sweep_from_depth (prev : option R) (cols : list (R * R)) :
  optInRange prev -> Forall (fun c => fst c = 60 /\ 0 <= snd c) cols ->
  Forall (fun c => fst c = - 18 /\ snd c <= - 675) (freeSweep (1 / 8) prev cols).
Proof.
  revert prev. induction cols as [| [y v] rest IH]; intros prev Hp Hc.
  - constructor.
  - inversion Hc as [| ? ? [Hy Hv] Hrest]; subst. simpl in Hy, Hv. subst y.
    assert (I60 : inRange 60) by (unfold inRange, MAX_OFFSET; lra).
    assert (HR : inRange (rightOf rest 60)).
    { apply rightOf_inRange; [exact I60|].
      eapply Forall_impl; [|exact Hrest]. intros c [E _]. rewrite E. exact I60. }
    destruct (colStep_from_depth (leftOf prev 60) (rightOf rest 60) v
                (leftOf_inRange prev 60 I60 Hp) HR Hv) as (E1 & E2).
    cbn [freeSweep]. constructor; [split; assumption|].
    apply IH; [|exact Hrest]. rewrite E1. simpl. unfold inRange, MAX_OFFSET. lra.
Qed.

Lemma sweep_from_top (prev : option R) (cols : list (R * R)) :
  optInRange prev -> Forall (fun c => fst c = - 18 /\ snd c <= - 675) cols ->
  Forall (fun c => fst c = 60 /\ 0 <= snd c) (freeSweep (1 / 8) prev cols).
Proof.
  revert prev. induction cols as [| [y v] rest IH]; intros prev Hp Hc.
  - constructor.
  - inversion Hc as [| ? ? [Hy Hv] Hrest]; subst. simpl in Hy, Hv. subst y.
    assert (I18 : inRange (- 18)) by (unfold inRange, MAX_OFFSET; lra).
    assert (HR : inRange (rightOf rest (- 18))).
    { apply rightOf_inRange; [exact I18|].
      eapply Forall_impl; [|exact Hrest]. intros c [E _]. rewrite E. exact I18. }
    destruct (colStep_from_top (leftOf prev (- 18)) (rightOf rest (- 18)) v
                (leftOf_inRange prev (- 18) I18 Hp) HR Hv) as (E1 & E2).
    cbn [freeSweep]. constructor; [split; assumption|].
    apply IH; [|exact Hrest]. rewrite E1. simpl. unfold inRange, MAX_OFFSET. lra.
Qed.

Lemma Forall_combine (P Q : R -> Prop) (ys vs : list R) :
  Forall P ys -> Forall Q vs ->
  Forall (fun c => P (fst c) /\ Q (snd c)) (combine ys vs).
Proof.
  intros Hy. revert vs. induction Hy as [| y ys Py Hys IH]; intros vs Hv.
  - constructor.
  - destruct Hv as [| v vs Qv Hvs]; simpl; constructor; auto.
Qed.

Lemma Forall_split (P Q : R -> Prop) (cols : list (R * R)) :
  Forall (fun c => P (fst c) /\ Q (snd c)) cols ->
  Forall P (map fst cols) /\ Forall Q (map snd cols).
Proof.
  intros H. induction H as [| c cols [Pc Qc] Hc [IH1 IH2]]; simpl; split; constructor; auto.
Qed.

(** A free substep of 1/8 s on a ground with every column at the full
    depth, none moving up; and on one with every column at the top, all
    moving up fast. *)
Lemma substep_from_depth (G : Ground) :
  wf G -> forceFree G ->
  Forall (fun y => y = 60) (yOffset G) -> Forall (fun v => 0 <= v) (yVel G) ->
  let G' := substep (1 / 8) G in
  wf G' /\ forceFree G' /\
  Forall (fun y => y = - 18) (yOffset G') /\ Forall (fun v => v <= - 675) (yVel G').
Proof.
  intros W F Hy Hv G'.
  destruct (substep_inRange (1 / 8) G W) as (W' & _ & _).
  unfold G' in *. rewrite (substep_free (1 / 8) G W F) in *.
  split; [exact W'|]. split; [exact F|].
  apply Forall_split. apply sweep_from_depth; [exact Logic.I|].
  apply (Forall_combine (fun y => y = 60) (fun v => 0 <= v)); assumption.
Qed.

Lemma substep_from_top (G : Ground) :
  wf G -> forceFree G ->
  Forall (fun y => y = - 18) (yOffset G) -> Forall (fun v => v <= - 675) (yVel G) ->
  let G' := substep (1 / 8) G in
  wf G' /\ forceFree G' /\
  Forall (fun y => y = 60) (yOffset G') /\ Forall (fun v => 0 <= v) (yVel G').
Proof.
  intros W F Hy Hv G'.
  destruct (substep_inRange (1 / 8) G W) as (W' & _ & _).
  unfold G' in *. rewrite (substep_free (1 / 8) G W F) in *.
  split; [exact W'|]. split; [exact F|].
  apply Forall_split. apply sweep_from_top; [exact Logic.I|].
  apply (Forall_combine (fun y => y = - 18) (fun v => v <= - 675)); assumption.
Qed.

(** A free tick of 1/4 s returns such a ground to the full depth. *)
Lemma tickAt_bounces (playerX : option R) (G : Ground) :
  wf G -> Forall (fun y => y = 60) (yOffset G) -> Forall (fun v => 0 <= v) (yVel G) ->
  let G' := tickAt (1 / 4) playerX G in
  wf G' /\ Forall (fun y => y = 60) (yOffset G') /\ Forall (fun v => 0 <= v) (yVel G').
Proof.
  intros W Hy Hv. unfold tickAt, render, integrate. cbv zeta.
  set (G0 := computeForce G 0 (centerColOf G playerX)).
  destruct (computeForce_rest G (centerColOf G playerX)) as (F0 & Y0 & V0).
  fold G0 in F0, Y0, V0.
  assert (W0 : wf G0) by (apply computeForce_wf; exact W).
  rewrite <- Y0 in Hy. rewrite <- V0 in Hv.
  replace (1 / 4 / 2) with (1 / 8) by lra.
  destruct (substep_from_depth G0 W0 F0 Hy Hv) as (W1 & F1 & Y1 & V1).
  destruct (substep_from_top _ W1 F1 Y1 V1) as (W2 & _ & Y2 & V2).
  split; [exact W2 | split; assumption].
Qed.

End LargeStep.

(** Rendered at steps of 1/4 s, the frame delta of a stalled frame
    ([MAX_FRAME_DT]; the death animation passes the delta to [render] as it
    comes), a free ground pressed to the full depth is thrown to the top of
    the range and back within every tick, and is found at the full depth
    after every tick. *)
Lemma large_step_ground_keeps_bouncing (k : nat) :
  Ground.yOffset (SpringField.run (repeat (1 / 4) k) None pressedGround) = [60; 60; 60; 60; 60].
Proof.
  assert (H : forall G,
             Ground.wf G -> Forall (fun y => y = 60) (Ground.yOffset G) ->
             Forall (fun v => 0 <= v) (Ground.yVel G) ->
             Forall (fun y => y = 60)
                    (Ground.yOffset (SpringField.run (repeat (1 / 4) k) None G)) /\
             Ground.wf (SpringField.run (repeat (1 / 4) k) None G)).
  { induction k as [| k IH]; intros G W Hy Hv.
    - simpl. split; assumption.
    - cbn [repeat SpringField.run].
      destruct (tickAt_bounces None G W Hy Hv) as (W1 & Y1 & V1).
      apply IH; assumption. }
  destruct (H pressedGround) as (Hy & (W & _ & _)).
  - unfold Ground.wf; simpl. auto.
  - unfold pressedGround; simpl. repeat constructor.
  - unfold pressedGround; simpl. repeat constructor; lra.
  - remember (SpringField.run (repeat (1 / 4) k) None pressedGround) as G' eqn:EG.
    assert (L : length (Ground.yOffset G') = 5%nat).
    { rewrite W. rewrite EG. clear.
      assert (B : forall G,
                 Ground.BLOCKS_PER_ROW (SpringField.run (repeat (1 / 4) k) None G)
                 = Ground.BLOCKS_PER_ROW G).
      { induction k as [| k IH]; intros G; [reflexivity|].
        cbn [repeat SpringField.run]. rewrite IH.
        unfold SpringField.tickAt, Ground.render, Ground.integrate. cbv zeta.
        unfold Ground.substep.
        assert (S : forall cols G1, Ground.BLOCKS_PER_ROW
                      (fold_left (Ground.stepColumn (1 / 4 / 2)) cols G1)
                    = Ground.BLOCKS_PER_ROW G1).
        { induction cols as [| c cols IHc]; intros G1; [reflexivity|].
          simpl. rewrite IHc. reflexivity. }
        rewrite !S. reflexivity. }
      rewrite B. reflexivity. }
    destruct (Ground.yOffset G') as [| a [| b [| c [| d [| e [| f r]]]]]];
      simpl in L; try discriminate.
    repeat match goal with H : Forall _ (_ :: _) |- _ => inversion H; clear H; subst end.
    reflexivity.
Qed.

(** With STIFFNESS 90 and DAMPING 18 the column spring is under-damped,
    [18 * 18 = 324 < 360 = 4 * 90]. *)
Lemma ground_springs_under_damped :
  ~ SpringField.criticallyOrOverDamped Ground.STIFFNESS Ground.DAMPING.
Proof.
  unfold SpringField.criticallyOrOverDamped, Ground.STIFFNESS, Ground.DAMPING. lra.
Qed.

(** C10, as stated, fails on the regime, and on the decay where the step
    is large: the column spring is under-damped; and at steps of 1/4 s the
    offsets of the pressed ground are 60 px after every tick, never within
    0.5 px of 0. *)
Lemma ground_decay_fails_as_stated :
  ~ SpringField.criticallyOrOverDamped Ground.STIFFNESS Ground.DAMPING /\
  forall k,
    Ground.yOffset (SpringField.run (repeat (1 / 4) k) None pressedGround)
    = [60; 60; 60; 60; 60].
Proof.
  split; [exact ground_springs_under_damped | exact large_step_ground_keeps_bouncing].
Qed.

(** C10 (amended). From any ground state whose offsets are in range, as
    every state produced by [render] is, and with no compression on the
    ticks that follow, whatever their steps up to 1/15 s (the fixed step of
    1/120 s scaled by a time scale of at most 1, or a frame delta at 15
    frames a second or more): the spring energy never rises, and after a run
    it is at most the energy at the start divided by the gain of the run, a
    factor [(1 + dt^2)^2] for each tick of step [dt]; once that bound is at
    most 45/4 every column offset is within 0.5 px of 0; with steps of at
    least [dtMin] this holds after every run of at least
    [(energy / (45/4) - 1) / (2 dtMin^2)] ticks, so there is a tick count
    from which on it holds; at the fixed step the energy after [k] ticks is
    at most [(1 + 1/14400)^(-2k)] of the energy at the start.  The decay is
    that of an under-damped spring, not of a critically or over-damped
    one. *)
Theorem free_ground_offsets_decay (playerX : option R) (G : Ground.Ground) :
  Ground.wf G -> Forall Ground.inRange (Ground.yOffset G) ->
  (forall dt, 0 < dt <= 1 / 15 ->
     SpringField.energy (SpringField.tickAt dt playerX G) <= SpringField.energy G) /\
  (forall dts, Forall (fun dt => 0 < dt <= 1 / 15) dts ->
     SpringField.runGain dts * SpringField.energy (SpringField.run dts playerX G)
     <= SpringField.energy G /\
     (SpringField.energy G <= 45 / 4 * SpringField.runGain dts ->
      Forall (fun y => Rabs y <= 1 / 2) (Ground.yOffset (SpringField.run dts playerX G)))) /\
  (forall dtMin dts, 0 < dtMin ->
     Forall (fun dt => dtMin <= dt <= 1 / 15) dts ->
     SpringField.energy G <= 45 / 4 * (1 + 2 * (dtMin * dtMin) * INR (length dts)) ->
     Forall (fun y => Rabs y <= 1 / 2) (Ground.yOffset (SpringField.run dts playerX G))) /\
  (forall dtMin, 0 < dtMin ->
     exists k0, forall dts,
       Forall (fun dt => dtMin <= dt <= 1 / 15) dts -> (k0 <= length dts)%nat ->
       Forall (fun y => Rabs y <= 1 / 2) (Ground.yOffset (SpringField.run dts playerX G))) /\
  (forall k,
     (1 + / 14400) ^ (2 * k) * SpringField.energy (SpringField.ticks k playerX G)
     <= SpringField.energy G) /\
  Ground.DAMPING * Ground.DAMPING < 4 * Ground.STIFFNESS.
Proof.
  intros W Hr.
  pose proof (energy_nonneg G) as E0.
  assert (A : forall dts, Forall (fun dt => 0 < dt <= 1 / 15) dts ->
     SpringField.runGain dts * SpringField.energy (SpringField.run dts playerX G)
     <= SpringField.energy G /\
     (SpringField.energy G <= 45 / 4 * SpringField.runGain dts ->
      Forall (fun y => Rabs y <= 1 / 2) (Ground.yOffset (SpringField.run dts playerX G)))).
  { intros dts Hd.
    destruct (run_contracts playerX dts G Hd W Hr) as (E & _ & _).
    split; [exact E|]. intros Hs. apply small_energy_small_offsets.
    pose proof (runGain_ge_1 dts) as P.
    apply (Rmult_le_reg_l (SpringField.runGain dts)); [lra|]. lra. }
  assert (B : forall dtMin dts, 0 < dtMin ->
     Forall (fun dt => dtMin <= dt <= 1 / 15) dts ->
     SpringField.energy G <= 45 / 4 * (1 + 2 * (dtMin * dtMin) * INR (length dts)) ->
     Forall (fun y => Rabs y <= 1 / 2) (Ground.yOffset (SpringField.run dts playerX G))).
  { intros dtMin dts Hm Hd Hs.
    assert (Hd1 : Forall (fun dt => 0 < dt <= 1 / 15) dts).
    { eapply Forall_impl; [|exact Hd]. simpl. intros; lra. }
    assert (Hd2 : Forall (fun dt => dtMin <= dt) dts).
    { eapply Forall_impl; [|exact Hd]. simpl. intros; lra. }
    apply (proj2 (A dts Hd1)).
    pose proof (runGain_lower dtMin dts Hm Hd2). lra. }
  split.
  { intros dt Hd.
    destruct (tickAt_contracts playerX dt G Hd W Hr) as (E & _ & _).
    pose proof (stepGain_ge_1 dt) as S.
    pose proof (energy_nonneg (SpringField.tickAt dt playerX G)) as E1.
    pose proof (Rle_0_sqr dt) as S2. unfold Rsqr in S2. nra. }
  split; [exact A|]. split; [exact B|].
  split.
  { intros dtMin Hm.
    set (c := 2 * (dtMin * dtMin)).
    assert (Hc : 0 < c) by (unfold c; nra).
    destruct (archimed (SpringField.energy G / (45 / 4) / c)) as [Ha _].
    set (z := up (SpringField.energy G / (45 / 4) / c)) in *.
    exists (Z.to_nat z). intros dts Hd Hk.
    apply (B dtMin dts Hm Hd). fold c.
    assert (Hz : IZR z <= INR (length dts)).
    { destruct (Z.le_gt_cases 0 z) as [Hz | Hz].
      - rewrite <- (Z2Nat.id z Hz), <- INR_IZR_INZ. apply le_INR. exact Hk.
      - apply Rle_trans with 0; [apply IZR_le; lia | apply pos_INR]. }
    assert (Hq : SpringField.energy G / (45 / 4) < c * INR (length dts)).
    { apply Rlt_le_trans with (c * IZR z).
      - apply (Rmult_lt_reg_r (/ c)); [apply Rinv_0_lt_compat; lra|].
        replace (c * IZR z * / c) with (IZR z) by (field; lra).
        exact Ha.
      - apply Rmult_le_compat_l; lra. }
    unfold Rdiv in Hq. lra. }
  split; [|unfold Ground.DAMPING, Ground.STIFFNESS; lra].
  intros k. rewrite ticks_run, <- runGain_fixed.
  apply A. clear. induction k; simpl; constructor; auto.
  unfold SpringField.FIXED_DT. lra.
Qed.

(** The dented ground comes to rest, at half the time scale or more. *)
Lemma free_ground_decay_witness :
  exists k0, forall dts,
    Forall (fun dt => 1 / 240 <= dt <= 1 / 15) dts -> (k0 <= length dts)%nat ->
    Forall (fun y => Rabs y <= 1 / 2) (Ground.yOffset (SpringField.run dts None dentedGround)).
Proof.
  refine (proj1 (proj2 (proj2 (proj2
            (free_ground_offsets_decay None dentedGround _ _)))) (1 / 240) _).
  - unfold Ground.wf; simpl. auto.
  - unfold dentedGround; simpl.
    repeat constructor; unfold Ground.inRange, Ground.MAX_OFFSET; lra.
  - lra.
Defined.

(** * Further properties of the code *)

(** ** SlimeHealthManager: bookkeeping, damage and death *)

Section HealthProps.

Import Health HealthManager.

Lemma die_consistent (hm : SlimeHealthManager) :
  invincible hm = false -> 0 < maxHealth hm -> consistent (die hm).
Proof.
  intros Hi Hm. unfold die, consistent. rewrite Hi. simpl.
  repeat split; auto; lra.
Qed.

Lemma takeDamage_consistent (hm : SlimeHealthManager) (d : R) :
  consistent hm -> consistent (takeDamage hm d).
Proof.
  intros H. pose proof H as (Hm & Hc & Hd). unfold takeDamage.
  destruct (isDead hm) eqn:Ed; simpl; [exact H|].
  destruct (invincible hm) eqn:Ei; simpl; [exact H|].
  destruct (JS.leb d 0) eqn:E0; [exact H|].
  apply leb_false in E0.
  destruct (JS.leb (Rmax 0 (currentHealth hm - d)) 0) eqn:E1.
  - apply die_consistent; simpl; auto.
  - apply leb_false in E1. unfold consistent; simpl.
    assert (Rmax 0 (currentHealth hm - d) <= maxHealth hm)
      by (apply Rmax_lub; lra).
    split; [lra|]. split; [lra|].
    split; [discriminate | intros; lra].
Qed.

Lemma onLanding_consistent (hm : SlimeHealthManager) (hp : R) (r : Rating) (lk : bool) :
  consistent hm -> consistent (onLanding hm hp r lk).
Proof.
  intros H. pose proof H as (Hm & Hc & Hd). unfold onLanding.
  destruct (isDead hm) eqn:Ed; simpl; [exact H|].
  destruct (invincible hm) eqn:Ei; simpl; [exact H|].
  destruct (lk && JS.gtb (hp / PIXELS_PER_METER hm) SAFE_ZONE_METERS).
  - apply die_consistent; assumption.
  - destruct (Rating_eqb r PERFECT); [exact H|].
    destruct (JS.leb _ _); [exact H|].
    destruct (Rating_eqb r NORMAL); [|exact H].
    apply takeDamage_consistent, H.
Qed.

(** The health left by [takeDamage] on a live, vulnerable slime. *)
Lemma takeDamage_health (hm : SlimeHealthManager) (d : R) :
  isDead hm = false -> invincible hm = false -> 0 < d ->
  currentHealth (takeDamage hm d) = Rmax 0 (currentHealth hm - d) /\
  (isDead (takeDamage hm d) = true <-> currentHealth hm <= d).
Proof.
  intros Hd Hi H0. unfold takeDamage. rewrite Hd, Hi. simpl.
  rewrite (proj2 (leb_false _ _) H0).
  destruct (JS.leb (Rmax 0 (currentHealth hm - d)) 0) eqn:E.
  - apply leb_true in E. unfold die; simpl.
    pose proof (Rmax_l 0 (currentHealth hm - d)).
    pose proof (Rmax_r 0 (currentHealth hm - d)).
    split; [lra|]. split; [intros; lra | reflexivity].
  - apply leb_false in E. simpl. split; [reflexivity|].
    split; [discriminate|].
    intros Hle. rewrite Rmax_left in E; lra.
Qed.

(** No operation that reports a landing or a hit raises the health. *)
Lemma takeDamage_health_bounds (hm : SlimeHealthManager) (d : R) :
  0 <= currentHealth hm ->
  0 <= currentHealth (takeDamage hm d) <= currentHealth hm.
Proof.
  intros Hc. unfold takeDamage.
  destruct (isDead hm || invincible hm || JS.leb d 0) eqn:E; [lra|].
  apply orb_false_elim in E. destruct E as [_ E]. apply leb_false in E.
  destruct (JS.leb _ 0) eqn:E1; simpl.
  - unfold die; simpl. destruct (invincible hm); simpl; [|lra].
    apply leb_true in E1. simpl in E1.
    pose proof (Rmax_l 0 (currentHealth hm - d)). lra.
  - split; [apply Rmax_l | apply Rmax_lub; lra].
Qed.

Lemma onLanding_health_bounds (hm : SlimeHealthManager) (hp : R) (r : Rating) (lk : bool) :
  0 <= currentHealth hm ->
  0 <= currentHealth (onLanding hm hp r lk) <= currentHealth hm.
Proof.
  intros Hc. unfold onLanding.
  destruct (isDead hm || invincible hm) eqn:E; [lra|].
  apply orb_false_elim in E. destruct E as [_ Ei].
  destruct (lk && _).
  - unfold die. rewrite Ei. simpl. lra.
  - destruct (Rating_eqb r PERFECT); [lra|].
    destruct (JS.leb _ _); [lra|].
    destruct (Rating_eqb r NORMAL); [|lra].
    apply takeDamage_health_bounds, Hc.
Qed.

(** The damage between the safe zone and the instant-death height. *)
Lemma calculateDamage_linear (hm : SlimeHealthManager) (m : R) :
  100 < m < 1000 -> calculateDamage hm m = (m - 100) / 9.
Proof.
  intros H. unfold calculateDamage, SAFE_ZONE_METERS, INSTANT_DEATH_METERS.
  rewrite (proj2 (leb_false _ _)) by lra.
  rewrite (proj2 (geb_false _ _)) by lra.
  cbv zeta.
  rewrite Rmax_right by lra. rewrite Rmin_right by lra. lra.
Qed.

Lemma calculateDamage_instant (hm : SlimeHealthManager) (m : R) :
  1000 <= m -> calculateDamage hm m = currentHealth hm.
Proof.
  intros H. unfold calculateDamage, SAFE_ZONE_METERS, INSTANT_DEATH_METERS.
  rewrite (proj2 (leb_false _ _)) by lra.
  rewrite (proj2 (geb_true _ _)) by lra. reflexivity.
Qed.

(** The health left by a landing of a live, vulnerable slime with health. *)
Lemma onLanding_health (hm : SlimeHealthManager) (hp : R) (r : Rating) (lk : bool) :
  isDead hm = false -> invincible hm = false -> 0 < currentHealth hm ->
  let m := heightMetersOf hm hp in
  currentHealth (onLanding hm hp r lk) =
    if JS.leb m 100 then currentHealth hm
    else if lk then 0
    else match r with
         | NORMAL =>
             if JS.geb m 1000 then 0
             else Rmax 0 (currentHealth hm - (m - 100) / 9)
         | _ => currentHealth hm
         end.
Proof.
  intros Hd Hi Hc m. unfold onLanding. rewrite Hd, Hi. simpl.
  fold (heightMetersOf hm hp). fold m. unfold SAFE_ZONE_METERS.
  destruct (JS.leb m 100) eqn:E.
  - apply leb_true in E. rewrite (proj2 (gtb_false _ _)) by lra.
    rewrite andb_false_r. destruct r; reflexivity.
  - apply leb_false in E. rewrite (proj2 (gtb_true _ _)) by lra.
    rewrite andb_true_r. destruct lk.
    + unfold die. rewrite Hi. reflexivity.
    + destruct r; simpl; try reflexivity.
      destruct (JS.geb m 1000) eqn:E2.
      * apply geb_true in E2. rewrite calculateDamage_instant by assumption.
        destruct (takeDamage_health hm (currentHealth hm) Hd Hi Hc) as [-> _].
        rewrite Rmax_left; lra.
      * apply geb_false in E2. rewrite calculateDamage_linear by lra.
        assert (0 < (m - 100) / 9) by lra.
        destruct (takeDamage_health hm ((m - 100) / 9) Hd Hi H) as [-> _].
        reflexivity.
Qed.

End HealthProps.

(** X1. The bookkeeping of the health manager is kept by every operation:
    after a landing, a hit, a reset, a change of invincibility or a frame
    update the health still lies between 0 and the maximum, and the slime
    is marked dead exactly when its health is 0. *)
Theorem health_bookkeeping_stays_consistent (hm : Health.SlimeHealthManager) :
  HealthManager.consistent hm ->
  (forall heightPixels rating holdLockout,
     HealthManager.consistent (Health.onLanding hm heightPixels rating holdLockout)) /\
  (forall damage, HealthManager.consistent (Health.takeDamage hm damage)) /\
  HealthManager.consistent (HealthManager.reset hm) /\
  (forall enabled, HealthManager.consistent (HealthManager.setInvincible enabled hm)) /\
  (forall dt, HealthManager.consistent (HealthManager.update dt hm)).
Proof.
  intros H. pose proof H as (Hm & Hc & Hd).
  split; [intros; apply onLanding_consistent, H|].
  split; [intros; apply takeDamage_consistent, H|].
  split.
  { unfold HealthManager.consistent, HealthManager.reset; simpl.
    split; [lra|]. split; [lra|]. split; [discriminate | intros; lra]. }
  split.
  - intros [|]; unfold HealthManager.consistent, HealthManager.setInvincible; simpl.
    + split; [lra|]. split; [lra|]. split; [discriminate | intros; lra].
    + exact H.
  - intros dt. exact H.
Qed.

(** The manager as the constructor builds it is consistent, and so is every
    state reached from it. *)
Lemma health_bookkeeping_witness :
  (forall heightPixels rating holdLockout,
     HealthManager.consistent
       (Health.onLanding (Health.initial 50) heightPixels rating holdLockout)) /\
  (forall damage,
     HealthManager.consistent (Health.takeDamage (Health.initial 50) damage)) /\
  HealthManager.consistent (HealthManager.reset (Health.initial 50)) /\
  (forall enabled,
     HealthManager.consistent (HealthManager.setInvincible enabled (Health.initial 50))) /\
  (forall dt, HealthManager.consistent (HealthManager.update dt (Health.initial 50))).
Proof.
  apply (health_bookkeeping_stays_consistent (Health.initial 50)).
  unfold HealthManager.consistent; simpl.
  split; [lra|]. split; [lra|]. split; [discriminate | intros; lra].
Defined.

(** X2. A fall from higher never leaves more health: for one and the same
    manager, rating and lockout flag, the health left after a landing does
    not increase with the fall height. *)
Theorem higher_fall_never_leaves_more_health
    (hm : Health.SlimeHealthManager) (h1 h2 : R) (rating : Rating) (holdLockout : bool) :
  0 < Health.PIXELS_PER_METER hm -> 0 <= Health.currentHealth hm -> h1 <= h2 ->
  Health.currentHealth (Health.onLanding hm h2 rating holdLockout) <=
  Health.currentHealth (Health.onLanding hm h1 rating holdLockout).
Proof.
  intros Hp Hc Hh.
  destruct (Health.isDead hm) eqn:Hd.
  { unfold Health.onLanding. rewrite Hd. simpl. lra. }
  destruct (Health.invincible hm) eqn:Hi.
  { unfold Health.onLanding. rewrite Hd, Hi. simpl. lra. }
  destruct (Req_dec_T (Health.currentHealth hm) 0) as [Hz | Hz].
  { (* no health to lose *)
    pose proof (onLanding_health_bounds hm h1 rating holdLockout Hc).
    pose proof (onLanding_health_bounds hm h2 rating holdLockout Hc).
    lra. }
  assert (Hpos : 0 < Health.currentHealth hm) by lra.
  rewrite !onLanding_health by assumption. cbv zeta.
  assert (Hm : HealthManager.heightMetersOf hm h1 <= HealthManager.heightMetersOf hm h2).
  { unfold HealthManager.heightMetersOf, Rdiv.
    apply Rmult_le_compat_r; [|exact Hh].
    left. apply Rinv_0_lt_compat, Hp. }
  set (m1 := HealthManager.heightMetersOf hm h1) in *.
  set (m2 := HealthManager.heightMetersOf hm h2) in *.
  destruct (JS.leb m2 100) eqn:E2.
  - apply leb_true in E2. rewrite (proj2 (leb_true m1 100)) by lra. lra.
  - apply leb_false in E2.
    destruct (JS.leb m1 100) eqn:E1.
    + destruct holdLockout; [lra|].
      destruct rating; try lra.
      destruct (JS.geb m2 1000); [lra|].
      apply Rmax_lub; lra.
    + apply leb_false in E1.
      destruct holdLockout; [lra|].
      destruct rating; try lra.
      destruct (JS.geb m2 1000) eqn:G2.
      * destruct (JS.geb m1 1000); [lra | apply Rmax_l].
      * apply geb_false in G2. rewrite (proj2 (geb_false m1 1000)) by lra.
        apply Rmax_lub; [apply Rmax_l|].
        eapply Rle_trans; [|apply Rmax_r]. lra.
Qed.

(** A NORMAL landing from 300 m costs no less than one from 200 m. *)
Lemma higher_fall_witness :
  Health.currentHealth (Health.onLanding (Health.initial 50) 15000 NORMAL false) <=
  Health.currentHealth (Health.onLanding (Health.initial 50) 10000 NORMAL false).
Proof.
  apply (higher_fall_never_leaves_more_health (Health.initial 50) 10000 15000 NORMAL false);
    simpl; lra.
Defined.

(** X3. When a landing kills: a live, vulnerable slime with health left
    dies on landing exactly when it fell from above the 100 m safe zone and
    either the hold lockout was set, or the landing was rated NORMAL and the
    fall was from 1000 m or more or its linear damage [(m - 100) / 9]
    uses up the health.  A PERFECT or FAILED landing without lockout never
    kills. *)
Theorem landing_kills_exactly_when
    (hm : Health.SlimeHealthManager) (heightPixels : R) (rating : Rating)
    (holdLockout : bool) :
  Health.isDead hm = false -> Health.invincible hm = false ->
  0 < Health.currentHealth hm ->
  let m := HealthManager.heightMetersOf hm heightPixels in
  Health.isDead (Health.onLanding hm heightPixels rating holdLockout) = true <->
  100 < m /\
  (holdLockout = true \/
   (rating = NORMAL /\ (1000 <= m \/ Health.currentHealth hm <= (m - 100) / 9))).
Proof.
  intros Hd Hi Hc m. unfold Health.onLanding. rewrite Hd, Hi. simpl.
  fold (HealthManager.heightMetersOf hm heightPixels). fold m.
  unfold Health.SAFE_ZONE_METERS.
  destruct (JS.leb m 100) eqn:E.
  - apply leb_true in E. rewrite (proj2 (gtb_false _ _)) by lra.
    rewrite andb_false_r.
    assert (Health.isDead (if Rating_eqb rating PERFECT then hm else hm) = false)
      as X by (destruct (Rating_eqb rating PERFECT); exact Hd).
    rewrite X. split; [discriminate | intros [? _]; lra].
  - apply leb_false in E. rewrite (proj2 (gtb_true _ _)) by lra.
    rewrite andb_true_r. destruct holdLockout.
    + unfold Health.die. rewrite Hi. simpl. split; auto.
    + destruct rating; simpl.
      * rewrite Hd. split; [discriminate|].
        intros [_ [? | [? _]]]; discriminate.
      * destruct (Rle_dec 1000 m) as [G | G].
        -- rewrite calculateDamage_instant by assumption.
           destruct (takeDamage_health hm (Health.currentHealth hm) Hd Hi Hc) as [_ K].
           split; [auto|]. intros _. apply K. lra.
        -- rewrite calculateDamage_linear by lra.
           assert (P : 0 < (m - 100) / 9) by lra.
           destruct (takeDamage_health hm ((m - 100) / 9) Hd Hi P) as [_ K].
           rewrite K. split; [auto|].
           intros [_ [? | [_ [? | ?]]]]; [discriminate | lra | assumption].
      * rewrite Hd. split; [discriminate|].
        intros [_ [? | [? _]]]; discriminate.
Qed.

(** A NORMAL landing from 1200 m at full health. *)
Lemma landing_kills_witness :
  Health.isDead (Health.onLanding (Health.initial 50) 60000 NORMAL false) = true.
Proof.
  apply (landing_kills_exactly_when (Health.initial 50) 60000 NORMAL false);
    simpl; try reflexivity; try lra.
  unfold HealthManager.heightMetersOf; simpl.
  split; [lra|]. right. split; [reflexivity|]. left. lra.
Defined.

(** ** Slime.approach *)

Lemma exp_neg_unit (dt tau : R) : 0 <= dt -> 0 < tau -> 0 < exp (- dt / tau) <= 1.
Proof.
  intros Hd Ht. split; [apply exp_pos|].
  replace (- dt / tau) with (- (dt / tau)) by (unfold Rdiv; ring).
  apply exp_neg_le_1. apply Rmult_le_pos; [exact Hd|].
  left. apply Rinv_0_lt_compat, Ht.
Qed.

(** What is left of the distance to the target after one call. *)
Lemma approach_error (current target dt tau : R) :
  0 < tau ->
  approach current target dt tau - target = (current - target) * exp (- dt / tau).
Proof.
  intros Ht. unfold approach. rewrite (proj2 (leb_false _ _)) by lra.
  cbv zeta. ring.
Qed.

(** The result of [approach] lies between the current value and the target. *)
Lemma approach_bounds (current target dt tau : R) :
  0 <= dt ->
  Rmin current target <= approach current target dt tau <= Rmax current target.
Proof.
  intros Hd.
  pose proof (Rmin_l current target). pose proof (Rmin_r current target).
  pose proof (Rmax_l current target). pose proof (Rmax_r current target).
  destruct (Rle_dec tau 0) as [Ht | Ht].
  - unfold approach. rewrite (proj2 (leb_true _ _)) by lra. lra.
  - pose proof (approach_error current target dt tau ltac:(lra)) as E.
    pose proof (exp_neg_unit dt tau Hd ltac:(lra)) as [E0 E1].
    set (e := exp (- dt / tau)) in *.
    destruct (Rle_dec current target) as [C | C].
    + rewrite Rmin_left, Rmax_right by lra.
      assert (0 <= (target - current) * e) by (apply Rmult_le_pos; lra).
      assert ((target - current) * e <= (target - current) * 1)
        by (apply Rmult_le_compat_l; lra).
      lra.
    + rewrite Rmin_right, Rmax_left by lra.
      assert (0 <= (current - target) * e) by (apply Rmult_le_pos; lra).
      assert ((current - target) * e <= (current - target) * 1)
        by (apply Rmult_le_compat_l; lra).
      lra.
Qed.

(** X4. [approach] never overshoots: for a time step that is not negative
    the result lies between the current value and the target, and is no
    farther from the target than the current value was, whatever the time
    constant (a time constant of 0 or less jumps to the target). *)
Theorem approach_never_overshoots (current target dt tau : R) :
  0 <= dt ->
  Rmin current target <= approach current target dt tau <= Rmax current target /\
  Rabs (approach current target dt tau - target) <= Rabs (current - target).
Proof.
  intros Hd. pose proof (approach_bounds current target dt tau Hd) as B.
  split; [exact B|].
  revert B. unfold Rmin, Rmax. destruct (Rle_dec current target); intros B.
  - rewrite !Rabs_left1 by lra. lra.
  - rewrite !Rabs_right by lra. lra.
Qed.

(** A compression of 10 px relaxing towards 0 over one physics step. *)
Lemma approach_witness :
  Rmin 10 0 <= approach 10 0 (1 / 120) (12 / 100) <= Rmax 10 0 /\
  Rabs (approach 10 0 (1 / 120) (12 / 100) - 0) <= Rabs (10 - 0).
Proof. apply (approach_never_overshoots 10 0 (1 / 120) (12 / 100)). lra. Defined.

(** X5. [approach] does not depend on how the time is cut into steps: a
    step of [dt1] followed by a step of [dt2] towards the same target is
    one step of [dt1 + dt2]. *)
Theorem approach_steps_compose (current target dt1 dt2 tau : R) :
  approach (approach current target dt1 tau) target dt2 tau =
  approach current target (dt1 + dt2) tau.
Proof.
  destruct (Rle_dec tau 0) as [Ht | Ht].
  - unfold approach. rewrite (proj2 (leb_true _ _)) by lra. reflexivity.
  - assert (T : 0 < tau) by lra.
    pose proof (approach_error (approach current target dt1 tau) target dt2 tau T) as E2.
    pose proof (approach_error current target dt1 tau T) as E1.
    pose proof (approach_error current target (dt1 + dt2) tau T) as E.
    replace (- (dt1 + dt2) / tau) with (- dt1 / tau + - dt2 / tau) in E
      by (field; lra).
    rewrite exp_plus in E. rewrite E1 in E2.
    rewrite <- Rmult_assoc in E. lra.
Qed.

(** ** ChargingState.update: what a tick can and cannot do *)

(** Every way out of [tryLaunchActiveOrSettle] leaves the spring released. *)
Lemma tryLaunch_compression (cfg : GameConfig) (airborneEnter : Slime -> Slime)
    (groundYi : R) (s : Slime) :
  currentCompression
    (ChargingState.tryLaunchActiveOrSettle cfg airborneEnter groundYi s) = 0.
Proof.
  unfold ChargingState.tryLaunchActiveOrSettle, ChargingState.launchActiveControlled.
  split_ifs; reflexivity.
Qed.

(** The compression on its way up and on its way down. *)
Lemma approach_up (c t dt tau : R) :
  0 <= dt -> c <= t -> c <= approach c t dt tau <= t.
Proof.
  intros Hd Hc. pose proof (approach_bounds c t dt tau Hd) as A.
  rewrite Rmin_left, Rmax_right in A by lra. exact A.
Qed.

Lemma approach_down (c dt tau : R) :
  0 <= dt -> 0 <= c -> 0 <= approach c 0 dt tau <= c.
Proof.
  intros Hd Hc. pose proof (approach_bounds c 0 dt tau Hd) as A.
  rewrite Rmin_right, Rmax_left in A by lra. exact A.
Qed.

(** X6. A tick without a release never launches: the slime either stays in
    the charging state with its streak and velocity untouched, or the cycle
    ends in the idle state with the streak reset to 0 and the velocity 0. *)
Theorem tick_without_release_never_launches
    (cfg : GameConfig) (airborneEnter : Slime -> Slime) (groundYi : R)
    (s : Slime) (dt : R) (isSpaceDown : bool) :
  state s = GROUND_CHARGING ->
  let s' := ChargingState.update cfg airborneEnter groundYi s dt isSpaceDown false in
  (state s' = GROUND_CHARGING /\ perfectStreak s' = perfectStreak s /\ vy s' = vy s) \/
  (state s' = GROUNDED_IDLE /\ perfectStreak s' = 0%Z /\ vy s' = 0).
Proof.
  intros Hs. unfold ChargingState.update, ChargingState.checkMissedBounceDeath,
    ChargingState.reachPeak.
  destruct isSpaceDown; cbn [negb andb];
    destruct (reachedPeak s) eqn:Hp; simpl; rewrite ?Hp; simpl;
    split_ifs; simpl; rewrite ?Hs; auto.
Qed.

(** The sample slime at the peak, held for one more step. *)
Lemma tick_without_release_witness :
  let s' := ChargingState.update sampleConfig (fun s => s) 0 (sampleSlime 2)
              (1 / 120) true false in
  (state s' = GROUND_CHARGING /\ perfectStreak s' = 2%Z /\ vy s' = 0) \/
  (state s' = GROUNDED_IDLE /\ perfectStreak s' = 0%Z /\ vy s' = 0).
Proof.
  apply (tick_without_release_never_launches sampleConfig (fun s => s) 0
           (sampleSlime 2) (1 / 120) true).
  reflexivity.
Defined.

(** X7. The hold lockout is a latch: once it is set past the peak, no tick
    can launch, whatever the input.  The slime stays charging with the
    lockout still set, or the cycle ends in the idle state with the streak
    reset to 0. *)
Theorem lockout_blocks_launch_until_cycle_ends
    (cfg : GameConfig) (airborneEnter : Slime -> Slime) (groundYi : R)
    (s : Slime) (dt : R) (isSpaceDown justReleased : bool) :
  state s = GROUND_CHARGING -> reachedPeak s = true -> holdLockout s = true ->
  let s' := ChargingState.update cfg airborneEnter groundYi s dt isSpaceDown justReleased in
  (state s' = GROUND_CHARGING /\ reachedPeak s' = true /\ holdLockout s' = true /\
   perfectStreak s' = perfectStreak s /\ vy s' = vy s) \/
  (state s' = GROUNDED_IDLE /\ perfectStreak s' = 0%Z /\ vy s' = 0).
Proof.
  intros Hs Hp Hl. unfold ChargingState.update, ChargingState.checkMissedBounceDeath,
    ChargingState.tryLaunchActiveOrSettle.
  destruct isSpaceDown, justReleased; cbn [negb andb];
    simpl; rewrite ?Hp, ?Hl; simpl;
    split_ifs; simpl; rewrite ?Hs, ?Hp, ?Hl; auto 10.
Qed.

(** The sample slime with the lockout set, released. *)
Lemma lockout_blocks_launch_witness :
  let s' := ChargingState.update sampleConfig (fun s => s) 0
              (set_holdLockout true (sampleSlime 2)) (1 / 120) false true in
  (state s' = GROUND_CHARGING /\ reachedPeak s' = true /\ holdLockout s' = true /\
   perfectStreak s' = 2%Z /\ vy s' = 0) \/
  (state s' = GROUNDED_IDLE /\ perfectStreak s' = 0%Z /\ vy s' = 0).
Proof.
  apply (lockout_blocks_launch_until_cycle_ends sampleConfig (fun s => s) 0
           (set_holdLockout true (sampleSlime 2)) (1 / 120) false true);
    reflexivity.
Defined.

(** X8. The compression never leaves its range: if it lies between 0 and
    the target compression before a tick, it does so after the tick, for
    every input and every time step that is not negative. *)
Theorem update_keeps_compression_in_range
    (cfg : GameConfig) (airborneEnter : Slime -> Slime) (groundYi : R)
    (s : Slime) (dt : R) (isSpaceDown justReleased : bool) :
  0 <= dt -> 0 <= currentCompression s <= targetCompression s ->
  0 <= currentCompression
         (ChargingState.update cfg airborneEnter groundYi s dt isSpaceDown justReleased)
    <= targetCompression s.
Proof.
  intros Hd Hc.
  assert (Up : forall tau,
            currentCompression s
              <= approach (currentCompression s) (targetCompression s) dt tau
              <= targetCompression s)
    by (intros; apply approach_up; lra).
  assert (Down : forall tau,
            0 <= approach (currentCompression s) 0 dt tau <= currentCompression s)
    by (intros; apply approach_down; lra).
  unfold ChargingState.update, ChargingState.checkMissedBounceDeath,
    ChargingState.reachPeak.
  destruct isSpaceDown, justReleased; cbn [negb andb];
    destruct (reachedPeak s) eqn:Hp; simpl; rewrite ?Hp; simpl;
    split_ifs; rewrite ?tryLaunch_compression; simpl;
    repeat match goal with
    | |- context [approach (currentCompression s) 0 dt ?tau] =>
        lazymatch goal with
        | _ : 0 <= approach (currentCompression s) 0 dt tau <= _ |- _ => fail
        | _ => pose proof (Down tau)
        end
    | |- context [approach (currentCompression s) (targetCompression s) dt ?tau] =>
        lazymatch goal with
        | _ : _ <= approach (currentCompression s) (targetCompression s) dt tau <= _ |- _ => fail
        | _ => pose proof (Up tau)
        end
    end; lra.
Qed.

Lemma compression_range_witness :
  0 <= currentCompression
         (ChargingState.update sampleConfig (fun s => s) 0 (sampleSlime 2)
            (1 / 120) true false)
    <= 60.
Proof.
  apply (update_keeps_compression_in_range sampleConfig (fun s => s) 0
           (sampleSlime 2) (1 / 120) true false); simpl; lra.
Defined.

(** ** ChargingState: the launch velocity and the timing windows *)

Section LaunchOrder.

Variable cfg : GameConfig.

Local Abbreviation vSoft := (JS.orDefault (softCapVelocity (ground cfg)) 2600).
Local Abbreviation softFactor := (JS.orDefault (softCapFactor (ground cfg)) (25 / 100)).

Lemma softCap_mono (v w : R) :
  0 <= softFactor -> v <= w ->
  (if JS.gtb v vSoft then vSoft + (v - vSoft) * softFactor else v) <=
  (if JS.gtb w vSoft then vSoft + (w - vSoft) * softFactor else w).
Proof.
  intros Hf Hvw.
  destruct (JS.gtb v vSoft) eqn:Ev; destruct (JS.gtb w vSoft) eqn:Ew;
    try apply gtb_true in Ev; try apply gtb_false in Ev;
    try apply gtb_true in Ew; try apply gtb_false in Ew; try lra.
  - assert ((v - vSoft) * softFactor <= (w - vSoft) * softFactor)
      by (apply Rmult_le_compat_r; lra).
    lra.
  - assert (0 <= (w - vSoft) * softFactor) by (apply Rmult_le_pos; lra).
    lra.
Qed.

Lemma softCap_le (v : R) :
  softFactor <= 1 ->
  (if JS.gtb v vSoft then vSoft + (v - vSoft) * softFactor else v) <= v.
Proof.
  intros Hf. destruct (JS.gtb v vSoft) eqn:Ev; [|lra].
  apply gtb_true in Ev.
  assert ((v - vSoft) * softFactor <= (v - vSoft) * 1)
    by (apply Rmult_le_compat_l; lra).
  lra.
Qed.

Lemma targetH_order (s : Slime) :
  0 <= lastApexHeight s ->
  ChargingState.targetH FAILED s <= ChargingState.targetH NORMAL s
    <= ChargingState.targetH PERFECT s.
Proof.
  intros HL. unfold ChargingState.targetH. cbv zeta.
  pose proof (distFactor_bounds s) as [D0 D1].
  pose proof (growthRate_pos s HL) as G.
  pose proof (streakMultiplier_pos s) as M.
  assert (0 <= ChargingState.growthRate s * ChargingState.streakMultiplier s)
    by (apply Rmult_le_pos; lra).
  assert (0 <= (1 + ChargingState.growthRate s * ChargingState.streakMultiplier s
                - 85 / 100) * ChargingState.distFactor s)
    by (apply Rmult_le_pos; lra).
  split.
  - assert (0 <= lastApexHeight s * (30 / 100)) by (apply Rmult_le_pos; lra). lra.
  - apply Rmult_le_compat_l; lra.
Qed.

Lemma launchBase_mono (a b : R) :
  0 <= gravity cfg -> a <= b ->
  Rmax (sqrt (2 * gravity cfg * Rmax a 50)) (Rabs (baseLaunchVelocity (ground cfg))) <=
  Rmax (sqrt (2 * gravity cfg * Rmax b 50)) (Rabs (baseLaunchVelocity (ground cfg))).
Proof.
  intros Hg Hab. apply Rle_max_compat_r. apply sqrt_le_1_alt.
  apply Rmult_le_compat_l; [lra|]. apply Rle_max_compat_r, Hab.
Qed.

End LaunchOrder.

(** X9. A better rating never launches slower: for one and the same slime
    the launch velocity of FAILED is at most that of NORMAL, which is at
    most that of PERFECT, when the soft-cap factor lies between 0 and 1. *)
Theorem better_rating_never_launches_slower (cfg : GameConfig) (s : Slime) :
  0 <= gravity cfg -> 0 <= lastApexHeight s ->
  0 <= JS.orDefault (softCapFactor (ground cfg)) (25 / 100) <= 1 ->
  ChargingState.vLaunch cfg FAILED s <= ChargingState.vLaunch cfg NORMAL s
    <= ChargingState.vLaunch cfg PERFECT s.
Proof.
  intros Hg HL [F0 F1].
  pose proof (targetH_order s HL) as [T1 T2].
  unfold ChargingState.vLaunch. cbn [Rating_eqb negb]. cbv zeta.
  split.
  - apply Rle_min_compat_r. apply softCap_mono; [exact F0|].
    apply launchBase_mono; assumption.
  - apply Rle_min_compat_r.
    eapply Rle_trans; [apply softCap_le; exact F1|].
    apply launchBase_mono; assumption.
Qed.

Lemma better_rating_witness :
  ChargingState.vLaunch sampleConfig FAILED (sampleSlime 2)
    <= ChargingState.vLaunch sampleConfig NORMAL (sampleSlime 2)
    <= ChargingState.vLaunch sampleConfig PERFECT (sampleSlime 2).
Proof.
  apply (better_rating_never_launches_slower sampleConfig (sampleSlime 2));
    simpl; lra.
Defined.

(** X10. A harder landing never widens the timing windows: with a larger
    landing difficulty the sweet window after the peak and the hold time
    before the lockout are at most what they were. *)
Theorem harder_landing_never_widens_timing_windows (cfg : GameConfig) (s1 s2 : Slime) :
  0 < landingDifficulty s1 <= landingDifficulty s2 ->
  0 <= orDefault2 (sweetHoldGrace0 (ground cfg)) (sweetHoldGrace (ground cfg)) (8 / 100) ->
  0 <= orDefault2 (failHoldTime0 (ground cfg)) (failHoldTime (ground cfg)) (12 / 100) ->
  ChargingState.sweetGraceEff cfg s2 <= ChargingState.sweetGraceEff cfg s1 /\
  ChargingState.failHoldEff cfg s2 <= ChargingState.failHoldEff cfg s1.
Proof.
  intros [D1 D2] S0 F0.
  assert (I : / landingDifficulty s2 <= / landingDifficulty s1)
    by (apply Rinv_le_contravar; lra).
  unfold ChargingState.sweetGraceEff, ChargingState.failHoldEff. cbv zeta.
  split; apply Clamp_mono; unfold Rdiv; apply Rmult_le_compat_l; assumption.
Qed.

Lemma timing_windows_witness :
  ChargingState.sweetGraceEff sampleConfig hardLandingSlime
    <= ChargingState.sweetGraceEff sampleConfig (sampleSlime 2) /\
  ChargingState.failHoldEff sampleConfig hardLandingSlime
    <= ChargingState.failHoldEff sampleConfig (sampleSlime 2).
Proof.
  apply (harder_landing_never_widens_timing_windows sampleConfig
           (sampleSlime 2) hardLandingSlime); simpl; lra.
Defined.

Section HeightScaling.

Variable cfg : GameConfig.

Local Abbreviation Href := (JS.orDefault (difficultyRefHeight (ground cfg)) 5000).

Lemma logFactor_mono (scale H1 H2 : R) :
  0 <= scale -> 0 <= H1 <= H2 ->
  1 <= 1 + scale * JS.log2 (1 + H1 / Rmax 1 Href)
    <= 1 + scale * JS.log2 (1 + H2 / Rmax 1 Href).
Proof.
  intros Hs [H0 H12].
  pose proof (Rmax_l 1 Href) as M.
  assert (I : 0 < / Rmax 1 Href) by (apply Rinv_0_lt_compat; lra).
  assert (Q1 : 0 <= H1 / Rmax 1 Href) by (apply Rmult_le_pos; lra).
  assert (Q12 : H1 / Rmax 1 Href <= H2 / Rmax 1 Href)
    by (apply Rmult_le_compat_r; lra).
  assert (L0 : 0 <= JS.log2 (1 + H1 / Rmax 1 Href)).
  { replace 0 with (JS.log2 1) by (unfold JS.log2; rewrite ln_1; lra).
    apply log2_mono; lra. }
  assert (L12 : JS.log2 (1 + H1 / Rmax 1 Href) <= JS.log2 (1 + H2 / Rmax 1 Href))
    by (apply log2_mono; lra).
  assert (0 <= scale * JS.log2 (1 + H1 / Rmax 1 Href)) by (apply Rmult_le_pos; lra).
  assert (scale * JS.log2 (1 + H1 / Rmax 1 Href)
          <= scale * JS.log2 (1 + H2 / Rmax 1 Href))
    by (apply Rmult_le_compat_l; lra).
  lra.
Qed.

End HeightScaling.

(** X11. The timing gets tighter with the fall height: after a landing from
    higher the yellow window before the peak is no longer (and never below
    its configured minimum), while the time constant of the compression is
    no shorter. *)
Theorem higher_fall_tightens_the_timing (cfg : GameConfig) (s1 s2 : Slime) :
  0 <= landingApexHeight s1 <= landingApexHeight s2 ->
  0 <= JS.orDefault (yellowDuration0 (ground cfg)) (15 / 100) ->
  0 <= JS.orDefault (difficultyLogScale (ground cfg)) (8 / 10) ->
  0 <= JS.orDefault (compressTime (ground cfg)) (12 / 100) ->
  0 <= JS.orDefault (compressLogScale (ground cfg)) (1 / 2) ->
  JS.orDefault (yellowDurationMin (ground cfg)) (3 / 100)
    <= ChargingState.yellowDurationEff cfg s2
    <= ChargingState.yellowDurationEff cfg s1 /\
  ChargingState.compressTimeEff cfg s1 <= ChargingState.compressTimeEff cfg s2.
Proof.
  intros HH Y0 LS C0 CS.
  unfold ChargingState.yellowDurationEff, ChargingState.compressTimeEff. cbv zeta.
  pose proof (logFactor_mono cfg _ _ _ LS HH) as [A1 A2].
  pose proof (logFactor_mono cfg _ _ _ CS HH) as [B1 B2].
  split; [split|].
  - apply Rmax_l.
  - apply Rle_max_compat_l. unfold Rdiv. apply Rmult_le_compat_l; [exact Y0|].
    apply Rinv_le_contravar; lra.
  - apply Rmult_le_compat_l; assumption.
Qed.

Lemma higher_fall_timing_witness :
  3 / 100 <= ChargingState.yellowDurationEff sampleConfig hardLandingSlime
    <= ChargingState.yellowDurationEff sampleConfig (sampleSlime 2) /\
  ChargingState.compressTimeEff sampleConfig (sampleSlime 2)
    <= ChargingState.compressTimeEff sampleConfig hardLandingSlime.
Proof.
  apply (higher_fall_tightens_the_timing sampleConfig (sampleSlime 2) hardLandingSlime);
    simpl; lra.
Defined.

(** ** Monster: patrol and chase *)

Section MonsterProps.

Import Monster.

Variable st : Settings.

Lemma changeDirection_frame (now : R) (r : Rolls) (m : Monster) :
  let m' := changeDirection st now r m in
  x m' = x m /\ y m' = y m /\ currentLane m' = currentLane m /\
  screenWidth m' = screenWidth m /\ type m' = type m /\
  isChasing m' = isChasing m /\ isAlive m' = isAlive m.
Proof. cbv zeta. unfold changeDirection. simpl. repeat split; reflexivity. Qed.

Lemma changeDirection_bounds (now : R) (r : Rolls) (m : Monster) :
  laneLeftBound st (changeDirection st now r m) = laneLeftBound st m /\
  laneRightBound st (changeDirection st now r m) = laneRightBound st m.
Proof. split; reflexivity. Qed.

Lemma patrol_frame (dt currentTime now : R) (r1 r2 : Rolls) (m : Monster) :
  let m' := patrol st dt currentTime now r1 r2 m in
  y m' = y m /\ currentLane m' = currentLane m /\
  screenWidth m' = screenWidth m /\ type m' = type m /\
  isChasing m' = isChasing m /\ isAlive m' = isAlive m.
Proof.
  cbv zeta. unfold patrol.
  destruct (JS.geb currentTime (nextDirectionChange m)); cbv zeta;
    repeat match goal with
    | |- context [if ?b then _ else _] =>
        match b with
        | context [if _ then _ else _] => fail 1
        | _ => destruct b
        end
    end; simpl; repeat split; reflexivity.
Qed.

Lemma patrol_in_lane (dt currentTime now : R) (r1 r2 : Rolls) (m : Monster) :
  0 <= screenWidth m / laneCount st ->
  let m' := patrol st dt currentTime now r1 r2 m in
  laneLeftBound st m <= x m' <= laneRightBound st m.
Proof.
  intros Hw. cbv zeta. unfold patrol.
  set (m1 := if JS.geb currentTime (nextDirectionChange m)
             then changeDirection st now r1 m else m).
  assert (B : laneLeftBound st m1 = laneLeftBound st m /\
              laneRightBound st m1 = laneRightBound st m)
    by (unfold m1; destruct (JS.geb _ _); [apply changeDirection_bounds | auto]).
  destruct B as [BL BR]. cbv zeta.
  set (m2 := set_x (x m1 + IZR (moveDirection m1) * moveSpeed m1 * dt) m1).
  assert (BL2 : laneLeftBound st m2 = laneLeftBound st m) by (rewrite <- BL; reflexivity).
  assert (BR2 : laneRightBound st m2 = laneRightBound st m) by (rewrite <- BR; reflexivity).
  assert (LR : laneLeftBound st m <= laneRightBound st m).
  { unfold laneLeftBound, laneRightBound. cbv zeta. lra. }
  destruct (JS.ltb (x m2) (laneLeftBound st m2)) eqn:E1.
  - simpl. rewrite BL2. lra.
  - apply ltb_false in E1.
    destruct (JS.gtb (x m2) (laneRightBound st m2)) eqn:E2.
    + simpl. rewrite BR2. lra.
    + apply gtb_false in E2. rewrite BL2 in E1. rewrite BR2 in E2. lra.
Qed.

(** What [update] leaves of the chase flag. *)
Lemma update_chase_flag (dt currentTime now : R) (playerX playerY : option R)
    (r1 r2 : Rolls) (m : Monster) :
  let m' := update st dt currentTime now playerX playerY r1 r2 m in
  type m' = type m /\
  isChasing m' =
    (isChasing m ||
     (isAlive m && isA02 (type m) &&
      match playerX, playerY with
      | Some _, Some py => JS.ltb py (y m - 30)
      | _, _ => false
      end)).
Proof.
  cbv zeta. unfold update.
  destruct (isAlive m) eqn:Ea; cbn [negb].
  2:{ split; [reflexivity|]. rewrite orb_false_r. reflexivity. }
  pose proof (patrol_frame dt currentTime now r1 r2 m) as P. cbv zeta in P.
  destruct P as (_ & _ & _ & Pt & Pc & _).
  destruct playerX as [px|], playerY as [py|];
    try (rewrite Pt, Pc; split; [reflexivity|];
         cbn [andb]; rewrite ?andb_false_r, orb_false_r; reflexivity).
  destruct (isA02 (type m)) eqn:Et.
  2:{ rewrite Pt, Pc. split; [reflexivity|]. cbn [andb]. rewrite orb_false_r. reflexivity. }
  cbn [andb].
  destruct (JS.ltb py (y m - 30)) eqn:Ep; destruct (isChasing m) eqn:Ec;
    cbn [andb negb orb]; try rewrite Ec.
  - unfold chase. destruct (JS.gtb _ 5); simpl; rewrite ?Ec; auto.
  - simpl. unfold chase. destruct (JS.gtb _ 5); simpl; auto.
  - unfold chase. destruct (JS.gtb _ 5); simpl; rewrite ?Ec; auto.
  - rewrite Pt, Pc. auto.
Qed.

(** Outside the chase, [update] is the patrol. *)
Lemma update_patrol (dt currentTime now : R) (playerX playerY : option R)
    (r1 r2 : Rolls) (m : Monster) :
  isAlive m = true ->
  isInChaseMode (update st dt currentTime now playerX playerY r1 r2 m) = false ->
  update st dt currentTime now playerX playerY r1 r2 m
    = patrol st dt currentTime now r1 r2 m.
Proof.
  intros Ha Hc.
  pose proof (update_chase_flag dt currentTime now playerX playerY r1 r2 m) as F.
  cbv zeta in F. destruct F as [Ft Fc].
  unfold isInChaseMode in Hc. rewrite Ft, Fc, Ha in Hc.
  unfold update. rewrite Ha. cbn [negb].
  destruct playerX as [px|], playerY as [py|]; try reflexivity.
  destruct (isA02 (type m)); [|reflexivity].
  cbn [andb] in Hc. apply orb_false_elim in Hc. destruct Hc as [Hc1 Hc2].
  rewrite Hc1, Hc2. cbn [andb negb]. rewrite Hc1. reflexivity.
Qed.

Lemma chase_distance (dt px py : R) (m : Monster) :
  5 < distanceTo px py m ->
  exists speed, 1000 <= speed <= 3000 /\
    distanceTo px py (chase dt px py m) = Rabs (distanceTo px py m - speed * dt) /\
    x (chase dt px py m) = x m + (px - x m) / distanceTo px py m * speed * dt /\
    y (chase dt px py m) = y m + (py - y m) / distanceTo px py m * speed * dt.
Proof.
  intros Hd. unfold chase. fold (distanceTo px py m).
  rewrite (proj2 (gtb_true _ _) Hd). cbv zeta. simpl.
  set (D := distanceTo px py m) in *.
  set (speed := Rmax 1000 (Rmin (chaseCurrentSpeed m + 12000 * dt) 3000)).
  exists speed.
  assert (S1 : 1000 <= speed) by apply Rmax_l.
  assert (S2 : speed <= 3000) by (apply Rmax_lub; [lra | apply Rmin_r]).
  split; [lra|]. split; [|split; reflexivity].
  assert (HD : D * D = (px - x m) * (px - x m) + (py - y m) * (py - y m)).
  { unfold D, distanceTo. apply sqrt_sqrt.
    pose proof (Rle_0_sqr (px - x m)). pose proof (Rle_0_sqr (py - y m)).
    unfold Rsqr in *. lra. }
  unfold distanceTo at 1. simpl.
  rewrite <- (sqrt_Rsqr_abs (D - speed * dt)). f_equal.
  unfold Rsqr.
  transitivity (((px - x m) * (px - x m) + (py - y m) * (py - y m))
                * ((D - speed * dt) / D) * ((D - speed * dt) / D)).
  - field. lra.
  - rewrite <- HD. field. lra.
Qed.

End MonsterProps.

(** X12. A monster that is not chasing only moves inside its own lane: after
    an update of a live monster that leaves it out of chase mode, its
    position lies between the bounds of its lane (a quarter of a lane width
    inside on either side), and neither its height nor its lane has changed.
    For a lane index between 0 and [lane.count - 1] this keeps the monster
    on the screen. *)
Theorem patrolling_monster_stays_in_its_lane
    (st : Monster.Settings) (dt currentTime now : R) (playerX playerY : option R)
    (r1 r2 : Monster.Rolls) (m : Monster.Monster) :
  Monster.isAlive m = true ->
  0 <= Monster.screenWidth m / Monster.laneCount st ->
  let m' := Monster.update st dt currentTime now playerX playerY r1 r2 m in
  Monster.isInChaseMode m' = false ->
  (Monster.laneLeftBound st m' <= Monster.x m' <= Monster.laneRightBound st m') /\
  Monster.y m' = Monster.y m /\
  Monster.currentLane m' = Monster.currentLane m /\
  (0 < Monster.laneCount st ->
   0 <= Monster.currentLane m <= Monster.laneCount st - 1 ->
   0 <= Monster.x m' <= Monster.screenWidth m).
Proof.
  intros Ha Hw m' Hc. unfold m' in *.
  rewrite (update_patrol st _ _ _ _ _ _ _ _ Ha Hc).
  pose proof (patrol_frame st dt currentTime now r1 r2 m) as F. cbv zeta in F.
  destruct F as (Fy & Fl & Fw & _).
  pose proof (patrol_in_lane st dt currentTime now r1 r2 m Hw) as B. cbv zeta in B.
  set (p := Monster.patrol st dt currentTime now r1 r2 m) in *.
  assert (BL : Monster.laneLeftBound st p = Monster.laneLeftBound st m)
    by (unfold Monster.laneLeftBound; rewrite Fl, Fw; reflexivity).
  assert (BR : Monster.laneRightBound st p = Monster.laneRightBound st m)
    by (unfold Monster.laneRightBound; rewrite Fl, Fw; reflexivity).
  rewrite BL, BR.
  split; [exact B|]. split; [exact Fy|]. split; [exact Fl|].
  intros Hn Hl. split.
  - unfold Monster.laneLeftBound in B. cbv zeta in B.
    assert (0 <= Monster.currentLane m * (Monster.screenWidth m / Monster.laneCount st))
      by (apply Rmult_le_pos; lra).
    lra.
  - unfold Monster.laneRightBound in B. cbv zeta in B.
    assert ((Monster.currentLane m + 1) * (Monster.screenWidth m / Monster.laneCount st)
            <= Monster.laneCount st * (Monster.screenWidth m / Monster.laneCount st))
      by (apply Rmult_le_compat_r; lra).
    assert (Monster.laneCount st * (Monster.screenWidth m / Monster.laneCount st)
            = Monster.screenWidth m) by (field; lra).
    lra.
Qed.

Lemma patrolling_monster_witness :
  let m' := Monster.update sampleSettings (1 / 120) 1000 1000 None None
              sampleRolls sampleRolls sampleMonster in
  (Monster.laneLeftBound sampleSettings m' <= Monster.x m'
     <= Monster.laneRightBound sampleSettings m') /\
  Monster.y m' = -5000 /\
  Monster.currentLane m' = 1 /\
  (0 < 3 -> 0 <= 1 <= 3 - 1 -> 0 <= Monster.x m' <= 540).
Proof.
  apply (patrolling_monster_stays_in_its_lane sampleSettings (1 / 120) 1000 1000
           None None sampleRolls sampleRolls sampleMonster).
  - reflexivity.
  - simpl. lra.
  - unfold Monster.isInChaseMode.
    rewrite (proj1 (update_chase_flag sampleSettings (1 / 120) 1000 1000 None None
                      sampleRolls sampleRolls sampleMonster)).
    reflexivity.
Defined.

(** X13. A chasing bat flies straight at the player: when a live bat that is
    chasing (or has just been passed) is more than 5 px away, one update
    moves it along the line to the player by [speed * dt], with a speed
    between 1000 and 3000 px/s, so that its distance to the player becomes
    [|dist - speed * dt|]. *)
Theorem chasing_bat_closes_in
    (st : Monster.Settings) (dt currentTime now px py : R)
    (r1 r2 : Monster.Rolls) (m : Monster.Monster) :
  Monster.isAlive m = true -> Monster.type m = A02 ->
  Monster.isChasing m = true \/ py < Monster.y m - 30 ->
  5 < Monster.distanceTo px py m ->
  let m' := Monster.update st dt currentTime now (Some px) (Some py) r1 r2 m in
  exists speed, 1000 <= speed <= 3000 /\
    Monster.distanceTo px py m' = Rabs (Monster.distanceTo px py m - speed * dt) /\
    Monster.x m' = Monster.x m + (px - Monster.x m) / Monster.distanceTo px py m * speed * dt /\
    Monster.y m' = Monster.y m + (py - Monster.y m) / Monster.distanceTo px py m * speed * dt.
Proof.
  intros Ha Ht Hc Hd. cbv zeta. unfold Monster.update.
  rewrite Ha, Ht. cbn [negb Monster.isA02].
  destruct (Monster.isChasing m) eqn:Ec.
  - rewrite andb_false_r. rewrite Ec. apply chase_distance, Hd.
  - destruct Hc as [Hc | Hc]; [discriminate|].
    rewrite (proj2 (ltb_true _ _) Hc). cbn [andb negb]. simpl Monster.isChasing.
    cbv iota.
    apply (chase_distance dt px py
             (Monster.set_chaseCurrentSpeed 0 (Monster.set_isChasing true m))).
    exact Hd.
Qed.

(** The sample bat, passed by a player 100 px above it. *)
Lemma chasing_bat_witness :
  let m' := Monster.update sampleSettings (1 / 120) 1000 1000 (Some 270) (Some (-5100))
              sampleRolls sampleRolls sampleBat in
  exists speed, 1000 <= speed <= 3000 /\
    Monster.distanceTo 270 (-5100) m'
      = Rabs (Monster.distanceTo 270 (-5100) sampleBat - speed * (1 / 120)) /\
    Monster.x m' = 330 + (270 - 330) / Monster.distanceTo 270 (-5100) sampleBat
                         * speed * (1 / 120) /\
    Monster.y m' = -5000 + (-5100 - -5000) / Monster.distanceTo 270 (-5100) sampleBat
                           * speed * (1 / 120).
Proof.
  apply (chasing_bat_closes_in sampleSettings (1 / 120) 1000 1000 270 (-5100)
           sampleRolls sampleRolls sampleBat).
  - reflexivity.
  - reflexivity.
  - right. simpl. lra.
  - unfold Monster.distanceTo. simpl.
    apply Rlt_le_trans with (sqrt (10 * 10)).
    + rewrite sqrt_square; lra.
    + apply sqrt_le_1_alt. lra.
Defined.

(** X14. Chase mode is entered only by a bat that the player has passed, and
    it is never left: after an update the monster is in chase mode exactly
    when it is a bat that was chasing already, or a live bat updated with a
    player position more than 30 px above it. *)
Theorem bat_chases_exactly_when_passed
    (st : Monster.Settings) (dt currentTime now : R) (playerX playerY : option R)
    (r1 r2 : Monster.Rolls) (m : Monster.Monster) :
  Monster.isInChaseMode
    (Monster.update st dt currentTime now playerX playerY r1 r2 m) = true <->
  Monster.type m = A02 /\
  (Monster.isChasing m = true \/
   (Monster.isAlive m = true /\
    exists px py, playerX = Some px /\ playerY = Some py /\ py < Monster.y m - 30)).
Proof.
  pose proof (update_chase_flag st dt currentTime now playerX playerY r1 r2 m) as F.
  cbv zeta in F. destruct F as [Ft Fc].
  unfold Monster.isInChaseMode. rewrite Ft, Fc.
  split.
  - intros H. apply andb_prop in H. destruct H as [H1 H2].
    split; [destruct (Monster.type m); simpl in H1; congruence|].
    apply orb_prop in H2. destruct H2 as [H2 | H2]; [left; exact H2|].
    right. apply andb_prop in H2. destruct H2 as [H2 H3].
    apply andb_prop in H2. destruct H2 as [H2 _].
    split; [exact H2|].
    destruct playerX as [px|], playerY as [py|]; try discriminate.
    exists px, py. repeat split. apply ltb_true, H3.
  - intros [Ht [Hc | (Ha & px & py & -> & -> & Hp)]]; rewrite Ht; simpl.
    + rewrite Hc. reflexivity.
    + rewrite Ha, (proj2 (ltb_true _ _) Hp). apply orb_true_r.
Qed.

(** ** MonsterManager: the attack and the body collision *)

Section CollectionProps.

Import Monster MonsterCollection.

Variable mgr : Manager.
Variable swipeDirection : Z.
Variable playerX playerY : R.

Local Abbreviation inRange :=
  (fun m : Monster => isAlive m && inSector mgr swipeDirection playerX playerY m).

Lemma hit_dead (ts : R) (m : Monster) : isAlive (hit ts m) = false.
Proof. unfold hit, kill. destruct (isAlive m) eqn:E; simpl; auto. Qed.

Lemma sector_map (slime : Debuffs.SlimeDebuffs) (ts : R) (monsters : list Monster) :
  monstersAfter (checkSectorCollision mgr swipeDirection playerX playerY slime ts monsters)
    = map (fun m => if inRange m then hit ts m else m) monsters.
Proof.
  revert slime. induction monsters as [|m rest IH]; intros slime; [reflexivity|].
  cbn [checkSectorCollision map].
  destruct (isAlive m && inSector mgr swipeDirection playerX playerY m);
    cbv zeta; cbn [monstersAfter]; rewrite IH; reflexivity.
Qed.

Lemma sector_count (slime : Debuffs.SlimeDebuffs) (ts : R) (monsters : list Monster) :
  killCount (checkSectorCollision mgr swipeDirection playerX playerY slime ts monsters)
    = Z.of_nat (length (filter inRange monsters)).
Proof.
  revert slime. induction monsters as [|m rest IH]; intros slime; [reflexivity|].
  cbn [checkSectorCollision filter].
  destruct (isAlive m && inSector mgr swipeDirection playerX playerY m);
    cbv zeta; cbn [killCount length]; rewrite IH; lia.
Qed.

Lemma sector_drops (slime : Debuffs.SlimeDebuffs) (ts : R) (monsters : list Monster) :
  drops (checkSectorCollision mgr swipeDirection playerX playerY slime ts monsters)
    = map (fun m => (x m, y m, type m)) (filter inRange monsters).
Proof.
  revert slime. induction monsters as [|m rest IH]; intros slime; [reflexivity|].
  cbn [checkSectorCollision filter].
  destruct (isAlive m && inSector mgr swipeDirection playerX playerY m);
    cbv zeta; cbn [drops map]; rewrite IH; reflexivity.
Qed.

Lemma alive_after_sector (ts : R) (monsters : list Monster) :
  (length (filter isAlive (map (fun m => if inRange m then hit ts m else m) monsters))
   + length (filter inRange monsters) = length (filter isAlive monsters))%nat.
Proof.
  induction monsters as [|m rest IH]; [reflexivity|].
  cbn [map filter].
  destruct (isAlive m) eqn:Ea; cbn [andb].
  - destruct (inSector mgr swipeDirection playerX playerY m).
    + rewrite hit_dead. cbn [length]. lia.
    + rewrite Ea. cbn [length]. lia.
  - rewrite Ea. exact IH.
Qed.

End CollectionProps.

(** X15. A swing kills exactly the living monsters in its range: the kill
    count is their number, one drop is requested at the position of each,
    no monster in range is alive afterwards, the number of living monsters
    goes down by the kill count, and a monster that is not hit is left as
    it was. *)
Theorem swing_kills_exactly_the_living_in_range
    (mgr : MonsterCollection.Manager) (swipeDirection : Z) (playerX playerY : R)
    (slime : Debuffs.SlimeDebuffs) (ts : R) (monsters : list Monster.Monster) :
  let inRange := fun m =>
    Monster.isAlive m && MonsterCollection.inSector mgr swipeDirection playerX playerY m in
  let r := MonsterCollection.checkSectorCollision mgr swipeDirection playerX playerY
             slime ts monsters in
  MonsterCollection.killCount r = Z.of_nat (length (filter inRange monsters)) /\
  MonsterCollection.drops r
    = map (fun m => (Monster.x m, Monster.y m, Monster.type m)) (filter inRange monsters) /\
  (forall m, In m (MonsterCollection.monstersAfter r) -> inRange m = false) /\
  (Z.of_nat (MonsterCollection.getAliveMonsterCount (MonsterCollection.monstersAfter r))
   = Z.of_nat (MonsterCollection.getAliveMonsterCount monsters)
     - MonsterCollection.killCount r)%Z /\
  (forall i m, nth_error monsters i = Some m -> inRange m = false ->
     nth_error (MonsterCollection.monstersAfter r) i = Some m).
Proof.
  cbv zeta.
  rewrite sector_count, sector_drops, sector_map.
  split; [reflexivity|]. split; [reflexivity|]. split; [|split].
  - intros m Hin. apply in_map_iff in Hin. destruct Hin as (m0 & <- & _).
    destruct (Monster.isAlive m0 && _) eqn:E; [|exact E].
    rewrite hit_dead. reflexivity.
  - unfold MonsterCollection.getAliveMonsterCount.
    pose proof (alive_after_sector mgr swipeDirection playerX playerY ts monsters).
    lia.
  - intros i m Hn Hr. rewrite nth_error_map, Hn. cbn [option_map].
    rewrite Hr. reflexivity.
Qed.

(** X16. A second swing from the same place finds nothing left to kill. *)
Theorem second_swing_kills_nothing
    (mgr : MonsterCollection.Manager) (swipeDirection : Z) (playerX playerY : R)
    (slime slime2 : Debuffs.SlimeDebuffs) (ts ts2 : R) (monsters : list Monster.Monster) :
  let r := MonsterCollection.checkSectorCollision mgr swipeDirection playerX playerY
             slime ts monsters in
  let r2 := MonsterCollection.checkSectorCollision mgr swipeDirection playerX playerY
              slime2 ts2 (MonsterCollection.monstersAfter r) in
  MonsterCollection.killCount r2 = 0%Z /\
  MonsterCollection.drops r2 = [] /\
  MonsterCollection.monstersAfter r2 = MonsterCollection.monstersAfter r /\
  MonsterCollection.slimeAfter r2 = slime2.
Proof.
  cbv zeta.
  set (ms := MonsterCollection.monstersAfter
               (MonsterCollection.checkSectorCollision mgr swipeDirection playerX
                  playerY slime ts monsters)).
  assert (D : forall m, In m ms ->
            Monster.isAlive m
            && MonsterCollection.inSector mgr swipeDirection playerX playerY m = false).
  { intros m. unfold ms. rewrite sector_map. intros Hin.
    apply in_map_iff in Hin. destruct Hin as (m0 & <- & _).
    destruct (Monster.isAlive m0 && _) eqn:E; [|exact E].
    rewrite hit_dead. reflexivity. }
  clearbody ms. revert slime2.
  induction ms as [|m rest IH]; intros slime2; [repeat split|].
  cbn [MonsterCollection.checkSectorCollision].
  rewrite (D m (or_introl eq_refl)). cbv zeta.
  destruct (IH (fun m' H => D m' (or_intror H)) slime2) as (K & Dr & M & S).
  cbn [MonsterCollection.killCount MonsterCollection.drops
       MonsterCollection.monstersAfter MonsterCollection.slimeAfter].
  rewrite K, Dr, M, S. repeat split.
Qed.

Section GraceProps.

Import Monster MonsterCollection.

Variable mgr : Manager.
Variable swipeDirection : Z.
Variable playerX playerY : R.
Variable ts : R.

Local Abbreviation protectedFrom := (protectedSince ts).

Lemma graceAfterKill_protects (i : Z) (s : Debuffs.SlimeDebuffs) :
  protectedFrom (graceAfterKill ts i s).
Proof.
  unfold protectedSince, graceAfterKill; simpl.
  split; [apply Rmax_r|]. split; [apply Rmax_r | reflexivity].
Qed.

Lemma sector_keeps_protection (monsters : list Monster) (s : Debuffs.SlimeDebuffs) :
  protectedFrom s ->
  protectedFrom
    (slimeAfter (checkSectorCollision mgr swipeDirection playerX playerY s ts monsters)).
Proof.
  revert s. induction monsters as [|m rest IH]; intros s Hs; [exact Hs|].
  cbn [checkSectorCollision].
  destruct (isAlive m && _); cbv zeta; cbn [slimeAfter]; apply IH;
    [apply graceAfterKill_protects | exact Hs].
Qed.

Lemma sector_protects (monsters : list Monster) (s : Debuffs.SlimeDebuffs) :
  (0 < killCount (checkSectorCollision mgr swipeDirection playerX playerY s ts monsters))%Z ->
  protectedFrom
    (slimeAfter (checkSectorCollision mgr swipeDirection playerX playerY s ts monsters)).
Proof.
  revert s. induction monsters as [|m rest IH]; intros s; [cbn; lia|].
  cbn [checkSectorCollision].
  destruct (isAlive m && _); cbv zeta; cbn [slimeAfter killCount].
  - intros _. apply sector_keeps_protection, graceAfterKill_protects.
  - apply IH.
Qed.

End GraceProps.

(** X17. A kill makes the slime immune: after a swing at [ts] that killed
    at least one monster the debuff grace holds until [ts + 300], the
    recent-hit grace until [ts + 200], the recent-hit window from [ts] on
    for 250 ms, and a debuff applied within that window is ignored. *)
Theorem kill_grants_immunity
    (mgr : MonsterCollection.Manager) (swipeDirection : Z) (playerX playerY : R)
    (slime : Debuffs.SlimeDebuffs) (ts : R) (monsters : list Monster.Monster) :
  let r := MonsterCollection.checkSectorCollision mgr swipeDirection playerX playerY
             slime ts monsters in
  (0 < MonsterCollection.killCount r)%Z ->
  forall nowMs,
    (nowMs <= ts + 300 ->
       Debuffs.hasDebuffGrace nowMs (MonsterCollection.slimeAfter r) = true) /\
    (nowMs <= ts + 200 ->
       Debuffs.hasRecentHitGrace nowMs (MonsterCollection.slimeAfter r) = true) /\
    (nowMs <= ts + 250 ->
       Debuffs.hasRecentHitWindow nowMs (MonsterCollection.slimeAfter r) = true /\
       forall monsterType duration vy,
         Debuffs.applyDebuffFromMonster monsterType duration nowMs
           (MonsterCollection.slimeAfter r) vy
         = (MonsterCollection.slimeAfter r, vy)).
Proof.
  cbv zeta. intros K nowMs.
  destruct (sector_protects mgr swipeDirection playerX playerY ts monsters slime K)
    as (G1 & G2 & G3).
  split; [|split].
  - intros H. apply leb_true. lra.
  - intros H. apply leb_true. lra.
  - intros H.
    assert (W : Debuffs.hasRecentHitWindow nowMs
                  (MonsterCollection.slimeAfter
                     (MonsterCollection.checkSectorCollision mgr swipeDirection
                        playerX playerY slime ts monsters)) = true).
    { unfold Debuffs.hasRecentHitWindow. rewrite G3. apply leb_true. lra. }
    split; [exact W|].
    intros. unfold Debuffs.applyDebuffFromMonster. rewrite W. reflexivity.
Qed.

(** A swing to the right at the sample monster, and the slime 100 ms later. *)
Lemma kill_grants_immunity_witness :
  let r := MonsterCollection.checkSectorCollision
             (MonsterCollection.mkManager 540 0 50) 1 200 (-5000)
             Debuffs.initial 1000 [sampleMonster] in
  (1100 <= 1000 + 300 ->
     Debuffs.hasDebuffGrace 1100 (MonsterCollection.slimeAfter r) = true) /\
  (1100 <= 1000 + 200 ->
     Debuffs.hasRecentHitGrace 1100 (MonsterCollection.slimeAfter r) = true) /\
  (1100 <= 1000 + 250 ->
     Debuffs.hasRecentHitWindow 1100 (MonsterCollection.slimeAfter r) = true /\
     forall monsterType duration vy,
       Debuffs.applyDebuffFromMonster monsterType duration 1100
         (MonsterCollection.slimeAfter r) vy
       = (MonsterCollection.slimeAfter r, vy)).
Proof.
  refine (kill_grants_immunity (MonsterCollection.mkManager 540 0 50) 1 200 (-5000)
            Debuffs.initial 1000 [sampleMonster] _ 1100).
  rewrite sector_count. simpl.
  unfold MonsterCollection.inSector. simpl.
  js_cmp. simpl.
  replace (-5000 - -5000) with 0 by lra. rewrite Rabs_R0.
  js_cmp. simpl. lia.
Defined.

(** ** MonsterManager: the highest living monster *)

Section HighestProps.

Import Monster MonsterCollection.

Lemma maxOf_upper (h : R) (rest : list R) :
  h <= maxOf h rest /\ forall v, In v rest -> v <= maxOf h rest.
Proof.
  revert h. induction rest as [|a more IH]; intros h; cbn [maxOf].
  - split; [lra | intros v []].
  - destruct (IH a) as [Ha Hmore].
    pose proof (Rmax_l h (maxOf a more)). pose proof (Rmax_r h (maxOf a more)).
    split; [lra|]. intros v [<- | Hv]; [lra|].
    specialize (Hmore v Hv). lra.
Qed.

Lemma maxOf_attained (h : R) (rest : list R) : In (maxOf h rest) (h :: rest).
Proof.
  revert h. induction rest as [|a more IH]; intros h; cbn [maxOf].
  - left. reflexivity.
  - unfold Rmax. destruct (Rle_dec h (maxOf a more)).
    + right. apply IH.
    + left. reflexivity.
Qed.

End HighestProps.

(** X18. The highest living monster: the query answers -1 when no monster
    is alive; otherwise its answer is the height of a living monster, and no
    living monster is higher. *)
Theorem highest_alive_height_is_the_maximum (monsters : list Monster.Monster) :
  (MonsterCollection.getAliveMonsterCount monsters = 0%nat ->
   MonsterCollection.getHighestAliveMonsterHeight monsters = -1) /\
  (MonsterCollection.getAliveMonsterCount monsters <> 0%nat ->
   exists m, In m monsters /\ Monster.isAlive m = true /\
     Monster.heightMeters m = MonsterCollection.getHighestAliveMonsterHeight monsters) /\
  (forall m, In m monsters -> Monster.isAlive m = true ->
     Monster.heightMeters m <= MonsterCollection.getHighestAliveMonsterHeight monsters).
Proof.
  unfold MonsterCollection.getAliveMonsterCount,
    MonsterCollection.getHighestAliveMonsterHeight. cbv zeta.
  split; [|split].
  - intros H. apply length_zero_iff_nil in H. rewrite H. reflexivity.
  - intros H.
    destruct (filter Monster.isAlive monsters) as [|a rest] eqn:E; [easy|].
    cbn [map].
    pose proof (maxOf_attained (Monster.heightMeters a) (map Monster.heightMeters rest)) as A.
    change (Monster.heightMeters a :: map Monster.heightMeters rest)
      with (map Monster.heightMeters (a :: rest)) in A.
    apply in_map_iff in A. destruct A as (m & Hm & Hin).
    rewrite <- E in Hin. apply filter_In in Hin.
    exists m. tauto.
  - intros m Hin Ha.
    assert (F : In m (filter Monster.isAlive monsters)) by (apply filter_In; auto).
    destruct (filter Monster.isAlive monsters) as [|a rest]; [destruct F|].
    cbn [map].
    destruct (maxOf_upper (Monster.heightMeters a) (map Monster.heightMeters rest))
      as [U1 U2].
    destruct F as [<- | F]; [exact U1|].
    apply U2, in_map, F.
Qed.

(** ** MonsterManager: the body collision *)

Section DebuffCollisionProps.

Import Monster MonsterCollection.

Variable st : Settings.
Variable playerX playerY playerRadius nowMs : R.
Variable slime : Debuffs.SlimeDebuffs.

Local Abbreviation collides :=
  (fun m : Monster => canDebuff nowMs slime m
                      && touches st playerX playerY playerRadius m).

Lemma debuff_miss (monsters : list Monster) :
  snd (checkDebuffCollision st playerX playerY playerRadius nowMs slime monsters) = None ->
  Forall (fun m => collides m = false) monsters /\
  fst (checkDebuffCollision st playerX playerY playerRadius nowMs slime monsters) = monsters.
Proof.
  induction monsters as [|m rest IH]; [split; [constructor | reflexivity]|].
  cbn [checkDebuffCollision].
  destruct (canDebuff nowMs slime m && touches st playerX playerY playerRadius m) eqn:E.
  - cbv zeta. simpl. discriminate.
  - destruct (checkDebuffCollision st playerX playerY playerRadius nowMs slime rest)
      as [rest' r]. simpl in *. intros ->.
    destruct (IH eq_refl) as [F ->]. split; [constructor; assumption | reflexivity].
Qed.

Lemma debuff_hit (monsters : list Monster) (t : MonsterType) (isChaseHit : bool) :
  snd (checkDebuffCollision st playerX playerY playerRadius nowMs slime monsters)
    = Some (t, isChaseHit) ->
  exists before m after,
    monsters = before ++ m :: after /\
    Forall (fun b => collides b = false) before /\
    collides m = true /\
    t = type m /\ isChaseHit = isInChaseMode m /\
    fst (checkDebuffCollision st playerX playerY playerRadius nowMs slime monsters)
      = before ++ (if isInChaseMode m then set_isAlive false m
                   else set_nextDebuffTime (nowMs + 300) m) :: after.
Proof.
  induction monsters as [|m rest IH]; [discriminate|].
  cbn [checkDebuffCollision].
  destruct (canDebuff nowMs slime m && touches st playerX playerY playerRadius m) eqn:E.
  - cbv zeta. simpl. intros [= <- <-].
    exists [], m, rest. repeat split; auto.
  - destruct (checkDebuffCollision st playerX playerY playerRadius nowMs slime rest)
      as [rest' r]. simpl in *. intros ->.
    destruct (IH eq_refl) as (before & m0 & after & -> & F & C & T & I & R').
    exists (m :: before), m0, after. simpl. rewrite R'.
    repeat split; auto.
Qed.

Lemma throttled (m : Monster) (later : R) (slime' : Debuffs.SlimeDebuffs) :
  later < nowMs + 300 ->
  canDebuff later slime'
    (if isInChaseMode m then set_isAlive false m
     else set_nextDebuffTime (nowMs + 300) m) = false.
Proof.
  intros H. unfold canDebuff.
  destruct (isInChaseMode m); simpl; [reflexivity|].
  destruct (negb (isAlive m)); [reflexivity|].
  rewrite (proj2 (gtb_true _ _)) by lra. reflexivity.
Qed.

End DebuffCollisionProps.

(** X19. The body-collision query reports the first monster, in the order of
    the collection, that passes the guards (alive, not throttled, not just
    killed, no swing grace) and touches the player.  With no such monster it
    answers null and changes nothing.  Otherwise only that monster changes:
    a chasing bat dies of the hit, any other monster is throttled, and in
    either case it cannot cause another debuff within the next 300 ms. *)
Theorem body_collision_reports_first_touching_monster
    (st : Monster.Settings) (playerX playerY playerRadius nowMs : R)
    (slime : Debuffs.SlimeDebuffs) (monsters : list Monster.Monster) :
  let collides := fun m =>
    MonsterCollection.canDebuff nowMs slime m
    && MonsterCollection.touches st playerX playerY playerRadius m in
  let q := MonsterCollection.checkDebuffCollision st playerX playerY playerRadius
             nowMs slime monsters in
  match snd q with
  | None => Forall (fun m => collides m = false) monsters /\ fst q = monsters
  | Some (t, isChaseHit) =>
      exists before m m' after,
        monsters = before ++ m :: after /\
        fst q = before ++ m' :: after /\
        Forall (fun b => collides b = false) before /\
        collides m = true /\
        t = Monster.type m /\ isChaseHit = Monster.isInChaseMode m /\
        (isChaseHit = true -> Monster.isAlive m' = false) /\
        (forall later slime', later < nowMs + 300 ->
           MonsterCollection.canDebuff later slime' m' = false)
  end.
Proof.
  cbv zeta.
  destruct (snd (MonsterCollection.checkDebuffCollision st playerX playerY
                   playerRadius nowMs slime monsters)) as [[t c]|] eqn:E.
  - destruct (debuff_hit st playerX playerY playerRadius nowMs slime monsters t c E)
      as (before & m & after & Hm & F & C & T & I & R').
    exists before, m,
      (if Monster.isInChaseMode m then Monster.set_isAlive false m
       else Monster.set_nextDebuffTime (nowMs + 300) m), after.
    repeat split; auto.
    + intros ->. rewrite <- I. reflexivity.
    + intros. apply throttled. assumption.
  - apply debuff_miss, E.
Qed.

(** ** MonsterManager.spawnApexMonsters: the placement *)

Section PlacementProps.

Import Monster MonsterCollection Spawner.

Variable st : Settings.
Variable mgr : Manager.
Variable p : PlacementConfig.
Variable now : R.
Variable rolls : nat -> SpawnRolls.
Variable rangeEndM : R.
Variable baseSpacing : R.
Variable speedMult : R.

Local Abbreviation place :=
  (placeMonsters st mgr p now rolls rangeEndM baseSpacing speedMult).

Hypothesis spacing_nonneg : 0 <= baseSpacing.
Hypothesis same_nonneg : 0 <= sameSideBonusOf p.
Hypothesis diagonal_nonneg : 0 <= diagonalBonusOf p.

Lemma spacingFor_ge (prevLane : option Z) (lane : Z) :
  baseSpacing <= spacingFor p baseSpacing prevLane lane.
Proof.
  unfold spacingFor. destruct prevLane as [prev|]; [|lra].
  destruct (lane =? prev)%Z.
  - assert (0 <= baseSpacing * sameSideBonusOf p) by (apply Rmult_le_pos; assumption).
    lra.
  - destruct (Z.abs (lane - prev) =? 2)%Z; [|lra].
    assert (0 <= baseSpacing * diagonalBonusOf p) by (apply Rmult_le_pos; assumption).
    lra.
Qed.

Lemma place_length (remaining k : nat) (prevLane : option Z) (last : R) (nextId : Z) :
  (length (place remaining k prevLane last nextId) <= remaining)%nat.
Proof.
  revert k prevLane last nextId.
  induction remaining as [|n IH]; intros; cbn [placeMonsters]; [simpl; lia|].
  destruct (JS.ltb last rangeEndM); [|cbn; lia].
  cbv zeta. destruct (JS.gtb _ rangeEndM); [cbn; lia|].
  cbn [length]. specialize (IH (S k) (Some (chooseLane p prevLane last (rolls k)))
    (last + spacingFor p baseSpacing prevLane (chooseLane p prevLane last (rolls k)))
    (nextId + 1)%Z). lia.
Qed.

Lemma create_fields (nextId : Z) (c : MonsterConfig) (w dirR : R) (r : Rolls) :
  let m := create st nextId c w now dirR r in
  id m = nextId /\ x m = cfg_x c /\ y m = cfg_y c /\
  heightMeters m = cfg_heightMeters c /\ type m = cfg_type c /\
  isAlive m = true /\ isChasing m = false /\
  speedMultiplier m = JS.orDefault (cfg_speedMultiplier c) 1 /\
  now + 500 <= nextDirectionChange m.
Proof.
  cbv zeta. unfold create, updateCurrentLane, scheduleDirectionChange, updateMoveSpeed.
  simpl. repeat split; try reflexivity.
  pose proof (Rmax_l 500 (directionChangeInterval st
    + IZR (Phaser.Between (- directionChangeVariance st) (directionChangeVariance st)
             (delayRoll r)))).
  lra.
Qed.

Lemma place_climbs (remaining k : nat) (prevLane : option Z) (last : R) (nextId : Z) :
  climbs baseSpacing last (map heightMeters (place remaining k prevLane last nextId)) /\
  Forall (fun m => heightMeters m <= rangeEndM) (place remaining k prevLane last nextId).
Proof.
  revert k prevLane last nextId.
  induction remaining as [|n IH]; intros; cbn [placeMonsters]; [split; constructor|].
  destruct (JS.ltb last rangeEndM); [|split; constructor].
  cbv zeta. destruct (JS.gtb _ rangeEndM) eqn:E; [split; constructor|].
  apply gtb_false in E.
  set (lane := chooseLane p prevLane last (rolls k)) in *.
  destruct (IH (S k) (Some lane) (last + spacingFor p baseSpacing prevLane lane)
              (nextId + 1)%Z) as [C F].
  pose proof (spacingFor_ge prevLane lane).
  cbn [map climbs]. split.
  - split; [simpl; lra | exact C].
  - constructor; [simpl; exact E | exact F].
Qed.

Lemma place_monsters (remaining k : nat) (prevLane : option Z) (last : R) (nextId : Z) :
  Forall (fun m =>
            isAlive m = true /\ isChasing m = false /\
            y m = groundY mgr - heightMeters m * MonsterCollection.pixelsPerMeter mgr /\
            speedMultiplier m = speedMult /\
            (exists rnd, type m = MonsterManager.selectMonsterType (heightMeters m) rnd) /\
            (60 <= MonsterCollection.screenWidth mgr -> 30 <= x m <= MonsterCollection.screenWidth mgr - 30))
         (place remaining k prevLane last nextId).
Proof.
  revert k prevLane last nextId.
  induction remaining as [|n IH]; intros; cbn [placeMonsters]; [constructor|].
  destruct (JS.ltb last rangeEndM); [|constructor].
  cbv zeta. destruct (JS.gtb _ rangeEndM); [constructor|].
  constructor; [|apply IH].
  simpl. repeat split.
  - eexists. reflexivity.
  - apply Clamp_bounds. lra.
  - apply Clamp_bounds. lra.
Qed.

Lemma place_ids (remaining k : nat) (prevLane : option Z) (last : R) (nextId : Z)
    (i : nat) (m : Monster) :
  nth_error (place remaining k prevLane last nextId) i = Some m ->
  id m = (nextId + Z.of_nat i)%Z.
Proof.
  revert k prevLane last nextId i.
  induction remaining as [|n IH]; intros k prevLane last nextId i; cbn [placeMonsters].
  - destruct i; discriminate.
  - destruct (JS.ltb last rangeEndM); [|destruct i; discriminate].
    cbv zeta. destruct (JS.gtb _ rangeEndM); [destruct i; discriminate|].
    destruct i as [|i]; cbn [nth_error].
    + intros [= <-]. simpl. lia.
    + intros H. apply IH in H. lia.
Qed.

End PlacementProps.

Section SpawnProps.

Import Monster MonsterCollection Spawner.

Variable director : DirectorConfig.
Variable p : PlacementConfig.
Variable st : Settings.
Variable mgr : Manager.
Variable now : R.
Variable rolls : nat -> SpawnRolls.
Variable nextId : Z.
Variable predictedApexHeightPx countMultiplier : R.

Local Abbreviation apexM := (predictedApexHeightPx / MonsterCollection.pixelsPerMeter mgr).
Local Abbreviation startM := (MonsterManager.bandStart director apexM).
Local Abbreviation endM := (MonsterManager.bandEnd director apexM).

Lemma spawn_split (monsters : list Monster) :
  enabled director = true ->
  spawnApexMonsters director p st mgr now rolls nextId predictedApexHeightPx
    countMultiplier monsters
  = filter (keepOld startM endM) monsters ++
    (if JS.ltb (endM - startM) (baseSpacingOf p apexM) then []
     else placeMonsters st mgr p now rolls endM (baseSpacingOf p apexM)
            (MonsterManager.spawnSpeedMultiplier director apexM)
            (Z.to_nat (MonsterManager.spawnCount director apexM countMultiplier))
            0 None startM nextId).
Proof.
  intros He. unfold spawnApexMonsters, MonsterManager.spawnWindow.
  rewrite He. cbn [negb]. cbv zeta.
  cbn [MonsterManager.rangeStartM MonsterManager.rangeEndM
       MonsterManager.targetCount MonsterManager.speedMultiplier].
  destruct (JS.ltb _ _); [rewrite app_nil_r|]; reflexivity.
Qed.

Lemma keepOld_spec (a b : R) (m : Monster) :
  keepOld a b m = true <->
  isAlive m = true /\ (heightMeters m < a - 5 \/ b + 5 < heightMeters m).
Proof.
  unfold keepOld. destruct (isAlive m); cbn [negb]; [|split; [discriminate | intros [? _]; discriminate]].
  cbv zeta.
  destruct (JS.geb (heightMeters m) (a - 5)) eqn:E1;
    [apply geb_true in E1 | apply geb_false in E1];
    (destruct (JS.leb (heightMeters m) (b + 5)) eqn:E2;
     [apply leb_true in E2 | apply leb_false in E2]); cbn [andb];
    split; try discriminate; try (intros [_ [? | ?]]; lra); intros _; split; auto.
Qed.

Lemma climbs_lower (gap last : R) (hs : list R) :
  0 <= gap -> climbs gap last hs -> Forall (fun h => last + gap <= h) hs.
Proof.
  intros Hg. revert last. induction hs as [|h rest IH]; intros last; [constructor|].
  cbn [climbs]. intros [H1 H2]. constructor; [exact H1|].
  specialize (IH h H2). eapply Forall_impl; [|exact IH].
  cbv beta. intros; lra.
Qed.

End SpawnProps.

(** The decomposition of the collection after a spawn, shared by the two
    theorems below. *)
Lemma spawned_monsters_placement
    (director : DirectorConfig) (p : Spawner.PlacementConfig) (st : Monster.Settings)
    (mgr : MonsterCollection.Manager) (now : R) (rolls : nat -> Spawner.SpawnRolls)
    (nextId : Z) (predictedApexHeightPx countMultiplier : R)
    (monsters : list Monster.Monster) :
  enabled director = true ->
  0 <= Spawner.baseSpacingOf p (predictedApexHeightPx / MonsterCollection.pixelsPerMeter mgr) ->
  0 <= Spawner.sameSideBonusOf p -> 0 <= Spawner.diagonalBonusOf p ->
  exists placed,
    Spawner.spawnApexMonsters director p st mgr now rolls nextId
      predictedApexHeightPx countMultiplier monsters
    = filter (Spawner.keepOld
                (MonsterManager.bandStart director
                   (predictedApexHeightPx / MonsterCollection.pixelsPerMeter mgr))
                (MonsterManager.bandEnd director
                   (predictedApexHeightPx / MonsterCollection.pixelsPerMeter mgr)))
        monsters ++ placed /\
    Spawner.climbs
      (Spawner.baseSpacingOf p (predictedApexHeightPx / MonsterCollection.pixelsPerMeter mgr))
      (MonsterManager.bandStart director
         (predictedApexHeightPx / MonsterCollection.pixelsPerMeter mgr))
      (map Monster.heightMeters placed) /\
    Forall (fun m =>
              Monster.heightMeters m
                <= MonsterManager.bandEnd director
                     (predictedApexHeightPx / MonsterCollection.pixelsPerMeter mgr) /\
              Monster.isAlive m = true)
           placed.
Proof.
  intros He Hb Hs Hd.
  rewrite spawn_split by exact He.
  destruct (JS.ltb _ _).
  - exists []. split; [reflexivity|]. split; [exact Logic.I | constructor].
  - eexists. split; [reflexivity|]. split.
    + apply place_climbs; assumption.
    + match goal with |- Forall _ (Spawner.placeMonsters ?a ?b ?c ?d ?e ?f ?g ?h ?n ?k ?l ?s ?i) =>
        pose proof (proj2 (place_climbs a b c d e f g h Hb Hs Hd n k l s i)) as F1;
        pose proof (place_monsters a b c d e f g h n k l s i) as F2 end.
      rewrite Forall_forall in *. intros m Hm.
      specialize (F1 m Hm). specialize (F2 m Hm). cbv beta in *. tauto.
Qed.

(** X20. The placement of [spawnApexMonsters]: the old monsters that pass
    the filter are followed by at most [targetCount] new ones, whose heights
    climb from the start of the band in steps of at least the base spacing
    and end at or below the end of the band.  Every new monster is alive,
    stands at the world height of its altitude, carries the speed
    multiplier of the window and consecutive ids, and is at least 30 px
    from either edge of the screen. *)
Theorem spawned_monsters_climb_within_the_band
    (director : DirectorConfig) (p : Spawner.PlacementConfig) (st : Monster.Settings)
    (mgr : MonsterCollection.Manager) (now : R) (rolls : nat -> Spawner.SpawnRolls)
    (nextId : Z) (predictedApexHeightPx countMultiplier : R)
    (monsters : list Monster.Monster) :
  let apexM := predictedApexHeightPx / MonsterCollection.pixelsPerMeter mgr in
  let startM := MonsterManager.bandStart director apexM in
  let endM := MonsterManager.bandEnd director apexM in
  enabled director = true ->
  0 <= Spawner.baseSpacingOf p apexM ->
  0 <= Spawner.sameSideBonusOf p -> 0 <= Spawner.diagonalBonusOf p ->
  exists placed,
    Spawner.spawnApexMonsters director p st mgr now rolls nextId
      predictedApexHeightPx countMultiplier monsters
    = filter (Spawner.keepOld startM endM) monsters ++ placed /\
    (Z.of_nat (length placed)
     <= MonsterManager.spawnCount director apexM countMultiplier)%Z /\
    Spawner.climbs (Spawner.baseSpacingOf p apexM) startM
      (map Monster.heightMeters placed) /\
    Forall (fun m =>
              Monster.heightMeters m <= endM /\
              Monster.isAlive m = true /\
              Monster.y m = MonsterCollection.groundY mgr
                            - Monster.heightMeters m * MonsterCollection.pixelsPerMeter mgr /\
              Monster.speedMultiplier m
                = MonsterManager.spawnSpeedMultiplier director apexM /\
              (60 <= MonsterCollection.screenWidth mgr ->
               30 <= Monster.x m <= MonsterCollection.screenWidth mgr - 30))
           placed /\
    (forall i m, nth_error placed i = Some m -> Monster.id m = (nextId + Z.of_nat i)%Z).
Proof.
  cbv zeta. intros He Hb Hs Hd.
  rewrite spawn_split by exact He.
  destruct (JS.ltb _ _).
  - exists []. split; [reflexivity|]. split; [unfold MonsterManager.spawnCount; simpl; lia|].
    split; [exact Logic.I|]. split; [constructor|].
    intros [|i] m; discriminate.
  - eexists. split; [reflexivity|]. split; [|split; [|split]].
    + match goal with |- (Z.of_nat (length (Spawner.placeMonsters ?a ?b ?c ?d ?e ?f ?g ?h ?n ?k ?l ?s ?i)) <= _)%Z =>
        pose proof (place_length a b c d e f g h n k l s i) as L end.
      unfold MonsterManager.spawnCount in *. lia.
    + apply place_climbs; assumption.
    + match goal with |- Forall _ (Spawner.placeMonsters ?a ?b ?c ?d ?e ?f ?g ?h ?n ?k ?l ?s ?i) =>
        pose proof (proj2 (place_climbs a b c d e f g h Hb Hs Hd n k l s i)) as F1;
        pose proof (place_monsters a b c d e f g h n k l s i) as F2 end.
      rewrite Forall_forall in *. intros m Hm.
      specialize (F1 m Hm). specialize (F2 m Hm). cbv beta in *. tauto.
    + intros i m. apply place_ids.
Qed.

(** A PERFECT landing that predicts an apex of 200 m on an empty stage. *)
Lemma spawned_monsters_witness :
  exists placed,
    Spawner.spawnApexMonsters defaultDirector samplePlacement sampleSettings
      sampleManager 0 sampleSpawnRolls 1 10000 1 []
    = filter (Spawner.keepOld (MonsterManager.bandStart defaultDirector (10000 / 50))
                              (MonsterManager.bandEnd defaultDirector (10000 / 50))) []
      ++ placed /\
    (Z.of_nat (length placed)
     <= MonsterManager.spawnCount defaultDirector (10000 / 50) 1)%Z /\
    Spawner.climbs (Spawner.baseSpacingOf samplePlacement (10000 / 50))
      (MonsterManager.bandStart defaultDirector (10000 / 50))
      (map Monster.heightMeters placed) /\
    Forall (fun m =>
              Monster.heightMeters m <= MonsterManager.bandEnd defaultDirector (10000 / 50) /\
              Monster.isAlive m = true /\
              Monster.y m = 0 - Monster.heightMeters m * 50 /\
              Monster.speedMultiplier m
                = MonsterManager.spawnSpeedMultiplier defaultDirector (10000 / 50) /\
              (60 <= 540 -> 30 <= Monster.x m <= 540 - 30))
           placed /\
    (forall i m, nth_error placed i = Some m -> Monster.id m = (1 + Z.of_nat i)%Z).
Proof.
  apply (spawned_monsters_climb_within_the_band defaultDirector samplePlacement
           sampleSettings sampleManager 0 sampleSpawnRolls 1 10000 1 []).
  - reflexivity.
  - unfold Spawner.baseSpacingOf; simpl; lra.
  - unfold Spawner.sameSideBonusOf; simpl; lra.
  - unfold Spawner.diagonalBonusOf; simpl; lra.
Defined.

(** X21. After a spawn the stage holds living monsters only, and the old
    ones are clear of the new: every monster of the collection is alive, an
    old monster stays exactly when it is alive and more than 5 m outside
    the band, and every new monster is more than 5 m away in height from
    every old one that stayed. *)
Theorem spawn_keeps_living_monsters_clear_of_the_band
    (director : DirectorConfig) (p : Spawner.PlacementConfig) (st : Monster.Settings)
    (mgr : MonsterCollection.Manager) (now : R) (rolls : nat -> Spawner.SpawnRolls)
    (nextId : Z) (predictedApexHeightPx countMultiplier : R)
    (monsters : list Monster.Monster) :
  let apexM := predictedApexHeightPx / MonsterCollection.pixelsPerMeter mgr in
  let startM := MonsterManager.bandStart director apexM in
  let endM := MonsterManager.bandEnd director apexM in
  let after := Spawner.spawnApexMonsters director p st mgr now rolls nextId
                 predictedApexHeightPx countMultiplier monsters in
  enabled director = true ->
  0 <= Spawner.baseSpacingOf p apexM ->
  0 <= Spawner.sameSideBonusOf p -> 0 <= Spawner.diagonalBonusOf p ->
  Forall (fun m => Monster.isAlive m = true) after /\
  exists placed,
    after = filter (Spawner.keepOld startM endM) monsters ++ placed /\
    (forall m, In m (filter (Spawner.keepOld startM endM) monsters) <->
       In m monsters /\ Monster.isAlive m = true /\
       (Monster.heightMeters m < startM - 5 \/ endM + 5 < Monster.heightMeters m)) /\
    (forall old new,
       In old (filter (Spawner.keepOld startM endM) monsters) -> In new placed ->
       5 < Rabs (Monster.heightMeters new - Monster.heightMeters old)).
Proof.
  cbv zeta. intros He Hb Hs Hd.
  destruct (spawned_monsters_placement director p st mgr now rolls nextId
              predictedApexHeightPx countMultiplier monsters He Hb Hs Hd)
    as (placed & E & C & F).
  rewrite E.
  assert (K : forall m,
            In m (filter (Spawner.keepOld
                            (MonsterManager.bandStart director
                               (predictedApexHeightPx / MonsterCollection.pixelsPerMeter mgr))
                            (MonsterManager.bandEnd director
                               (predictedApexHeightPx / MonsterCollection.pixelsPerMeter mgr)))
                    monsters) <->
            In m monsters /\ Monster.isAlive m = true /\
            (Monster.heightMeters m
               < MonsterManager.bandStart director
                   (predictedApexHeightPx / MonsterCollection.pixelsPerMeter mgr) - 5 \/
             MonsterManager.bandEnd director
               (predictedApexHeightPx / MonsterCollection.pixelsPerMeter mgr) + 5
               < Monster.heightMeters m)).
  { intros m. rewrite filter_In, keepOld_spec. tauto. }
  split.
  - apply Forall_app. split.
    + apply Forall_forall. intros m Hm. apply K in Hm. tauto.
    + eapply Forall_impl; [|exact F]. cbv beta. tauto.
  - exists placed. split; [reflexivity|]. split; [exact K|].
    intros old new Ho Hn. apply K in Ho. destruct Ho as (_ & _ & Ho).
    pose proof (climbs_lower _ _ _ Hb C) as L.
    rewrite Forall_forall in L, F.
    specialize (L (Monster.heightMeters new) (in_map _ _ _ Hn)).
    specialize (F new Hn). cbv beta in *. destruct F as (F & _).
    unfold Rabs. destruct (Rcase_abs _); lra.
Qed.

Lemma spawn_keeps_living_witness :
  Forall (fun m => Monster.isAlive m = true)
    (Spawner.spawnApexMonsters defaultDirector samplePlacement sampleSettings
       sampleManager 0 sampleSpawnRolls 3 10000 1 [sampleMonster; sampleBat]) /\
  exists placed,
    Spawner.spawnApexMonsters defaultDirector samplePlacement sampleSettings
      sampleManager 0 sampleSpawnRolls 3 10000 1 [sampleMonster; sampleBat]
    = filter (Spawner.keepOld (MonsterManager.bandStart defaultDirector (10000 / 50))
                              (MonsterManager.bandEnd defaultDirector (10000 / 50)))
        [sampleMonster; sampleBat] ++ placed /\
    (forall m,
       In m (filter (Spawner.keepOld (MonsterManager.bandStart defaultDirector (10000 / 50))
                                     (MonsterManager.bandEnd defaultDirector (10000 / 50)))
               [sampleMonster; sampleBat]) <->
       In m [sampleMonster; sampleBat] /\ Monster.isAlive m = true /\
       (Monster.heightMeters m < MonsterManager.bandStart defaultDirector (10000 / 50) - 5 \/
        MonsterManager.bandEnd defaultDirector (10000 / 50) + 5 < Monster.heightMeters m)) /\
    (forall old new,
       In old (filter (Spawner.keepOld (MonsterManager.bandStart defaultDirector (10000 / 50))
                                       (MonsterManager.bandEnd defaultDirector (10000 / 50)))
                 [sampleMonster; sampleBat]) ->
       In new placed ->
       5 < Rabs (Monster.heightMeters new - Monster.heightMeters old)).
Proof.
  apply (spawn_keeps_living_monsters_clear_of_the_band defaultDirector samplePlacement
           sampleSettings sampleManager 0 sampleSpawnRolls 3 10000 1
           [sampleMonster; sampleBat]).
  - reflexivity.
  - unfold Spawner.baseSpacingOf; simpl; lra.
  - unfold Spawner.sameSideBonusOf; simpl; lra.
  - unfold Spawner.diagonalBonusOf; simpl; lra.
Defined.

(** ** MonsterManager: speed, types and the alternation curve *)

(** X22. The speed multiplier of a spawn starts at 1, never decreases with
    the apex height and never exceeds the configured maximum. *)
Theorem spawn_speed_multiplier_bounded_and_monotone
    (director : DirectorConfig) (a1 a2 : R) :
  0 < JS.orDefault (speedRefHeightM director) 400 ->
  0 <= JS.orDefault (speedGrowthFactor director) (15 / 10) ->
  1 <= JS.orDefault (maxSpeedMultiplier director) 3 ->
  0 <= a1 <= a2 ->
  MonsterManager.spawnSpeedMultiplier director 0 = 1 /\
  1 <= MonsterManager.spawnSpeedMultiplier director a1
    <= MonsterManager.spawnSpeedMultiplier director a2 /\
  MonsterManager.spawnSpeedMultiplier director a2
    <= JS.orDefault (maxSpeedMultiplier director) 3.
Proof.
  intros Hr Hg Hm [H1 H2]. unfold MonsterManager.spawnSpeedMultiplier. cbv zeta.
  set (ref := JS.orDefault (speedRefHeightM director) 400) in *.
  set (g := JS.orDefault (speedGrowthFactor director) (15 / 10)) in *.
  set (mx := JS.orDefault (maxSpeedMultiplier director) 3) in *.
  assert (I : 0 < / ref) by (apply Rinv_0_lt_compat; exact Hr).
  assert (Q1 : 0 <= a1 / ref * g).
  { apply Rmult_le_pos; [|exact Hg]. apply Rmult_le_pos; lra. }
  assert (Q2 : a1 / ref * g <= a2 / ref * g).
  { apply Rmult_le_compat_r; [exact Hg|]. apply Rmult_le_compat_r; lra. }
  split; [|split; [split|]].
  - replace (1 + 0 / ref * g) with 1 by (unfold Rdiv; ring).
    apply Rmin_left. exact Hm.
  - apply Rmin_glb; lra.
  - apply Rle_min_compat_r. lra.
  - apply Rmin_r.
Qed.

Lemma spawn_speed_witness :
  MonsterManager.spawnSpeedMultiplier defaultDirector 0 = 1 /\
  1 <= MonsterManager.spawnSpeedMultiplier defaultDirector 200
    <= MonsterManager.spawnSpeedMultiplier defaultDirector 800 /\
  MonsterManager.spawnSpeedMultiplier defaultDirector 800 <= 3.
Proof.
  apply (spawn_speed_multiplier_bounded_and_monotone defaultDirector 200 800);
    simpl; lra.
Defined.

Section TypeBands.

Lemma candidate_weight (w01 w02 w03 wCloud : R) (t : MonsterType) :
  In t (map fst (MonsterManager.candidatesOf w01 w02 w03 wCloud)) ->
  1 / 100 < match t with A01 => w01 | A02 => w02 | A03 => w03 | CloudA => wCloud end.
Proof.
  unfold MonsterManager.candidatesOf.
  destruct (JS.gtb w01 (1 / 100)) eqn:E1; destruct (JS.gtb w02 (1 / 100)) eqn:E2;
    destruct (JS.gtb w03 (1 / 100)) eqn:E3; destruct (JS.gtb wCloud (1 / 100)) eqn:E4;
    try apply gtb_true in E1; try apply gtb_true in E2;
    try apply gtb_true in E3; try apply gtb_true in E4;
    simpl; intros H;
    repeat (destruct H as [<- | H]; [assumption|]); destruct H.
Qed.

End TypeBands.

Lemma type_weight_band (h : R) (t : MonsterType) :
  1 / 100 < match t with
            | A01 => MonsterManager.a01Weight h
            | A02 => MonsterManager.a02Weight h
            | A03 => MonsterManager.a03Weight h
            | CloudA => MonsterManager.cloudWeight h
            end ->
  match t with
  | A01 => h < 600
  | A02 => 200 < h < 1000
  | A03 => 600 < h
  | CloudA => 400 < h < 1100
  end.
Proof.
  destruct t; unfold MonsterManager.a01Weight, MonsterManager.a02Weight,
    MonsterManager.a03Weight, MonsterManager.cloudWeight; js_cases; lra.
Qed.

Lemma selected_type_weight (h rnd : R) :
  1 / 100 < match MonsterManager.selectMonsterType h rnd with
            | A01 => MonsterManager.a01Weight h
            | A02 => MonsterManager.a02Weight h
            | A03 => MonsterManager.a03Weight h
            | CloudA => MonsterManager.cloudWeight h
            end.
Proof.
  apply candidate_weight. unfold MonsterManager.selectMonsterType.
  destruct (chooseType_candidate (MonsterManager.a01Weight h)
              (MonsterManager.a02Weight h) (MonsterManager.a03Weight h)
              (MonsterManager.cloudWeight h) rnd) as [[E _] | I].
  - exfalso. exact (candidates_nonempty h E).
  - exact I.
Qed.

(** X23. Every type of monster appears only in its own band of altitude:
    A01 below 600 m, A02 between 200 m and 1000 m, A03 above 600 m and
    CloudA between 400 m and 1100 m, whatever the random draw.  Up to
    200 m every monster is an A01, and from 1100 m on every one an A03. *)
Theorem monster_types_appear_only_in_their_bands (heightM rnd : R) :
  match MonsterManager.selectMonsterType heightM rnd with
  | A01 => heightM < 600
  | A02 => 200 < heightM < 1000
  | A03 => 600 < heightM
  | CloudA => 400 < heightM < 1100
  end /\
  (heightM <= 200 -> MonsterManager.selectMonsterType heightM rnd = A01) /\
  (1100 <= heightM -> MonsterManager.selectMonsterType heightM rnd = A03).
Proof.
  pose proof (type_weight_band heightM _ (selected_type_weight heightM rnd)) as B.
  split; [exact B|].
  split; intros H; destruct (MonsterManager.selectMonsterType heightM rnd);
    try reflexivity; lra.
Qed.

Section CurveProps.

Import Spawner.

Lemma interpolate_between (lo hi heightM : R) (curve : list (R * R)) :
  ascending curve ->
  Forall (fun c => lo <= snd c <= hi) curve ->
  match curve with
  | [] => False
  | (h1, _) :: _ => h1 <= heightM
  end ->
  lo <= interpolate heightM curve <= hi.
Proof.
  induction curve as [|[h1 c1] rest IH]; [tauto|].
  intros Ha Hf Hh. cbn [interpolate].
  inversion Hf as [|? ? Hc1 Hrest]; subst. cbn [snd] in Hc1.
  destruct rest as [|[h2 c2] rest']; [exact Hc1|].
  destruct Ha as [H12 Ha].
  inversion Hrest as [|? ? Hc2 _]; subst. cbn [snd] in Hc2.
  destruct (JS.leb heightM h2) eqn:E.
  - apply leb_true in E. unfold JS.eqb.
    destruct (Req_dec_T h2 h1) as [E1 | E1]; [exact Hc1|].
    cbv zeta.
    assert (P : 0 < h2 - h1) by lra.
    assert (T0 : 0 <= (heightM - h1) / (h2 - h1)).
    { apply Rmult_le_pos; [lra|]. left. apply Rinv_0_lt_compat, P. }
    assert (T1 : (heightM - h1) / (h2 - h1) <= 1).
    { apply Rmult_le_reg_r with (h2 - h1); [exact P|].
      unfold Rdiv. rewrite Rmult_assoc, Rinv_l by lra. lra. }
    set (t := (heightM - h1) / (h2 - h1)) in *.
    destruct (Rle_dec c1 c2).
    + assert (0 <= (c2 - c1) * t) by (apply Rmult_le_pos; lra).
      assert ((c2 - c1) * t <= (c2 - c1) * 1) by (apply Rmult_le_compat_l; lra).
      lra.
    + assert (0 <= (c1 - c2) * t) by (apply Rmult_le_pos; lra).
      assert ((c1 - c2) * t <= (c1 - c2) * 1) by (apply Rmult_le_compat_l; lra).
      lra.
  - apply leb_false in E. apply IH; [exact Ha | exact Hrest | lra].
Qed.

End CurveProps.

(** X24. The chance of alternating lanes stays within the control values
    of the curve: for a curve of two or more points with heights that do
    not decrease and chances within [[lo, hi]], the chance at any height
    from the first control height on lies within [[lo, hi]]; without a
    curve, or with fewer than two points, it is one half. *)
Theorem alternate_chance_stays_within_the_curve
    (p : Spawner.PlacementConfig) (heightM lo hi : R) :
  match Spawner.difficultyCurve p with
  | None => Spawner.getAlternateChance p heightM = 1 / 2
  | Some curve =>
      ((length curve < 2)%nat -> Spawner.getAlternateChance p heightM = 1 / 2) /\
      (Spawner.ascending curve ->
       Forall (fun c => lo <= snd c <= hi) curve ->
       match curve with
       | [] => False
       | (h1, _) :: _ => h1 <= heightM
       end ->
       (2 <= length curve)%nat ->
       lo <= Spawner.getAlternateChance p heightM <= hi)
  end.
Proof.
  unfold Spawner.getAlternateChance.
  destruct (Spawner.difficultyCurve p) as [curve|]; [|reflexivity].
  split.
  - intros H. apply Nat.ltb_lt in H. rewrite H. reflexivity.
  - intros Ha Hf Hh Hl.
    assert (E : (length curve <? 2)%nat = false) by (apply Nat.ltb_ge; exact Hl).
    rewrite E. apply interpolate_between; assumption.
Qed.

Lemma alternate_chance_witness :
  3 / 10 <= Spawner.getAlternateChance
              (Spawner.mkPlacementConfig None None (Some sampleCurve)) 700
         <= 9 / 10.
Proof.
  apply (proj2 (alternate_chance_stays_within_the_curve
                  (Spawner.mkPlacementConfig None None (Some sampleCurve))
                  700 (3 / 10) (9 / 10))).
  - simpl. lra.
  - unfold sampleCurve. repeat constructor; simpl; lra.
  - simpl. lra.
  - simpl. lia.
Defined.

(** ** Ground: the force, the rest state and the surface query *)

Section GroundMore.

Import Ground.

Lemma get_zeros (n i : nat) : get (repeat 0 n) i = 0.
Proof.
  unfold get. revert i. induction n as [|n IH]; intros [|i]; simpl; auto.
Qed.

Lemma assign_get (l : list R) (i : nat) : assign l i (get l i) = l.
Proof.
  unfold get. revert i. induction l as [|x t IH]; intros [|i]; simpl; auto.
  rewrite IH. reflexivity.
Qed.

Lemma stepColumn_rest (h : R) (n i : nat) :
  stepColumn h (initial n) i = initial n.
Proof.
  unfold stepColumn, initial. cbn [BLOCKS_PER_ROW yOffset yVel force].
  rewrite !get_zeros.
  replace (0 + (TENSION * (0 - 2 * 0 + 0) - STIFFNESS * 0 - DAMPING * 0 + 0) * h)
    with 0 by ring.
  replace (0 + 0 * h) with 0 by ring.
  assert (E : Rmax (- MAX_OFFSET * (3 / 10)) (Rmin MAX_OFFSET 0) = 0).
  { unfold MAX_OFFSET. rewrite Rmin_right by lra. apply Rmax_right. lra. }
  rewrite E.
  rewrite <- (get_zeros n i) at 2 4.
  rewrite !assign_get. reflexivity.
Qed.

Lemma substep_rest (h : R) (n : nat) : substep h (initial n) = initial n.
Proof.
  unfold substep. cbn [BLOCKS_PER_ROW initial].
  fold (initial n). generalize (seq 0 n). intros cols.
  induction cols as [|i rest IH]; [reflexivity|].
  cbn [fold_left]. rewrite stepColumn_rest. exact IH.
Qed.

(** The force loop over columns that are all different and inside the
    array adds the bump of every column once. *)
Lemma addForce_fold (P : R) (c : Z) (cols : list nat) (f : list R) (i : nat) :
  NoDup cols -> (forall k, In k cols -> (k < length f)%nat) ->
  get (fold_left (addForce P c) cols f) i =
  if in_dec Nat.eq_dec i cols then get f i + forceAt P c i else get f i.
Proof.
  revert f. induction cols as [|k rest IH]; intros f Hn Hb; [reflexivity|].
  cbn [fold_left]. inversion Hn as [|? ? Hk Hrest]; subst.
  rewrite IH; [|exact Hrest|].
  2:{ intros j Hj. unfold addForce. rewrite assign_length. apply Hb. now right. }
  destruct (in_dec Nat.eq_dec i rest) as [I | I];
    destruct (in_dec Nat.eq_dec i (k :: rest)) as [J | J].
  - assert (k <> i) by (intros ->; contradiction).
    unfold addForce. rewrite get_assign_other by assumption. reflexivity.
  - exfalso. apply J. now right.
  - destruct J as [-> | J]; [|contradiction].
    unfold addForce. rewrite get_assign_same by (apply Hb; now left). reflexivity.
  - assert (k <> i) by (intros ->; apply J; now left).
    unfold addForce. rewrite get_assign_other by assumption. reflexivity.
Qed.

Lemma forceColumns_spec (n : nat) (c : Z) (i : nat) :
  In i (forceColumns n c) <->
  (i < n)%nat /\ (Z.abs (Z.of_nat i - c) <= 6)%Z.
Proof.
  unfold forceColumns. cbv zeta. rewrite in_map_iff. split.
  - intros (k & <- & Hk). apply in_seq in Hk. lia.
  - intros [H1 H2].
    exists (Z.to_nat (Z.of_nat i - Z.max 0 (c - 6))). split; [lia|].
    apply in_seq. lia.
Qed.

Lemma forceColumns_NoDup (n : nat) (c : Z) : NoDup (forceColumns n c).
Proof.
  unfold forceColumns. cbv zeta.
  generalize (Z.to_nat (Z.min (Z.of_nat n - 1) (c + 6) - Z.max 0 (c - 6) + 1)).
  intros m. generalize 0%nat. induction m as [|m IH]; intros start; [constructor|].
  cbn [seq map]. constructor; [|apply IH].
  rewrite in_map_iff. intros (k & E & Hk). apply in_seq in Hk. lia.
Qed.

End GroundMore.

(** X25. The force of the compression is a bump clipped to the ground: on a
    column of the ground within 6 columns of the centre the force is
    [80 * depth * exp(-d * d / (2 * 1.6 * 1.6))] for a positive depth, on
    every other column and for every other depth it is 0; it is never
    negative and never more than [80 * depth]. *)
Theorem ground_force_is_a_clipped_bump
    (G : Ground.Ground) (depressionDepth : R) (centerCol : Z) (i : nat) :
  (i < Ground.BLOCKS_PER_ROW G)%nat ->
  let F := Ground.get (Ground.force (Ground.computeForce G depressionDepth centerCol)) i in
  F = (if JS.gtb depressionDepth 0 && (Z.abs (Z.of_nat i - centerCol) <=? 6)%Z
       then Ground.forceAt (depressionDepth * 80) centerCol i else 0) /\
  (0 <= depressionDepth -> 0 <= F <= depressionDepth * 80).
Proof.
  intros Hi. cbv zeta.
  assert (E : Ground.get (Ground.force (Ground.computeForce G depressionDepth centerCol)) i
              = if JS.gtb depressionDepth 0 && (Z.abs (Z.of_nat i - centerCol) <=? 6)%Z
                then Ground.forceAt (depressionDepth * 80) centerCol i else 0).
  { unfold Ground.computeForce. cbn [Ground.force].
    destruct (JS.gtb depressionDepth 0); cbn [andb]; [|apply get_zeros].
    rewrite addForce_fold.
    - rewrite get_zeros.
      destruct (in_dec Nat.eq_dec i _) as [I | I];
        rewrite forceColumns_spec in I;
        destruct (Z.abs (Z.of_nat i - centerCol) <=? 6)%Z eqn:A;
        try apply Z.leb_le in A; try apply Z.leb_gt in A; try lra; lia.
    - apply forceColumns_NoDup.
    - intros k Hk. apply forceColumns_spec in Hk. rewrite repeat_length. tauto. }
  split; [exact E|].
  intros Hd. rewrite E.
  destruct (JS.gtb depressionDepth 0 && _); [|lra].
  unfold Ground.forceAt. cbv zeta.
  set (d := IZR (Z.of_nat i - centerCol)).
  assert (X : 0 < exp (- (d * d) / (2 * (16 / 10) * (16 / 10))) <= 1).
  { split; [apply exp_pos|].
    replace (- (d * d) / (2 * (16 / 10) * (16 / 10)))
      with (- (d * d / (2 * (16 / 10) * (16 / 10)))) by (field; lra).
    apply exp_neg_le_1.
    pose proof (Rle_0_sqr d) as S. unfold Rsqr in S.
    apply Rmult_le_pos; [exact S|]. lra. }
  destruct X as [X0 X1].
  assert (0 <= depressionDepth * 80) by lra.
  split.
  - apply Rmult_le_pos; lra.
  - rewrite <- (Rmult_1_r (depressionDepth * 80)) at 2.
    apply Rmult_le_compat_l; lra.
Qed.

(** The middle column of a five-column ground pressed 10 px deep. *)
Lemma ground_force_witness :
  let F := Ground.get (Ground.force (Ground.computeForce (Ground.initial 5) 10 2)) 2 in
  F = (if JS.gtb 10 0 && (Z.abs (Z.of_nat 2 - 2) <=? 6)%Z
       then Ground.forceAt (10 * 80) 2 2 else 0) /\
  (0 <= 10 -> 0 <= F <= 10 * 80).
Proof.
  apply (ground_force_is_a_clipped_bump (Ground.initial 5) 10 2 2). simpl. lia.
Defined.

(** X26. A ground at rest stays at rest: with every offset and every
    velocity 0 and nothing pressing on it, a render of any time step leaves
    the ground as the constructor built it. *)
Theorem ground_at_rest_stays_at_rest
    (G : Ground.Ground) (dt depressionDepth : R) (playerX : option R) :
  Ground.yOffset G = repeat 0 (Ground.BLOCKS_PER_ROW G) ->
  Ground.yVel G = repeat 0 (Ground.BLOCKS_PER_ROW G) ->
  depressionDepth <= 0 ->
  Ground.render G dt depressionDepth playerX = Ground.initial (Ground.BLOCKS_PER_ROW G).
Proof.
  intros Hy Hv Hd. unfold Ground.render, Ground.integrate, Ground.computeForce.
  rewrite (proj2 (gtb_false _ _) Hd), Hy, Hv. cbv zeta.
  fold (Ground.initial (Ground.BLOCKS_PER_ROW G)).
  rewrite !substep_rest. reflexivity.
Qed.

Lemma ground_at_rest_witness :
  Ground.render (Ground.initial 5) (1 / 120) 0 (Some 160) = Ground.initial 5.
Proof.
  apply (ground_at_rest_stays_at_rest (Ground.initial 5) (1 / 120) 0 (Some 160));
    [reflexivity | reflexivity | lra].
Defined.

Section SurfaceQuery.

Import Ground.

Lemma get_inRange (l : list R) (k : nat) : Forall inRange l -> inRange (get l k).
Proof.
  intros F. unfold get. destruct (Nat.lt_ge_cases k (length l)) as [L | L].
  - rewrite Forall_forall in F. apply F, nth_In, L.
  - rewrite nth_overflow by exact L. unfold inRange, MAX_OFFSET. lra.
Qed.

Lemma render_inRange (G : Ground) (dt depth : R) (playerX : option R) :
  wf G -> Forall inRange (yOffset (render G dt depth playerX)).
Proof.
  intros W. unfold render, integrate. cbv zeta.
  pose proof (computeForce_wf G depth (centerColOf G playerX) W) as W1.
  destruct (substep_inRange (dt / 2) _ W1) as (W2 & _ & _).
  apply (substep_inRange (dt / 2) _ W2).
Qed.

End SurfaceQuery.

(** X27. The surface query reads the column under [x]: for [x] over column
    [i] it returns the offset of column [i], left of the ground that of the
    first column and right of the ground that of the last one; after a
    render its answer lies in [[-0.3 MAX_OFFSET, MAX_OFFSET]] for every
    [x]. *)
Theorem surface_query_reads_the_column_under_x (G : Ground.Ground) (x : R) :
  (forall i, (i < Ground.BLOCKS_PER_ROW G)%nat ->
     64 * INR i <= x < 64 * (INR i + 1) ->
     Ground.getSurfaceOffsetAt G x = Ground.get (Ground.yOffset G) i) /\
  (x < 0 -> Ground.getSurfaceOffsetAt G x = Ground.get (Ground.yOffset G) 0) /\
  (64 * INR (Ground.BLOCKS_PER_ROW G) <= x ->
     Ground.getSurfaceOffsetAt G x
     = Ground.get (Ground.yOffset G) (Ground.BLOCKS_PER_ROW G - 1)) /\
  (forall dt depressionDepth playerX, Ground.wf G ->
     Ground.inRange
       (Ground.getSurfaceOffsetAt (Ground.render G dt depressionDepth playerX) x)).
Proof.
  unfold Ground.getSurfaceOffsetAt, Ground.BLOCK_SIZE. cbv zeta.
  split; [|split; [|split]].
  - intros i Hi Hx.
    assert (E : JS.floor (x / 64) = Z.of_nat i).
    { apply Zfloor_eq. rewrite <- INR_IZR_INZ. lra. }
    rewrite E. f_equal. lia.
  - intros Hx.
    assert (E : (JS.floor (x / 64) < 0)%Z).
    { apply lt_IZR. pose proof (Zfloor_bound (x / 64)). unfold JS.floor. lra. }
    f_equal. lia.
  - intros Hx.
    assert (E : (Z.of_nat (Ground.BLOCKS_PER_ROW G) <= JS.floor (x / 64))%Z).
    { apply Zfloor_lub. rewrite <- INR_IZR_INZ. lra. }
    f_equal. lia.
  - intros dt depressionDepth playerX W. apply get_inRange, render_inRange, W.
Qed.

(** ** GameScene: the fixed-timestep loop *)

Section LoopProps.

Import GameScene.

Variable World : Type.
Variable physicsStep : R -> World -> World.

Lemma stepLoop_spec (remaining : nat) (timeScale acc : R) (steps : nat) (w : World) :
  0 <= acc ->
  exists k,
    (k <= remaining)%nat /\
    stepLoop World physicsStep remaining timeScale acc steps w
      = (acc - INR k * FIXED_DT, (steps + k)%nat,
         Nat.iter k (physicsStep (FIXED_DT * timeScale)) w) /\
    0 <= acc - INR k * FIXED_DT /\
    ((k < remaining)%nat -> acc - INR k * FIXED_DT < FIXED_DT).
Proof.
  revert acc steps w. induction remaining as [|n IH]; intros acc steps w Ha.
  - exists 0%nat. cbn [stepLoop Nat.iter INR]. rewrite Nat.add_0_r.
    replace (acc - 0 * FIXED_DT) with acc by ring.
    repeat split; [lia | exact Ha | lia].
  - cbn [stepLoop]. destruct (JS.geb acc FIXED_DT) eqn:E.
    + apply geb_true in E. cbv zeta.
      destruct (IH (acc - FIXED_DT) (S steps)
                  (physicsStep (FIXED_DT * timeScale) w) ltac:(lra))
        as (k & Hk & -> & H0 & H1).
      exists (S k). rewrite S_INR.
      replace (acc - (INR k + 1) * FIXED_DT) with (acc - FIXED_DT - INR k * FIXED_DT)
        by ring.
      split; [lia|]. split; [|split; [exact H0 | intros; apply H1; lia]].
      f_equal; [f_equal; lia|].
      cbn [Nat.iter]. apply Nat.iter_swap.
    + apply geb_false in E. exists 0%nat. cbn [Nat.iter INR]. rewrite Nat.add_0_r.
      replace (acc - 0 * FIXED_DT) with acc by ring.
      repeat split; [lia | exact Ha | intros; exact E].
Qed.

End LoopProps.

(** X28. A frame runs whole physics steps only, and never more than eight:
    the world after the frame is the world stepped [steps] times at
    [FIXED_DT * timeScale], the steps never cover more than the time that
    has passed, the accumulator handed to the next frame lies in
    [[0, FIXED_DT)], and below the cap of eight steps no time is lost. *)
Theorem frame_runs_bounded_whole_steps
    (World : Type) (physicsStep : R -> World -> World)
    (delta timeScale accumulator : R) (w : World) :
  0 <= delta -> 0 <= accumulator ->
  let r := GameScene.fixedUpdate World physicsStep delta timeScale accumulator w in
  let accumulator' := fst (fst r) in
  let steps := snd (fst r) in
  let elapsed := accumulator + Rmin (delta / 1000) GameScene.MAX_FRAME_DT in
  (steps <= GameScene.MAX_STEPS_PER_FRAME)%nat /\
  snd r = Nat.iter steps (physicsStep (GameScene.FIXED_DT * timeScale)) w /\
  INR steps * GameScene.FIXED_DT <= elapsed /\
  0 <= accumulator' < GameScene.FIXED_DT /\
  ((steps < GameScene.MAX_STEPS_PER_FRAME)%nat ->
   INR steps * GameScene.FIXED_DT + accumulator' = elapsed).
Proof.
  intros Hd Ha. cbv zeta. unfold GameScene.fixedUpdate. cbv zeta.
  assert (Hc : 0 <= Rmin (delta / 1000) GameScene.MAX_FRAME_DT).
  { apply Rmin_glb; [lra | unfold GameScene.MAX_FRAME_DT; lra]. }
  set (elapsed := accumulator + Rmin (delta / 1000) GameScene.MAX_FRAME_DT) in *.
  assert (He : 0 <= elapsed) by (unfold elapsed; lra).
  destruct (stepLoop_spec World physicsStep GameScene.MAX_STEPS_PER_FRAME timeScale
              elapsed 0 w He) as (k & Hk & -> & H0 & H1).
  cbn [fst snd Nat.add].
  assert (F : 0 < GameScene.FIXED_DT) by (unfold GameScene.FIXED_DT; lra).
  split; [exact Hk|]. split; [reflexivity|]. split; [lra|].
  destruct (GameScene.MAX_STEPS_PER_FRAME <=? k)%nat eqn:E.
  - apply Nat.leb_le in E. split; [lra | lia].
  - apply Nat.leb_gt in E. split; [split; [exact H0 | apply H1, E] | intros; lra].
Qed.

(** A frame of 20 ms at full speed on a world that counts its steps. *)
Lemma frame_steps_witness :
  let r := GameScene.fixedUpdate nat (fun _ n => S n) 20 1 0 0%nat in
  (snd (fst r) <= GameScene.MAX_STEPS_PER_FRAME)%nat /\
  snd r = Nat.iter (snd (fst r)) (fun n => S n) 0%nat /\
  INR (snd (fst r)) * GameScene.FIXED_DT
    <= 0 + Rmin (20 / 1000) GameScene.MAX_FRAME_DT /\
  0 <= fst (fst r) < GameScene.FIXED_DT /\
  ((snd (fst r) < GameScene.MAX_STEPS_PER_FRAME)%nat ->
   INR (snd (fst r)) * GameScene.FIXED_DT + fst (fst r)
   = 0 + Rmin (20 / 1000) GameScene.MAX_FRAME_DT).
Proof.
  apply (frame_runs_bounded_whole_steps nat (fun _ n => S n) 20 1 0 0%nat); lra.
Defined.

(** ** Slime: the debuffs *)

Section DebuffProps.

Import Debuffs.

Lemma poisonTicks_timer (n : nat) (timer dmg : R) (hm : Health.SlimeHealthManager) :
  INR n <= timer < INR n + 1 ->
  fst (poisonTicks n timer dmg hm) = timer - INR n.
Proof.
  revert timer hm. induction n as [|n IH]; intros timer hm H.
  - cbn [poisonTicks fst INR]. ring.
  - rewrite S_INR in H. cbn [poisonTicks].
    rewrite (proj2 (geb_true _ _)) by (pose proof (pos_INR n); lra).
    cbv zeta. rewrite IH by lra. rewrite S_INR. ring.
Qed.

Lemma whole_seconds (timer : R) :
  0 <= timer ->
  INR (Z.to_nat (Zfloor timer)) <= timer < INR (Z.to_nat (Zfloor timer)) + 1.
Proof.
  intros H. pose proof (Zfloor_bound timer) as B.
  assert (0 <= Zfloor timer)%Z by (apply Zfloor_lub; exact H).
  rewrite INR_IZR_INZ, Z2Nat.id by assumption. exact B.
Qed.

Lemma countdown_range (p dt cap : R) :
  0 <= dt -> 0 <= p <= cap ->
  0 <= (if JS.gtb p 0 then Rmax 0 (p - dt) else p) <= cap.
Proof.
  intros Hd Hp. destruct (JS.gtb p 0); [|exact Hp].
  split; [apply Rmax_l | apply Rmax_lub; lra].
Qed.

End DebuffProps.

(** X29. The debuff timers never leave their ranges: with the poisons
    between 0 and 5 s, the tick timer within one second and the slow hint
    not negative, they are so again after a debuff of a duration that is
    not negative and after an update over a time step that is not
    negative. *)
Theorem debuff_timers_stay_in_range (d : Debuffs.SlimeDebuffs) :
  timersInRange d ->
  (forall monsterType duration nowMs vy, 0 <= duration ->
     timersInRange (fst (Debuffs.applyDebuffFromMonster monsterType duration nowMs d vy))) /\
  (forall dt nowMs hm, 0 <= dt ->
     timersInRange (fst (Debuffs.updateDebuffs dt nowMs d hm))).
Proof.
  intros H. pose proof H as (H1 & H2 & H3 & H4). split.
  - intros t duration nowMs vy Hd. unfold Debuffs.applyDebuffFromMonster.
    destruct (Debuffs.hasRecentHitWindow nowMs d); [exact H|].
    destruct t; unfold timersInRange; cbn [fst Debuffs.poison1Duration
      Debuffs.poison2Duration Debuffs.poisonTickTimer Debuffs.slowImpulseTimer];
      try exact H.
    + split; [split; [apply Rmin_glb; lra | apply Rmin_l]|]. tauto.
    + split; [tauto|]. split; [split; [apply Rmin_glb; lra | apply Rmin_l]|]. tauto.
    + split; [tauto|]. split; [tauto|]. split; [tauto|]. lra.
  - intros dt nowMs hm Hd. unfold Debuffs.updateDebuffs.
    destruct (JS.leb _ 0 && JS.leb _ 0 && JS.leb _ 0); [exact H|].
    cbv zeta.
    pose proof (countdown_range _ dt 5 Hd H1) as C1.
    pose proof (countdown_range _ dt 5 Hd H2) as C2.
    assert (C4 : 0 <= (if JS.gtb (Debuffs.slowImpulseTimer d) 0
                       then Rmax 0 (Debuffs.slowImpulseTimer d - dt)
                       else Debuffs.slowImpulseTimer d))
      by (destruct (JS.gtb (Debuffs.slowImpulseTimer d) 0); [apply Rmax_l | exact H4]).
    destruct (negb _).
    + unfold timersInRange; simpl. repeat split; try tauto; lra.
    + assert (T : 0 <= Debuffs.poisonTickTimer d + dt) by lra.
      pose proof (whole_seconds _ T) as W.
      pose proof (poisonTicks_timer _ _
                    ((if JS.gtb (if JS.gtb (Debuffs.poison1Duration d) 0
                                 then Rmax 0 (Debuffs.poison1Duration d - dt)
                                 else Debuffs.poison1Duration d) 0 then 1 else 0)
                     + (if JS.gtb (if JS.gtb (Debuffs.poison2Duration d) 0
                                   then Rmax 0 (Debuffs.poison2Duration d - dt)
                                   else Debuffs.poison2Duration d) 0 then 2 else 0))
                    hm W) as P.
      destruct (Debuffs.poisonTicks _ _ _ hm) as [timer hm'].
      cbn [fst] in *. unfold timersInRange; simpl.
      repeat split; try tauto; lra.
Qed.

Lemma debuff_timers_witness :
  (forall monsterType duration nowMs vy, 0 <= duration ->
     timersInRange
       (fst (Debuffs.applyDebuffFromMonster monsterType duration nowMs poisonedSlime vy))) /\
  (forall dt nowMs hm, 0 <= dt ->
     timersInRange (fst (Debuffs.updateDebuffs dt nowMs poisonedSlime hm))).
Proof.
  apply (debuff_timers_stay_in_range poisonedSlime).
  unfold timersInRange; simpl. lra.
Defined.

Lemma poison_remains (p dt : R) :
  0 <= p -> 0 <= dt ->
  JS.gtb (if JS.gtb p 0 then Rmax 0 (p - dt) else p) 0 = JS.gtb (p - dt) 0.
Proof.
  intros Hp Hd.
  destruct (JS.gtb p 0) eqn:E; [apply gtb_true in E | apply gtb_false in E].
  - destruct (Rle_dec (p - dt) 0).
    + rewrite Rmax_left by lra.
      rewrite (proj2 (gtb_false 0 0)) by lra.
      symmetry. apply gtb_false. lra.
    + rewrite Rmax_right by lra. reflexivity.
  - rewrite (proj2 (gtb_false p 0)) by lra.
    symmetry. apply gtb_false. lra.
Qed.

(** The tick loop over a time step of less than a second. *)
Lemma poison_tick (d : Debuffs.SlimeDebuffs) (hm : Health.SlimeHealthManager)
    (dt : R) (ids : list Z) (p1 p2 slow g1 g2 g3 ts : R) (b1 b2 : bool) :
  0 <= Debuffs.poisonTickTimer d < 1 -> 0 <= dt < 1 ->
  snd (if negb (b1 || b2)
       then (Debuffs.mkDebuffs p1 p2 0 slow g1 g2 g3 (Debuffs.recentKilledIds d) ts, hm)
       else
         let timer := Debuffs.poisonTickTimer d + dt in
         let dmg := (if b1 then 1 else 0) + (if b2 then 2 else 0) in
         let '(timer, hm) :=
           Debuffs.poisonTicks (Z.to_nat (Zfloor timer)) timer dmg hm in
         (Debuffs.mkDebuffs p1 p2 timer slow g1 g2 g3 ids ts, hm))
  = if (b1 || b2) && JS.geb (Debuffs.poisonTickTimer d + dt) 1
    then Health.takeDamage hm ((if b1 then 1 else 0) + (if b2 then 2 else 0))
    else hm.
Proof.
  intros Ht Hd.
  destruct (b1 || b2) eqn:B; cbn [negb andb]; [|reflexivity].
  cbv zeta.
  set (timer := Debuffs.poisonTickTimer d + dt).
  assert (P : 0 < (if b1 then 1 else 0) + (if b2 then 2 else 0)).
  { destruct b1, b2; try discriminate; lra. }
  destruct (JS.geb timer 1) eqn:E; [apply geb_true in E | apply geb_false in E].
  - assert (F : Zfloor timer = 1%Z) by (apply Zfloor_eq; unfold timer in *; lra).
    rewrite F. change (Z.to_nat 1) with 1%nat. cbn [Debuffs.poisonTicks].
    rewrite (proj2 (geb_true _ _) E). cbv zeta.
    rewrite (proj2 (gtb_true _ _) P). reflexivity.
  - assert (F : Zfloor timer = 0%Z) by (apply Zfloor_eq; unfold timer in *; lra).
    rewrite F. reflexivity.
Qed.

(** X30. Poison hurts once a second: over a time step of less than a second
    [updateDebuffs] calls [takeDamage] once, with 1 hp for poison I plus
    2 hp for poison II, exactly when a poison outlasts the step and the tick
    timer completes a second in it; otherwise the health manager is left as
    it was. *)
Theorem poison_hurts_once_a_second
    (d : Debuffs.SlimeDebuffs) (hm : Health.SlimeHealthManager) (dt nowMs : R) :
  timersInRange d -> 0 <= dt < 1 ->
  let lasts1 := JS.gtb (Debuffs.poison1Duration d - dt) 0 in
  let lasts2 := JS.gtb (Debuffs.poison2Duration d - dt) 0 in
  let dmg := (if lasts1 then 1 else 0) + (if lasts2 then 2 else 0) in
  snd (Debuffs.updateDebuffs dt nowMs d hm) =
  if (lasts1 || lasts2) && JS.geb (Debuffs.poisonTickTimer d + dt) 1
  then Health.takeDamage hm dmg else hm.
Proof.
  intros (H1 & H2 & H3 & H4) Hd. cbv zeta. unfold Debuffs.updateDebuffs.
  destruct (JS.leb (Debuffs.poison1Duration d) 0) eqn:E1;
    [apply leb_true in E1 | apply leb_false in E1].
  - destruct (JS.leb (Debuffs.poison2Duration d) 0) eqn:E2;
      [apply leb_true in E2 | apply leb_false in E2].
    + rewrite (proj2 (gtb_false (Debuffs.poison1Duration d - dt) 0)) by lra.
      rewrite (proj2 (gtb_false (Debuffs.poison2Duration d - dt) 0)) by lra.
      cbn [andb orb].
      destruct (JS.leb (Debuffs.slowImpulseTimer d) 0); [reflexivity|].
      cbv zeta. rewrite !poison_remains by lra.
      rewrite (proj2 (gtb_false (Debuffs.poison1Duration d - dt) 0)) by lra.
      rewrite (proj2 (gtb_false (Debuffs.poison2Duration d - dt) 0)) by lra.
      reflexivity.
    + cbn [andb]. cbv zeta. rewrite !poison_remains by lra.
      apply poison_tick; assumption.
  - cbn [andb]. cbv zeta. rewrite !poison_remains by lra.
    apply poison_tick; assumption.
Qed.

(** Half a second into a tick, a step of 0.6 s completes the second. *)
Lemma poison_hurts_witness :
  let lasts1 := JS.gtb (Debuffs.poison1Duration poisonedSlime - 6 / 10) 0 in
  let lasts2 := JS.gtb (Debuffs.poison2Duration poisonedSlime - 6 / 10) 0 in
  let dmg := (if lasts1 then 1 else 0) + (if lasts2 then 2 else 0) in
  snd (Debuffs.updateDebuffs (6 / 10) 0 poisonedSlime (Health.initial 50)) =
  if (lasts1 || lasts2) && JS.geb (Debuffs.poisonTickTimer poisonedSlime + 6 / 10) 1
  then Health.takeDamage (Health.initial 50) dmg else Health.initial 50.
Proof.
  apply (poison_hurts_once_a_second poisonedSlime (Health.initial 50) (6 / 10) 0).
  - unfold timersInRange; simpl. lra.
  - lra.
Defined.
